(** * TikTok transcription service: request orchestration and media cache

    A shallow embedding of the two variants of the API service
    ([api/src/index.ts], which drives the [yt-dlp] tool, and its sibling
    that calls the tikwm.com HTTP API), followed by the properties of the
    orchestration core: URL validation, the content-addressed media cache,
    download-URL selection, the bounded transcription call and the shape of
    the success and error replies.

    Asynchronous code is embedded in a state-and-exception monad: [await]
    is sequencing, a rejected promise is a thrown value, [try]/[catch] is
    [try_catch].  The outside world (clock, file-system faults, HTTP peers,
    the spawned tool) is an explicit environment record, and every outbound
    call is appended to a trace kept in the world state. *)

From Stdlib Require Import ZArith String Ascii List Floats Lia.
From Stdlib.Strings Require Import Byte.
From stdpp Require Import base strings gmap list pretty.

Open Scope Z_scope.

(** ** Regular expressions (the fragment used by the URL pattern) *)

Module RegExp.

Inductive regex : Type :=
| Lit (s : string)           (* a literal run of characters *)
| Seq (r1 r2 : regex)        (* r1 r2 *)
| Alt (r1 r2 : regex)        (* r1|r2 *)
| Opt (r : regex).           (* r?  (greedy) *)

(** [strip p s] removes the prefix [p] from [s] when it is there. *)
Fixpoint strip (p s : string) : option string :=
  match p, s with
  | EmptyString, _ => Some s
  | String a p', String b s' => if Ascii.eqb a b then strip p' s' else None
  | String _ _, EmptyString => None
  end.

(** All the ways [r] can match at the start of [s], in backtracking
    order; each is given by the text left after the match. *)
Fixpoint residues (r : regex) (s : string) : list string :=
  match r with
  | Lit p => match strip p s with Some t => [t] | None => [] end
  | Seq r1 r2 => flat_map (residues r2) (residues r1 s)
  | Alt r1 r2 => residues r1 s ++ residues r2 s
  | Opt r' => residues r' s ++ [s]
  end.

(** [/^r/.test(s)]: the pattern is anchored at the start only. *)
Definition test (r : regex) (s : string) : bool :=
  match residues r s with
  | [] => false
  | _ :: _ => true
  end.

End RegExp.

Import RegExp.

(** [const TIKTOK_URL_PATTERN = /^https?:\/\/(www\.)?(tiktok\.com|vm\.tiktok\.com)/] *)
Definition TIKTOK_URL_PATTERN : regex :=
  Seq (Lit "http") (Seq (Opt (Lit "s")) (Seq (Lit "://")
    (Seq (Opt (Lit "www.")) (Alt (Lit "tiktok.com") (Lit "vm.tiktok.com"))))).

(** ** JavaScript values met in request bodies *)

(** The value bound by [const { url } = await c.req.json()].  Numbers are
    the integers (what matters of a number here is whether it is zero and
    that its decimal rendering starts with a digit or a sign).  Strings
    are byte sequences: the UTF-8 form of the text, in which a lone
    surrogate (a code unit U+D800..U+DFFF without its pair, which a JSON
    escape can produce) shows as the three bytes [ED A0..BF 80..BF].

    Arrays are outside the model.  An array is truthy and the pattern test
    joins it into a text, so an array that holds an accepted URL passes
    the gate as a value that is not a string; what
    [createHash('sha256').update] and [spawn] of the runtime do with such
    an argument is not in the source.  With arrays left out, the only
    values that pass the gate are strings, and past the gate the model
    works on the string. *)
#[warnings="-register-all"]
Inductive jsval : Type :=
| JUndefined
| JNull
| JBool (b : bool)
| JNum (n : Z)
| JStr (s : string)
| JObj (members : list (string * jsval)).

(** [!v] is [negb (truthy v)]. *)
Definition truthy (v : jsval) : bool :=
  match v with
  | JUndefined | JNull => false
  | JBool b => b
  | JNum n => negb (n =? 0)
  | JStr s => negb (String.eqb s "")
  | JObj _ => true
  end.

(** The text of a primitive value, and the text that the inherited
    [Object.prototype.toString] gives for an object of a JSON body. *)
Definition text_of (v : jsval) : string :=
  match v with
  | JUndefined => "undefined"
  | JNull => "null"
  | JBool true => "true"
  | JBool false => "false"
  | JNum n => pretty n
  | JStr s => s
  | JObj _ => "[object Object]"
  end.

(** Has the object a member of its own under the name [k]. *)
Definition has_own (k : string) (members : list (string * jsval)) : bool :=
  existsb (fun kv => String.eqb k (fst kv)) members.

(** Property read [v.k] on a parsed JSON object: the last member named
    [k] wins, as in [JSON.parse]. *)
Fixpoint member (k : string) (ms : list (string * jsval)) : jsval :=
  match ms with
  | [] => JUndefined
  | (k', v) :: rest =>
      match member k rest with
      | JUndefined => if String.eqb k k' then v else JUndefined
      | later => later
      end
  end.

(** Truthiness of an optional string field ([undefined] and [""] are
    falsy), and JavaScript's [a || b] on such fields. *)
Definition truthy_str (o : option string) : bool :=
  match o with
  | Some s => negb (String.eqb s "")
  | None => false
  end.

Definition js_or (a b : option string) : option string :=
  if truthy_str a then a else b.

(** ** Thrown values, outcomes and the monad *)

(** What [catch (error)] can receive: an [Error] instance with its [name]
    and [message], or some other value. *)
Inductive thrown : Type :=
| ErrorObj (name message : string)
| NonError (text : string).

Definition instanceof_Error (e : thrown) : bool :=
  match e with ErrorObj _ _ => true | NonError _ => false end.

Definition error_name (e : thrown) : string :=
  match e with ErrorObj n _ => n | NonError _ => "" end.

(** [error instanceof Error ? error.message : 'Unknown error'] *)
Definition message_or_unknown (e : thrown) : string :=
  match e with ErrorObj _ m => m | NonError _ => "Unknown error" end.

(** [`${error}`]: [Error.prototype.toString] gives the message alone when
    the name is empty, the name alone when the message is empty. *)
Definition thrown_to_string (e : thrown) : string :=
  match e with
  | ErrorObj n m =>
      if String.eqb n "" then m
      else if String.eqb m "" then n
      else n +:+ ": " +:+ m
  | NonError t => t
  end.

(** [new Error(msg)] *)
Definition new_Error (msg : string) : thrown := ErrorObj "Error" msg.

Inductive Outcome (A : Type) : Type :=
| Ok (a : A)
| Throw (e : thrown).
Arguments Ok {A} a.
Arguments Throw {A} e.

Definition M (S A : Type) : Type := S -> Outcome A * S.

Definition ret {S A} (a : A) : M S A := fun s => (Ok a, s).

Definition throw {S A} (e : thrown) : M S A := fun s => (Throw e, s).

Definition bind {S A B} (m : M S A) (k : A -> M S B) : M S B :=
  fun s => match m s with
           | (Ok a, s') => k a s'
           | (Throw e, s') => (Throw e, s')
           end.

(** [try { m } catch (e) { h e }]: effects of [m] up to the throw are kept. *)
Definition try_catch {S A} (m : M S A) (h : thrown -> M S A) : M S A :=
  fun s => match m s with
           | (Ok a, s') => (Ok a, s')
           | (Throw e, s') => h e s'
           end.

(** Lifting an [Outcome] that the environment has already decided. *)
Definition settle {S A} (o : Outcome A) : M S A := fun s => (o, s).

Notation "'let*' x ':=' m 'in' k" := (bind m (fun x => k))
  (at level 10, x name, m at level 100, k at level 200, only parsing).
Notation "m ';;' k" := (bind m (fun _ => k))
  (at level 100, k at level 200, right associativity, only parsing).

(** The string coercion applied by [RegExp.prototype.test] and by template
    literals.  An object is converted by its [toString] method, which for
    an object of a JSON body is the inherited [Object.prototype.toString],
    unless the object has a member of its own named [toString]: a JSON
    value is never callable, [valueOf] (inherited, it returns the object;
    of its own, it is not callable either) yields no primitive, and the
    coercion throws a [TypeError]. *)
Definition ToString (v : jsval) : Outcome string :=
  match v with
  | JObj members =>
      if has_own "toString" members
      then Throw (ErrorObj "TypeError" "Cannot convert object to primitive value")
      else Ok (text_of v)
  | JUndefined | JNull | JBool _ | JNum _ | JStr _ => Ok (text_of v)
  end.

(** ** Payloads of the collaborators *)

(** [interface TikwmVideoInfo].  The four media URLs are tested for
    falsiness by the code, so they are optional here: [None] is an absent
    member, [Some ""] an empty one. *)
Record TikwmAuthor : Type := {
  unique_id : string;
  nickname : string
}.

Record TikwmVideoInfo : Type := {
  tk_id : string;
  tk_title : string;
  tk_author : TikwmAuthor;
  tk_duration : float;
  play : option string;
  music : option string;
  cover : string;
  origin_cover : string;
  size : Z;
  wm_size : Z;
  hd_size : Z;
  wmplay : option string;
  hdplay : option string
}.

(** [interface TikwmResponse] *)
Record TikwmResponse : Type := {
  code : Z;
  msg : string;
  processed_time : float;
  data : TikwmVideoInfo
}.

(** [interface YtDlpInfo] *)
Record YtDlpInfo : Type := {
  yt_id : string;
  yt_title : string;
  uploader : string;
  yt_duration : float;
  yt_url : string;
  ext : string;
  filesize : option Z;
  thumbnail : string;
  description : option string
}.

(** What the Whisper worker answers: [{ caption: string }]. *)
Record WhisperResult : Type := {
  caption : string
}.

(** A [fetch] response.  [json] is what [await response.json()] yields
    when the body is read at the TypeScript type [J] the code casts it
    to: a value, or the exception of a body that is not such JSON. *)
Record HttpResponse (J : Type) : Type := {
  status : Z;
  statusText : string;
  body : list byte;
  json : Outcome J
}.
Arguments status {J} _.
Arguments statusText {J} _.
Arguments body {J} _.
Arguments json {J} _.

(** [response.ok]: the status is in the range 200-299. *)
Definition ok {J} (r : HttpResponse J) : bool :=
  (200 <=? status r) && (status r <=? 299).

(** [await response.text()] *)
Definition text {J} (r : HttpResponse J) : string :=
  string_of_list_byte (body r).

Inductive FetchResult (J : Type) : Type :=
| Rejected (e : thrown)                 (* transport error *)
| Responded (r : HttpResponse J).
Arguments Rejected {J} e.
Arguments Responded {J} r.

(** The [File] appended to the [FormData] posted to the worker. *)
Record FormFile : Type := {
  file_bytes : list byte;
  file_name : string;
  file_type : string
}.

(** How the transcription worker behaves on one upload: it answers after
    some milliseconds, never answers, or cannot be reached. *)
Inductive WorkerBehaviour : Type :=
| RespondsAfter (ms : Z) (r : HttpResponse WhisperResult)
| NeverResponds
| Unreachable (e : thrown).

(** One run of a spawned process: the ['error'] event, or ['close'] with
    the exit code, what was written to the two pipes, and the files the
    process left in the temporary directory, by name. *)
Inductive ProcResult : Type :=
| SpawnError (message : string)
| Closed (exit_code : Z) (stdout stderr : string)
         (written : list (string * list byte)).

(** ** The world: file system, clock position, outbound calls, console *)

(** The paths the program forms: the cache directory, a file in it
    ([join(CACHE_DIR, name)]) and a file in the temporary directory
    ([join('/tmp', name)]). *)
Inductive Path : Type :=
| CacheDirPath
| InCache (name : string)
| InTmp (name : string).

Inductive FsOp : Type := OpAccess | OpMkdir | OpReadFile | OpWriteFile | OpUnlink.

Inductive Call : Type :=
| Fetch (url : string)                        (* fetch(url) *)
| FetchPost (url : string) (file : FormFile)  (* fetch(url, {method: 'POST', body, signal}) *)
| Spawn (command : string) (args : list string).

Inductive LogLevel : Type := LogInfo | LogWarn | LogError.

Record World : Type := mkWorld {
  cache_dir : bool;                     (* does CACHE_DIR exist *)
  cache : gmap string (list byte);      (* the files of CACHE_DIR, by name *)
  tmp : gmap string (list byte);        (* the files of /tmp, by name *)
  ticks : nat;                          (* how many times Date.now() was read *)
  calls : list Call;                    (* outbound calls, oldest first *)
  console : list (LogLevel * string)    (* console lines, oldest first *)
}.

(** The environment a request runs in.  Everything here is outside the
    program: the process settings, the library digest, the wall clock, the
    faults the file system may raise, and the peers' behaviour. *)
Record Env : Type := mkEnv {
  cwd : string;                                   (* process.cwd() *)
  env_WHISPER_API_URL : option string;            (* process.env.WHISPER_API_URL *)
  sha256_hex : string -> string;                  (* createHash('sha256').update(s).digest('hex') *)
  clock : nat -> Z;                               (* the n-th reading of Date.now() *)
  fs_fault : FsOp -> Path -> option thrown;       (* an I/O error other than the regular ones *)
  http_get : string -> FetchResult TikwmResponse; (* the peer behind fetch(url) *)
  whisper : string -> FormFile -> WorkerBehaviour;
  yt_dlp : list string -> ProcResult;             (* a run of yt-dlp with these arguments *)
  parse_info : string -> option YtDlpInfo;        (* JSON.parse(output.trim()) as YtDlpInfo *)
  number_to_string : float -> string;             (* Number.prototype.toString, finite magnitudes from 1e21 on *)
  uri_error_message : string;                     (* the message of the URIError of encodeURIComponent *)
  location_header : string -> Outcome string      (* the Location header c.redirect(location) sets, or what it throws *)
}.

Definition set_cache_dir (b : bool) (w : World) : World :=
  mkWorld b (cache w) (tmp w) (ticks w) (calls w) (console w).

Definition set_cache (m : gmap string (list byte)) (w : World) : World :=
  mkWorld (cache_dir w) m (tmp w) (ticks w) (calls w) (console w).

Definition set_tmp (m : gmap string (list byte)) (w : World) : World :=
  mkWorld (cache_dir w) (cache w) m (ticks w) (calls w) (console w).

Definition record_call (c : Call) (w : World) : World :=
  mkWorld (cache_dir w) (cache w) (tmp w) (ticks w) (calls w ++ [c]) (console w).

Definition record_line (l : LogLevel) (s : string) (w : World) : World :=
  mkWorld (cache_dir w) (cache w) (tmp w) (ticks w) (calls w) (console w ++ [(l, s)]).

Definition next_tick (w : World) : World :=
  mkWorld (cache_dir w) (cache w) (tmp w) (S (ticks w)) (calls w) (console w).

(** ** Runtime primitives *)

Definition TimeoutError : thrown :=
  ErrorObj "TimeoutError" "The operation timed out.".

Definition ENOENT (syscall path : string) : thrown :=
  new_Error ("ENOENT: no such file or directory, " +:+ syscall +:+ " '" +:+ path +:+ "'").

Definition EISDIR (syscall path : string) : thrown :=
  new_Error ("EISDIR: illegal operation on a directory, " +:+ syscall +:+ " '" +:+ path +:+ "'").

(** [path.join(dir, name)] for a directory without trailing separator and
    a plain file name. *)
Definition path_join (dir name : string) : string := dir +:+ "/" +:+ name.

(** The escaping done by [encodeURIComponent]: every byte outside the
    unreserved set becomes [%XX].  Strings are byte sequences (UTF-8). *)
Definition unreserved (a : ascii) : bool :=
  let n := nat_of_ascii a in
  ((65 <=? n) && (n <=? 90) || (97 <=? n) && (n <=? 122) || (48 <=? n) && (n <=? 57))%nat
  || existsb (Ascii.eqb a) (list_ascii_of_string "-_.!~*'()").

Definition hex_digit (n : nat) : ascii :=
  nth n (list_ascii_of_string "0123456789ABCDEF") "0"%char.

Fixpoint percent_encode (s : string) : string :=
  match s with
  | EmptyString => EmptyString
  | String a rest =>
      if unreserved a then String a (percent_encode rest)
      else
        let n := nat_of_ascii a in
        String "%" (String (hex_digit (n / 16)%nat)
                      (String (hex_digit (n mod 16)%nat) (percent_encode rest)))
  end.

(** [String.prototype.isWellFormed]: the text holds no lone surrogate,
    which in the byte form is the byte [ED] followed by one of [A0..BF]. *)
Fixpoint isWellFormed (s : string) : bool :=
  match s with
  | EmptyString => true
  | String a rest =>
      match rest with
      | EmptyString => true
      | String b _ =>
          negb ((nat_of_ascii a =? 237)%nat
                && (160 <=? nat_of_ascii b)%nat && (nat_of_ascii b <=? 191)%nat)
          && isWellFormed rest
      end
  end.

(** Files a finished process has left in the temporary directory. *)
Definition leave_files (written : list (string * list byte)) (m : gmap string (list byte))
  : gmap string (list byte) :=
  fold_left (fun acc pb => <[fst pb := snd pb]> acc) written m.

(** What [downloadMedia] resolves to. *)
Record Media : Type := {
  buffer : list byte;
  filename : string;
  contentType : string;
  cached : bool
}.

Definition extension_of (audioOnly : bool) : string :=
  if audioOnly then "mp3" else "mp4".

Definition contentType_of (audioOnly : bool) : string :=
  if audioOnly then "audio/mp3" else "video/mp4".

Section Primitives.

Variable E : Env.

(** [const CACHE_DIR = join(process.cwd(), 'cache')] *)
Definition CACHE_DIR : string := path_join (cwd E) "cache".

(** The text of a path, as it appears in messages. *)
Definition path_text (p : Path) : string :=
  match p with
  | CacheDirPath => CACHE_DIR
  | InCache name => path_join CACHE_DIR name
  | InTmp name => path_join "/tmp" name
  end.

(** [encodeURIComponent(s)]: a text with a lone surrogate has no UTF-8
    form to escape, and the call throws a [URIError]. *)
Definition encodeURIComponent (s : string) : Outcome string :=
  if isWellFormed s then Ok (percent_encode s)
  else Throw (ErrorObj "URIError" (uri_error_message E)).

(** [Date.now()] *)
Definition Date_now : M World Z :=
  fun w => (Ok (clock E (ticks w)), next_tick w).

Definition console_log (line : string) : M World unit :=
  fun w => (Ok tt, record_line LogInfo line w).

Definition console_warn (line : string) : M World unit :=
  fun w => (Ok tt, record_line LogWarn line w).

Definition console_error (line : string) : M World unit :=
  fun w => (Ok tt, record_line LogError line w).

(** Is there something at this path. *)
Definition exists_at (p : Path) (w : World) : bool :=
  match p with
  | CacheDirPath => cache_dir w
  | InCache name => bool_decide (is_Some (cache w !! name))
  | InTmp name => bool_decide (is_Some (tmp w !! name))
  end.

(** [fs/promises]: [access], [mkdir(_, { recursive: true })], [readFile],
    [writeFile], [unlink].  Each first gives way to the fault the
    environment raises for it, if any. *)
Definition access (p : Path) : M World unit :=
  fun w =>
    match fs_fault E OpAccess p with
    | Some e => (Throw e, w)
    | None =>
        if exists_at p w then (Ok tt, w)
        else (Throw (ENOENT "access" (path_text p)), w)
    end.

Definition mkdir_recursive (p : Path) : M World unit :=
  fun w =>
    match fs_fault E OpMkdir p with
    | Some e => (Throw e, w)
    | None =>
        match p with
        | CacheDirPath => (Ok tt, set_cache_dir true w)
        | InCache _ | InTmp _ => (Ok tt, w)
        end
    end.

Definition readFile (p : Path) : M World (list byte) :=
  fun w =>
    match fs_fault E OpReadFile p with
    | Some e => (Throw e, w)
    | None =>
        match p with
        | CacheDirPath =>
            if cache_dir w then (Throw (EISDIR "read" (path_text p)), w)
            else (Throw (ENOENT "open" (path_text p)), w)
        | InCache name =>
            match cache w !! name with
            | Some content => (Ok content, w)
            | None => (Throw (ENOENT "open" (path_text p)), w)
            end
        | InTmp name =>
            match tmp w !! name with
            | Some content => (Ok content, w)
            | None => (Throw (ENOENT "open" (path_text p)), w)
            end
        end
    end.

(** A file can be written only into a directory that exists. *)
Definition writeFile (p : Path) (content : list byte) : M World unit :=
  fun w =>
    match fs_fault E OpWriteFile p with
    | Some e => (Throw e, w)
    | None =>
        match p with
        | CacheDirPath => (Throw (EISDIR "open" (path_text p)), w)
        | InCache name =>
            if cache_dir w then (Ok tt, set_cache (<[name := content]> (cache w)) w)
            else (Throw (ENOENT "open" (path_text p)), w)
        | InTmp name => (Ok tt, set_tmp (<[name := content]> (tmp w)) w)
        end
    end.

Definition unlink (p : Path) : M World unit :=
  fun w =>
    match fs_fault E OpUnlink p with
    | Some e => (Throw e, w)
    | None =>
        match p with
        | CacheDirPath => (Throw (EISDIR "unlink" (path_text p)), w)
        | InCache name =>
            match cache w !! name with
            | Some _ => (Ok tt, set_cache (delete name (cache w)) w)
            | None => (Throw (ENOENT "unlink" (path_text p)), w)
            end
        | InTmp name =>
            match tmp w !! name with
            | Some _ => (Ok tt, set_tmp (delete name (tmp w)) w)
            | None => (Throw (ENOENT "unlink" (path_text p)), w)
            end
        end
    end.

(** [fetch(url)] *)
Definition fetch (url : string) : M World (HttpResponse TikwmResponse) :=
  fun w =>
    match http_get E url with
    | Rejected e => (Throw e, record_call (Fetch url) w)
    | Responded r => (Ok r, record_call (Fetch url) w)
    end.

(** [fetch(url, { method: 'POST', body: formData,
                  signal: AbortSignal.timeout(ms) })]:
    the signal aborts the call with a [TimeoutError] once [ms]
    milliseconds have passed without an answer. *)
Definition fetch_post (url : string) (file : FormFile) (timeout_ms : Z)
  : M World (HttpResponse WhisperResult) :=
  fun w =>
    match whisper E url file with
    | RespondsAfter ms r =>
        if ms <? timeout_ms then (Ok r, record_call (FetchPost url file) w)
        else (Throw TimeoutError, record_call (FetchPost url file) w)
    | NeverResponds => (Throw TimeoutError, record_call (FetchPost url file) w)
    | Unreachable e => (Throw e, record_call (FetchPost url file) w)
    end.

(** [spawn(command, args)] run to its ['close'] or ['error'] event. *)
Definition spawn (command : string) (args : list string) : M World ProcResult :=
  fun w =>
    match yt_dlp E args with
    | SpawnError m => (Ok (SpawnError m), record_call (Spawn command args) w)
    | Closed c out err written =>
        (Ok (Closed c out err written),
         set_tmp (leave_files written (tmp w)) (record_call (Spawn command args) w))
    end.

(** [process.env.WHISPER_API_URL || 'http://localhost:8000/transcribe'] *)
Definition WHISPER_API_URL : string :=
  match js_or (env_WHISPER_API_URL E) (Some "http://localhost:8000/transcribe") with
  | Some s => s
  | None => ""
  end.

Definition initCacheDir : M World unit :=
  try_catch (access CacheDirPath)
    (fun _ =>
       mkdir_recursive CacheDirPath ;;
       console_log ("Created cache directory: " +:+ CACHE_DIR)).

Definition getCacheKey (url : string) : string := sha256_hex E url.

(** [join(CACHE_DIR, `${cacheKey}.${extension}`)] *)
Definition cachedFile_of (videoUrl : string) (audioOnly : bool) : Path :=
  InCache (getCacheKey videoUrl +:+ "." +:+ extension_of audioOnly).

(** The cache look-up that opens [downloadMedia] in both variants:
    [try { await access(cachedFile); ...; return {..., cached: true} }
     catch { }].  [Some] is the early [return]. *)
Definition cache_get (videoUrl : string) (audioOnly : bool) : M World (option Media) :=
  let cacheKey := getCacheKey videoUrl in
  let extension := extension_of audioOnly in
  let cachedFile := InCache (cacheKey +:+ "." +:+ extension) in
  try_catch
    (access cachedFile ;;
     console_log ("Found cached file for: " +:+ videoUrl) ;;
     let* buffer := readFile cachedFile in
     ret (Some {| buffer := buffer;
                  filename := "tiktok_" +:+ cacheKey +:+ "." +:+ extension;
                  contentType := contentType_of audioOnly;
                  cached := true |}))
    (fun _ => ret None).

(** The cache write that follows a download in both variants:
    [try { await writeFile(cachedFile, buffer); console.log(...) }
     catch (error) { console.warn(...) }]. *)
Definition cache_put (cachedFile : Path) (buffer : list byte) : M World unit :=
  try_catch
    (writeFile cachedFile buffer ;;
     console_log ("Saved to cache: " +:+ path_text cachedFile))
    (fun error =>
       console_warn ("Failed to save to cache: " +:+ thrown_to_string error)).

End Primitives.

(** ** Numbers and their rendering *)

(** An integer-valued JavaScript number (a time difference, a length) as
    the double it is. *)
Definition float_of_Z (z : Z) : float :=
  SF2Prim (binary_normalize prec emax z 0 false).

Fixpoint zeros (k : nat) : string :=
  match k with
  | O => EmptyString
  | S k' => String "0" (zeros k')
  end.

(** The decimal text of [n / 10^f] for a non-negative integer [n], with
    exactly [f] digits after the point. *)
Definition fixed_point (n : Z) (f : nat) : string :=
  let m := pretty n in
  if (f =? 0)%nat then m
  else
    let m' := if (String.length m <=? f)%nat
              then zeros (f + 1 - String.length m) +:+ m else m in
    let k := String.length m' in
    substring 0 (k - f) m' +:+ "." +:+ substring (k - f) f m'.

(** The integer [n] nearest to [m * 2^e * 10^f], the larger one on a tie. *)
Definition scaled (m : positive) (e : Z) (f : nat) : Z :=
  let p := Z.pos m * 10 ^ Z.of_nat f in
  if 0 <=? e then p * 2 ^ e
  else (2 * p + 2 ^ (- e)) / 2 ^ (- e + 1).

Section Formatting.

Variable E : Env.

(** The text [x.toFixed(fractionDigits)] yields for up to 100 digits. *)
Definition toFixed_text (x : float) (fractionDigits : nat) : string :=
  if is_nan x then "NaN"
  else if is_infinity x then
    (if (x <? 0)%float then "-Infinity" else "Infinity")
  else
    match Prim2SF x with
    | S754_finite sign m e =>
        (if sign then "-" else "") +:+
        (if (1e21 <=? abs x)%float then number_to_string E (abs x)
         else fixed_point (scaled m e fractionDigits) fractionDigits)
    | _ => fixed_point 0 fractionDigits
    end.

(** [x.toFixed(fractionDigits)] *)
Definition toFixed (x : float) (fractionDigits : nat) : Outcome string :=
  if (100 <? fractionDigits)%nat then
    Throw (ErrorObj "RangeError" "toFixed() digits argument must be between 0 and 100")
  else Ok (toFixed_text x fractionDigits).

End Formatting.

(** ** Requests and replies *)

(** What a handler reads of the Hono context: the outcome of
    [await c.req.json()] and the query parameters. *)
Record Request : Type := {
  req_json : Outcome jsval;
  req_query : list (string * string)
}.

(** [c.req.query(k)] *)
Fixpoint query_lookup (k : string) (qs : list (string * string)) : option string :=
  match qs with
  | [] => None
  | (k', v) :: rest => if String.eqb k k' then Some v else query_lookup k rest
  end.

(** [c.req.query(k) === 'true'] *)
Definition query_is_true (c : Request) (k : string) : bool :=
  match query_lookup k (req_query c) with
  | Some v => String.eqb v "true"
  | None => false
  end.

(** The [url] member a value offers to [const { url } = value]: none for
    [null] and [undefined], [undefined] for a primitive. *)
Definition url_member (v : jsval) : option jsval :=
  match v with
  | JUndefined | JNull => None
  | JObj members => Some (member "url" members)
  | JBool _ | JNum _ | JStr _ => Some JUndefined
  end.

(** [const { url } = body]: destructuring [null] or [undefined] throws. *)
Definition destructure_url {S} (v : jsval) : M S jsval :=
  match url_member v with
  | Some url => ret url
  | None => throw (ErrorObj "TypeError" "Cannot destructure property 'url' of the body")
  end.

Record PartialTiming : Type := {
  pt_total : Z;
  pt_metadata : Z;
  pt_download : Z;
  pt_transcription : Z
}.

Record ErrorDebug : Type := {
  ed_timing : PartialTiming;
  failedAt : string
}.

(** The object literals passed to [c.json] on the error paths. *)
Record ErrorBody : Type := {
  error : string;
  details : option string;
  error_debug : option ErrorDebug
}.

Record DebugTiming : Type := {
  dt_total : string;
  dt_metadata : string;
  dt_download : string;
  dt_transcription : string
}.

Record DebugPerformance : Type := {
  downloadSpeed : string;
  transcriptionSpeed : string;
  efficiency : string
}.

Record DebugBreakdown : Type := {
  metadataFetch : string;
  mediaDownload : string;
  bd_transcription : string
}.

Record DebugBlock : Type := {
  timing : DebugTiming;
  performance : DebugPerformance;
  breakdown : DebugBreakdown
}.

(** [response.metadata]; the members only one variant writes are optional. *)
Record ResponseMetadata : Type := {
  title : string;
  author : string;
  authorId : option string;
  duration : float;
  processingType : string;
  fileSize : Z;
  md_thumbnail : string;
  originCover : option string;
  md_description : option string;
  md_cached : bool
}.

Record CaptionBody : Type := {
  cb_url : string;
  cb_caption : string;
  metadata : ResponseMetadata;
  downloadUrl : string;
  debug : option DebugBlock
}.

Inductive Reply : Type :=
| JsonError (st : Z) (b : ErrorBody)   (* c.json({ error, ... }, st) *)
| JsonCaption (b : CaptionBody)        (* c.json(response) *)
| Redirect (location : string).        (* a 302 reply with this Location header *)

Definition reply_status (r : Reply) : Z :=
  match r with
  | JsonError st _ => st
  | JsonCaption _ => 200
  | Redirect _ => 302
  end.

(** The 400 reply shared by both handlers. *)
Definition invalid_url_reply : Reply :=
  JsonError 400 {| error := "Invalid or missing TikTok URL.";
                   details := None; error_debug := None |}.

(** [!url || !TIKTOK_URL_PATTERN.test(url)]: a falsy value is not tested;
    [test] first coerces its argument to a string, which can throw. *)
Definition rejects (url : jsval) : Outcome bool :=
  if negb (truthy url) then Ok true
  else
    match ToString url with
    | Ok s => Ok (negb (test TIKTOK_URL_PATTERN s))
    | Throw e => Throw e
    end.

(** [c.redirect(location)]: the framework sets the [Location] header of a
    302 reply.  What it makes of the text (a text with characters above
    U+00FF goes through [encodeURI]) and which texts it refuses (the
    runtime takes no header value with a NUL or a line break, and
    [encodeURI] no lone surrogate) is the library's and the runtime's
    business: the environment tells. *)
Definition redirect (E : Env) (location : string) : Outcome Reply :=
  match location_header E location with
  | Ok value => Ok (Redirect value)
  | Throw e => Throw e
  end.

(** ** Phase timing *)

Record Timing : Type := mkTiming {
  start : Z;
  metadataStart : Z;
  metadataEnd : Z;
  downloadStart : Z;
  downloadEnd : Z;
  transcribeStart : Z;
  transcribeEnd : Z;
  total : Z
}.

Definition initial_timing (now : Z) : Timing := mkTiming now 0 0 0 0 0 0 0.

Definition set_metadataStart (v : Z) (t : Timing) : Timing :=
  mkTiming (start t) v (metadataEnd t) (downloadStart t) (downloadEnd t)
           (transcribeStart t) (transcribeEnd t) (total t).
Definition set_metadataEnd (v : Z) (t : Timing) : Timing :=
  mkTiming (start t) (metadataStart t) v (downloadStart t) (downloadEnd t)
           (transcribeStart t) (transcribeEnd t) (total t).
Definition set_downloadStart (v : Z) (t : Timing) : Timing :=
  mkTiming (start t) (metadataStart t) (metadataEnd t) v (downloadEnd t)
           (transcribeStart t) (transcribeEnd t) (total t).
Definition set_downloadEnd (v : Z) (t : Timing) : Timing :=
  mkTiming (start t) (metadataStart t) (metadataEnd t) (downloadStart t) v
           (transcribeStart t) (transcribeEnd t) (total t).
Definition set_transcribeStart (v : Z) (t : Timing) : Timing :=
  mkTiming (start t) (metadataStart t) (metadataEnd t) (downloadStart t)
           (downloadEnd t) v (transcribeEnd t) (total t).
Definition set_transcribeEnd (v : Z) (t : Timing) : Timing :=
  mkTiming (start t) (metadataStart t) (metadataEnd t) (downloadStart t)
           (downloadEnd t) (transcribeStart t) v (total t).
Definition set_total (v : Z) (t : Timing) : Timing :=
  mkTiming (start t) (metadataStart t) (metadataEnd t) (downloadStart t)
           (downloadEnd t) (transcribeStart t) (transcribeEnd t) v.

(** The [timing] object is local to one request and is written inside the
    [try] block and read in the [catch] block: it is a second component of
    the state while the handler runs. *)
Definition io {A} (m : M World A) : M (Timing * World) A :=
  fun s => match m (snd s) with
           | (r, w') => (r, (fst s, w'))
           end.

Definition update (f : Timing -> Timing) : M (Timing * World) unit :=
  fun s => (Ok tt, (f (fst s), snd s)).

Definition read_timing : M (Timing * World) Timing :=
  fun s => (Ok (fst s), s).

Definition with_timing {A} (t0 : Timing) (m : M (Timing * World) A) : M World A :=
  fun w => match m (t0, w) with
           | (r, s') => (r, snd s')
           end.

(** ** The [/caption] handler

    The two variants of [app.post('/caption', ...)] are the same text up to
    the members they read of the metadata record; the handler is written
    once over those. *)

Section Caption.

Variable E : Env.

(** The variant: its metadata type, [getVideoInfo], [downloadMedia], the
    members named in the first log line, and the [metadata] literal of
    the response. *)
Variable Md : Type.
Variable getVideoInfo : string -> M World Md.
Variable downloadMedia : string -> bool -> M World Media.
Variable md_title : Md -> string.
Variable md_author : Md -> string.
Variable md_duration : Md -> float.
Variable response_metadata : Md -> string -> Z -> bool -> ResponseMetadata.

(** The [debug] member of a successful response. *)
Definition debug_block (timing : Timing) (metadataTime downloadTime transcribeTime : Z)
    (length : Z) (duration : float) (audioOnly : bool) : Outcome DebugBlock :=
  match
    toFixed E (float_of_Z length / (float_of_Z downloadTime / 1000) / 1024 / 1024)%float 2,
    toFixed E (duration / (float_of_Z transcribeTime / 1000))%float 2,
    toFixed E (float_of_Z metadataTime / float_of_Z (total timing) * 100)%float 1,
    toFixed E (float_of_Z downloadTime / float_of_Z (total timing) * 100)%float 1,
    toFixed E (float_of_Z transcribeTime / float_of_Z (total timing) * 100)%float 1
  with
  | Ok speed, Ok realtime, Ok pm, Ok pd, Ok pt =>
      Ok {| timing := {| dt_total := pretty (total timing) +:+ "ms";
                         dt_metadata := pretty metadataTime +:+ "ms";
                         dt_download := pretty downloadTime +:+ "ms";
                         dt_transcription := pretty transcribeTime +:+ "ms" |};
            performance := {| downloadSpeed := speed +:+ " MB/s";
                              transcriptionSpeed := realtime +:+ "x realtime";
                              efficiency := if audioOnly then "audio-only (optimized)"
                                            else "full-video" |};
            breakdown := {| metadataFetch := pm +:+ "%";
                            mediaDownload := pd +:+ "%";
                            bd_transcription := pt +:+ "%" |} |}
  | Throw e, _, _, _, _ => Throw e
  | _, Throw e, _, _, _ => Throw e
  | _, _, Throw e, _, _ => Throw e
  | _, _, _, Throw e, _ => Throw e
  | _, _, _, _, Throw e => Throw e
  end.

(** The [try] block, steps 1 and 2 of the source: metadata, then media. *)
Definition caption_acquire (url : string) (audioOnly : bool)
  : M (Timing * World) (Md * Media) :=
  (* 1. metadata *)
  let* t1 := io (Date_now E) in
  update (set_metadataStart t1) ;;
  let* metadata := io (getVideoInfo url) in
  let* t2 := io (Date_now E) in
  update (set_metadataEnd t2) ;;
  io (console_log ("Got metadata for " +:+ url +:+ ": " +:+ md_title metadata
                   +:+ " by " +:+ md_author metadata)) ;;
  (* 2. media *)
  let* t3 := io (Date_now E) in
  update (set_downloadStart t3) ;;
  let* media := io (downloadMedia url audioOnly) in
  let* t4 := io (Date_now E) in
  update (set_downloadEnd t4) ;;
  io (console_log ((if cached media then "Retrieved from cache" else "Downloaded")
                   +:+ " " +:+ (if audioOnly then "audio" else "video")
                   +:+ " for " +:+ url +:+ ", size: "
                   +:+ pretty (Z.of_nat (length (buffer media))) +:+ " bytes")) ;;
  ret (metadata, media).

(** The [try] block, steps 3 to 5: the upload, the worker, the response. *)
Definition caption_transcribe (url : string) (audioOnly debug : bool)
    (metadata : Md) (media : Media) : M (Timing * World) Reply :=
  (* 3. the upload *)
  let file := {| file_bytes := buffer media;
                 file_name := filename media;
                 file_type := contentType media |} in
  (* 4. the worker *)
  let* t5 := io (Date_now E) in
  update (set_transcribeStart t5) ;;
  let* whisperResponse := io (fetch_post E (WHISPER_API_URL E) file 120000) in
  if negb (ok whisperResponse) then
    let errorBody := text whisperResponse in
    io (console_error ("Whisper API Error: " +:+ errorBody)) ;;
    ret (JsonError 500 {| error := "Transcription service failed.";
                          details := Some errorBody;
                          error_debug := None |})
  else
    let* result := settle (json whisperResponse) in
    let* t6 := io (Date_now E) in
    update (set_transcribeEnd t6) ;;
    update (fun t => set_total (transcribeEnd t - start t) t) ;;
    let* timing := read_timing in
    let metadataTime := metadataEnd timing - metadataStart timing in
    let downloadTime := downloadEnd timing - downloadStart timing in
    let transcribeTime := transcribeEnd timing - transcribeStart timing in
    (* 5. the response *)
    let* dbg :=
      (if debug then
         let* block := settle (debug_block timing metadataTime downloadTime transcribeTime
                                 (Z.of_nat (length (buffer media)))
                                 (md_duration metadata) audioOnly) in
         ret (Some block)
       else ret None) in
    ret (JsonCaption
           {| cb_url := url;
              cb_caption := caption result;
              metadata := response_metadata metadata
                            (if audioOnly then "audio-only" else "video")
                            (Z.of_nat (length (buffer media))) (cached media);
              downloadUrl := "/download";
              debug := dbg |}).

(** The body of the [try] block. *)
Definition caption_try (url : string) (audioOnly debug : bool)
  : M (Timing * World) Reply :=
  let* acquired := caption_acquire url audioOnly in
  caption_transcribe url audioOnly debug (fst acquired) (snd acquired).

(** [timing.transcribeStart > 0 ? 'transcription' :
     timing.downloadStart > 0 ? 'download' : 'metadata'] *)
Definition failed_stage (timing : Timing) : string :=
  if transcribeStart timing >? 0 then "transcription"
  else if downloadStart timing >? 0 then "download"
  else "metadata".

(** The body of the [catch (error)] block. *)
Definition caption_catch (debug : bool) (error : thrown) : M (Timing * World) Reply :=
  io (console_error (thrown_to_string error)) ;;
  let* errorTime := io (Date_now E) in
  let* timing := read_timing in
  let partialTiming :=
    {| pt_total := errorTime - start timing;
       pt_metadata := if metadataEnd timing >? 0
                      then metadataEnd timing - metadataStart timing else 0;
       pt_download := if downloadEnd timing >? 0
                      then downloadEnd timing - downloadStart timing else 0;
       pt_transcription := if transcribeStart timing >? 0
                           then errorTime - transcribeStart timing else 0 |} in
  if instanceof_Error error then
    if String.eqb (error_name error) "TimeoutError" then
      ret (JsonError 408
             {| error := "Request timed out. The video might be too long or the transcription service is slow.";
                details := Some "Please try again or use a shorter video.";
                error_debug :=
                  if debug then Some {| ed_timing := partialTiming;
                                        failedAt := failed_stage timing |}
                  else None |})
    else if String.eqb (error_name error) "AbortError" then
      ret (JsonError 408
             {| error := "Request was aborted due to timeout.";
                details := Some "The operation took longer than expected.";
                error_debug :=
                  if debug then Some {| ed_timing := partialTiming;
                                        failedAt := failed_stage timing |}
                  else None |})
    else
      ret (JsonError 500 {| error := "An internal server error occurred.";
                            details := None; error_debug := None |})
  else
    ret (JsonError 500 {| error := "An internal server error occurred.";
                          details := None; error_debug := None |}).

(** What the handler does once the URL has been accepted: the [timing]
    object is created and the [try]/[catch] statement runs. *)
Definition caption_pipeline (url : string) (audioOnly debug : bool) : M World Reply :=
  let* now := Date_now E in
  with_timing (initial_timing now)
    (try_catch (caption_try url audioOnly debug) (caption_catch debug)).

(** [app.post('/caption', async (c) => ...)] *)
Definition caption_handler (c : Request) : M World Reply :=
  let* parsed := settle (req_json c) in
  let* url := destructure_url parsed in
  let audioOnly := query_is_true c "audio_only" in
  let debug := query_is_true c "debug" in
  let* invalid := settle (rejects url) in
  if invalid then ret invalid_url_reply
  else
    (* past the test [url] is used as a string: in template literals and
       as the argument of the functions below, declared on strings *)
    caption_pipeline (text_of url) audioOnly debug.

End Caption.

(** [`${o}`] for an optional string that has passed a truthiness test. *)
Definition the_string (o : option string) : string :=
  match o with
  | Some s => s
  | None => "undefined"
  end.

(** ** Variant 1: the tikwm.com API *)

Module Tikwm.

Section WithEnv.

Variable E : Env.

Definition getVideoInfo (videoUrl : string) : M World TikwmVideoInfo :=
  try_catch
    (let* encoded := settle (encodeURIComponent E videoUrl) in
     let tikwmApiUrl := "https://www.tikwm.com/api/?url=" +:+ encoded +:+ "&hd=1" in
     let* response := fetch E tikwmApiUrl in
     if negb (ok response) then
       throw (new_Error ("tikwm API request failed: " +:+ pretty (status response)
                         +:+ " " +:+ statusText response))
     else
       let* tikwmData := settle (json response) in
       if negb (code tikwmData =? 0) then
         throw (new_Error ("tikwm API error: " +:+ msg tikwmData))
       else ret (data tikwmData))
    (fun error =>
       throw (new_Error ("Failed to get video info from tikwm: "
                         +:+ message_or_unknown error))).

(** [audioOnly ? videoInfo.music
               : videoInfo.hdplay || videoInfo.play || videoInfo.wmplay] *)
Definition choose_url (videoInfo : TikwmVideoInfo) (audioOnly : bool) : option string :=
  if audioOnly then music videoInfo
  else js_or (js_or (hdplay videoInfo) (play videoInfo)) (wmplay videoInfo).

Definition downloadMedia (videoUrl : string) (audioOnly : bool) : M World Media :=
  initCacheDir E ;;
  let cacheKey := getCacheKey E videoUrl in
  let extension := extension_of audioOnly in
  let cachedFile := InCache (cacheKey +:+ "." +:+ extension) in
  let* hit := cache_get E videoUrl audioOnly in
  match hit with
  | Some media => ret media
  | None =>
      try_catch
        (let* videoInfo := getVideoInfo videoUrl in
         let downloadUrl := choose_url videoInfo audioOnly in
         if negb (truthy_str downloadUrl) then
           throw (new_Error "No suitable download URL found")
         else
           let* response := fetch E (the_string downloadUrl) in
           if negb (ok response) then
             throw (new_Error ("Failed to download media: " +:+ pretty (status response)
                               +:+ " " +:+ statusText response))
           else
             let buffer := body response in
             cache_put E cachedFile buffer ;;
             ret {| buffer := buffer;
                    filename := "tiktok_" +:+ cacheKey +:+ "." +:+ extension;
                    contentType := contentType_of audioOnly;
                    cached := false |})
        (fun error =>
           throw (new_Error ("Failed to download media: " +:+ message_or_unknown error)))
  end.

(** [app.post('/download', async (c) => ...)] *)
Definition download (c : Request) : M World Reply :=
  let* parsed := settle (req_json c) in
  let* url := destructure_url parsed in
  let hq := query_is_true c "hq" in
  let* invalid := settle (rejects url) in
  if invalid then ret invalid_url_reply
  else
    try_catch
      (let* info := getVideoInfo (text_of url) in
       let downloadUrl := js_or (js_or (hdplay info) (play info)) (wmplay info) in
       let downloadUrl := if hq && truthy_str (hdplay info) then hdplay info
                          else downloadUrl in
       if negb (truthy_str downloadUrl) then
         throw (new_Error "No download URL available")
       else settle (redirect E (the_string downloadUrl)))
      (fun error =>
         console_error ("Download error: " +:+ thrown_to_string error) ;;
         ret (JsonError 500 {| error := "Failed to get download URL";
                               details := Some (message_or_unknown error);
                               error_debug := None |})).

Definition response_metadata (metadata : TikwmVideoInfo) (processing : string)
    (size : Z) (was_cached : bool) : ResponseMetadata :=
  {| title := tk_title metadata;
     author := nickname (tk_author metadata);
     authorId := Some (unique_id (tk_author metadata));
     duration := tk_duration metadata;
     processingType := processing;
     fileSize := size;
     md_thumbnail := cover metadata;
     originCover := Some (origin_cover metadata);
     md_description := None;
     md_cached := was_cached |}.

(** [app.post('/caption', async (c) => ...)] *)
Definition caption (c : Request) : M World Reply :=
  caption_handler E TikwmVideoInfo getVideoInfo downloadMedia
    tk_title (fun m => nickname (tk_author m)) tk_duration response_metadata c.

End WithEnv.

End Tikwm.

(** ** Variant 2: the yt-dlp tool ([api/src/index.ts]) *)

Module YtDlp.

Section WithEnv.

Variable E : Env.

Definition getVideoInfo (videoUrl : string) : M World YtDlpInfo :=
  let* run := spawn E "yt-dlp" ["--dump-json"; "--no-download"; videoUrl] in
  match run with
  | Closed exit_code output errorOutput _ =>
      if exit_code =? 0 then
        match parse_info E output with
        | Some info => ret info
        | None => throw (new_Error "Failed to parse yt-dlp output")
        end
      else throw (new_Error ("yt-dlp failed: " +:+ errorOutput))
  | SpawnError message =>
      throw (new_Error ("Failed to spawn yt-dlp: " +:+ message))
  end.

Definition download_args (outputTemplate : string) (audioOnly : bool)
    (videoUrl : string) : list string :=
  ["--no-playlist"; "-o"; outputTemplate]
  ++ (if audioOnly
      then ["--extract-audio"; "--audio-format"; "mp3"; "--audio-quality"; "128K"]
      else ["--format"; "best[ext=mp4]/best"; "--merge-output-format"; "mp4"])
  ++ [videoUrl].

Definition downloadMedia (videoUrl : string) (audioOnly : bool) : M World Media :=
  initCacheDir E ;;
  let cacheKey := getCacheKey E videoUrl in
  let extension := extension_of audioOnly in
  let cachedFile := InCache (cacheKey +:+ "." +:+ extension) in
  let* hit := cache_get E videoUrl audioOnly in
  match hit with
  | Some media => ret media
  | None =>
      let tempDir := "/tmp" in
      let* timestamp := Date_now E in
      let outputTemplate :=
        path_join tempDir ("tiktok_" +:+ pretty timestamp +:+ ".%(ext)s") in
      let* run := spawn E "yt-dlp" (download_args outputTemplate audioOnly videoUrl) in
      match run with
      | Closed exit_code _ errorOutput _ =>
          if exit_code =? 0 then
            try_catch
              (let expectedFile :=
                 InTmp ("tiktok_" +:+ pretty timestamp +:+ "." +:+ extension) in
               let* buffer := readFile E expectedFile in
               cache_put E cachedFile buffer ;;
               try_catch (unlink E expectedFile) (fun _ => ret tt) ;;
               ret {| buffer := buffer;
                      filename := "tiktok_" +:+ cacheKey +:+ "." +:+ extension;
                      contentType := contentType_of audioOnly;
                      cached := false |})
              (fun error =>
                 throw (new_Error ("Failed to read downloaded file: "
                                   +:+ thrown_to_string error)))
          else throw (new_Error ("yt-dlp download failed: " +:+ errorOutput))
      | SpawnError message =>
          throw (new_Error ("Failed to spawn yt-dlp: " +:+ message))
      end
  end.

(** [app.post('/download', async (c) => ...)]; [hq] is read and not used. *)
Definition download (c : Request) : M World Reply :=
  let* parsed := settle (req_json c) in
  let* url := destructure_url parsed in
  let hq := query_is_true c "hq" in
  let* invalid := settle (rejects url) in
  if invalid then ret invalid_url_reply
  else
    try_catch
      (let* info := getVideoInfo (text_of url) in
       settle (redirect E (yt_url info)))
      (fun error =>
         console_error ("Download error: " +:+ thrown_to_string error) ;;
         ret (JsonError 500 {| error := "Failed to get download URL";
                               details := Some (message_or_unknown error);
                               error_debug := None |})).

Definition response_metadata (metadata : YtDlpInfo) (processing : string)
    (size : Z) (was_cached : bool) : ResponseMetadata :=
  {| title := yt_title metadata;
     author := uploader metadata;
     authorId := None;
     duration := yt_duration metadata;
     processingType := processing;
     fileSize := size;
     md_thumbnail := thumbnail metadata;
     originCover := None;
     md_description := description metadata;
     md_cached := was_cached |}.

(** [app.post('/caption', async (c) => ...)] *)
Definition caption (c : Request) : M World Reply :=
  caption_handler E YtDlpInfo getVideoInfo downloadMedia
    yt_title uploader yt_duration response_metadata c.

End WithEnv.

End YtDlp.

(** The two variants and the two mutating endpoints, as one table. *)
Inductive Variant : Type := TikwmApi | YtDlpTool.
Inductive Endpoint : Type := PostCaption | PostDownload.

Definition handler (E : Env) (v : Variant) (p : Endpoint) : Request -> M World Reply :=
  match v, p with
  | TikwmApi, PostCaption => Tikwm.caption E
  | TikwmApi, PostDownload => Tikwm.download E
  | YtDlpTool, PostCaption => YtDlp.caption E
  | YtDlpTool, PostDownload => YtDlp.download E
  end.

Definition downloadMedia (E : Env) (v : Variant) : string -> bool -> M World Media :=
  match v with
  | TikwmApi => Tikwm.downloadMedia E
  | YtDlpTool => YtDlp.downloadMedia E
  end.

(** Hono's default error handler: an exception that leaves a handler is
    logged and answered with the plain text ['Internal Server Error'] and
    status 500. *)
Inductive HttpAnswer : Type :=
| Answered (r : Reply)
| InternalServerError.

Definition answer_status (a : HttpAnswer) : Z :=
  match a with
  | Answered r => reply_status r
  | InternalServerError => 500
  end.

Definition app_fetch (E : Env) (v : Variant) (p : Endpoint) (c : Request)
  : World -> HttpAnswer * World :=
  fun w => match handler E v p c w with
           | (Ok r, w') => (Answered r, w')
           | (Throw e, w') => (InternalServerError,
                               record_line LogError (thrown_to_string e) w')
           end.

(** ** A sample deployment, for running the model *)

Definition set_fs_fault (f : FsOp -> Path -> option thrown) (E : Env) : Env :=
  mkEnv (cwd E) (env_WHISPER_API_URL E) (sha256_hex E) (clock E) f (http_get E)
        (whisper E) (yt_dlp E) (parse_info E) (number_to_string E)
        (uri_error_message E) (location_header E).

Definition set_http_get (f : string -> FetchResult TikwmResponse) (E : Env) : Env :=
  mkEnv (cwd E) (env_WHISPER_API_URL E) (sha256_hex E) (clock E) (fs_fault E) f
        (whisper E) (yt_dlp E) (parse_info E) (number_to_string E)
        (uri_error_message E) (location_header E).

Definition set_whisper (f : string -> FormFile -> WorkerBehaviour) (E : Env) : Env :=
  mkEnv (cwd E) (env_WHISPER_API_URL E) (sha256_hex E) (clock E) (fs_fault E)
        (http_get E) f (yt_dlp E) (parse_info E) (number_to_string E)
        (uri_error_message E) (location_header E).

Definition set_clock (f : nat -> Z) (E : Env) : Env :=
  mkEnv (cwd E) (env_WHISPER_API_URL E) (sha256_hex E) f (fs_fault E)
        (http_get E) (whisper E) (yt_dlp E) (parse_info E) (number_to_string E)
        (uri_error_message E) (location_header E).

(** The same environment, except that writing a file fails as [f] says. *)
Definition with_write_fault (f : Path -> option thrown) (E : Env) : Env :=
  set_fs_fault (fun op p => match op with
                            | OpWriteFile => f p
                            | _ => fs_fault E op p
                            end) E.

(** A stand-in for the digest: the text itself, byte by byte in
    hexadecimal.  The properties below hold for every digest function. *)
Fixpoint hex_of_string (s : string) : string :=
  match s with
  | EmptyString => EmptyString
  | String a rest =>
      let n := nat_of_ascii a in
      String (hex_digit (n / 16)%nat) (String (hex_digit (n mod 16)%nat) (hex_of_string rest))
  end.

Definition sample_url : string := "https://www.tiktok.com/@user/video/123".

Definition sample_bytes : list byte := [x49; x44; x33; x04; x00].

Definition sample_info : TikwmVideoInfo :=
  {| tk_id := "123";
     tk_title := "A clip";
     tk_author := {| unique_id := "user"; nickname := "User" |};
     tk_duration := 30;
     play := Some "https://cdn.example/play.mp4";
     music := Some "https://cdn.example/music.mp3";
     cover := "https://cdn.example/cover.jpg";
     origin_cover := "https://cdn.example/origin.jpg";
     size := 1000;
     wm_size := 1100;
     hd_size := 2000;
     wmplay := Some "https://cdn.example/wm.mp4";
     hdplay := Some "https://cdn.example/hd.mp4" |}.

Definition sample_http (url : string) : FetchResult TikwmResponse :=
  if String.prefix "https://www.tikwm.com/api/?url=" url then
    Responded {| status := 200; statusText := "OK"; body := [];
                 json := Ok {| code := 0; msg := "success"; processed_time := 0.5;
                               data := sample_info |} |}
  else if String.prefix "https://cdn.example/" url then
    Responded {| status := 200; statusText := "OK"; body := sample_bytes;
                 json := Throw (ErrorObj "SyntaxError" "Unexpected token") |}
  else Rejected (ErrorObj "TypeError" "fetch failed").

Definition sample_whisper (url : string) (file : FormFile) : WorkerBehaviour :=
  RespondsAfter 2500
    {| status := 200; statusText := "OK"; body := [];
       json := Ok {| caption := "hello world" |} |}.

Definition sample_yt_info : YtDlpInfo :=
  {| yt_id := "123";
     yt_title := "A clip";
     uploader := "User";
     yt_duration := 30;
     yt_url := "https://cdn.example/direct.mp4";
     ext := "mp4";
     filesize := Some 1000;
     thumbnail := "https://cdn.example/cover.jpg";
     description := Some "A description" |}.

(** What yt-dlp makes of an output template: [%(ext)s] becomes [ext]. *)
Fixpoint fill_template (template ext : string) : string :=
  match template with
  | EmptyString => EmptyString
  | String a rest =>
      if String.eqb template "%(ext)s" then ext
      else String a (fill_template rest ext)
  end.

Definition sample_yt_dlp (args : list string) : ProcResult :=
  match args with
  | "--dump-json" :: _ => Closed 0 "{ }" "" []
  | "--no-playlist" :: "-o" :: template :: "--extract-audio" :: _ =>
      match strip "/tmp/" template with
      | Some name => Closed 0 "" "" [(fill_template name "mp3", sample_bytes)]
      | None => Closed 1 "" "bad template" []
      end
  | "--no-playlist" :: "-o" :: template :: _ =>
      match strip "/tmp/" template with
      | Some name => Closed 0 "" "" [(fill_template name "mp4", sample_bytes)]
      | None => Closed 1 "" "bad template" []
      end
  | _ => Closed 2 "" "usage" []
  end.

(** [c.redirect] on the sample deployment: a target with a NUL or a line
    break is no header value, any other is sent as it is. *)
Definition sample_location (location : string) : Outcome string :=
  if existsb (fun a => existsb (Ascii.eqb a) ["000"%char; "010"%char; "013"%char])
       (list_ascii_of_string location)
  then Throw (ErrorObj "TypeError" "Header 'Location' has invalid value")
  else Ok location.

Definition sample_env : Env :=
  {| cwd := "/app";
     env_WHISPER_API_URL := None;
     sha256_hex := hex_of_string;
     clock := fun n => 1700000000000 + 40 * Z.of_nat n;
     fs_fault := fun _ _ => None;
     http_get := sample_http;
     whisper := sample_whisper;
     yt_dlp := sample_yt_dlp;
     parse_info := fun _ => Some sample_yt_info;
     number_to_string := fun _ => "";
     uri_error_message := "URI malformed";
     location_header := sample_location |}.

Definition empty_world : World :=
  {| cache_dir := false; cache := ∅; tmp := ∅; ticks := 0; calls := []; console := [] |}.

Definition request_for (url : jsval) (query : list (string * string)) : Request :=
  {| req_json := Ok (JObj [("url", url)]); req_query := query |}.

(** Variations of the sample deployment. *)

(** No file can be written: every [writeFile] fails. *)
Definition read_only_env : Env :=
  with_write_fault
    (fun _ => Some (new_Error "EROFS: read-only file system, open")) sample_env.

(** Files exist but cannot be read: every [readFile] fails. *)
Definition unreadable_env : Env :=
  set_fs_fault
    (fun op _ => match op with
                 | OpReadFile => Some (new_Error "EACCES: permission denied, open")
                 | _ => None
                 end) sample_env.

(** The extraction API answers with an error code. *)
Definition failing_provider_env : Env :=
  set_http_get
    (fun _ => Responded {| status := 200; statusText := "OK"; body := [];
                           json := Ok {| code := -1; msg := "Url parsing is failed!";
                                         processed_time := 0.5;
                                         data := sample_info |} |}) sample_env.

(** The extraction API knows no media URL for the clip. *)
Definition bare_info : TikwmVideoInfo :=
  {| tk_id := "123";
     tk_title := "A clip";
     tk_author := {| unique_id := "user"; nickname := "User" |};
     tk_duration := 30;
     play := Some "";
     music := None;
     cover := "https://cdn.example/cover.jpg";
     origin_cover := "https://cdn.example/origin.jpg";
     size := 0;
     wm_size := 0;
     hd_size := 0;
     wmplay := None;
     hdplay := None |}.

Definition bare_provider_env : Env :=
  set_http_get
    (fun _ => Responded {| status := 200; statusText := "OK"; body := [];
                           json := Ok {| code := 0; msg := "success";
                                         processed_time := 0.5;
                                         data := bare_info |} |}) sample_env.

(** The worker never answers. *)
Definition silent_worker_env : Env :=
  set_whisper (fun _ _ => NeverResponds) sample_env.

(** The worker answers at once with a server error. *)
Definition failing_worker_env : Env :=
  set_whisper
    (fun _ _ => RespondsAfter 300
                  {| status := 503; statusText := "Service Unavailable";
                     body := [x62; x75; x73; x79];
                     json := Throw (ErrorObj "SyntaxError" "Unexpected token") |})
    sample_env.

(** The clock stands still: every duration is zero. *)
Definition frozen_clock_env : Env :=
  set_clock (fun _ => 1700000000000) sample_env.

(** A world whose cache already holds the audio of the sample URL. *)
Definition stocked_world : World :=
  {| cache_dir := true;
     cache := {[ hex_of_string sample_url +:+ ".mp3" := sample_bytes ]};
     tmp := ∅; ticks := 0; calls := []; console := [] |}.

Definition debug_request : Request :=
  request_for (JStr sample_url) [("audio_only", "true"); ("debug", "true")].

Definition unparsable_request : Request :=
  {| req_json := Throw (ErrorObj "SyntaxError" "JSON Parse error: Unexpected identifier");
     req_query := [("debug", "true")] |}.

Definition set_yt_dlp (f : list string -> ProcResult) (E : Env) : Env :=
  mkEnv (cwd E) (env_WHISPER_API_URL E) (sha256_hex E) (clock E) (fs_fault E)
        (http_get E) (whisper E) f (parse_info E) (number_to_string E)
        (uri_error_message E) (location_header E).

(** The tool refuses the URL. *)
Definition failing_tool_env : Env :=
  set_yt_dlp (fun _ => Closed 1 "" "ERROR: Unsupported URL" []) sample_env.

(** The tool ends well but leaves a file of another type than expected. *)
Definition other_container_env : Env :=
  set_yt_dlp
    (fun args => match args with
                 | "--dump-json" :: _ => Closed 0 "{ }" "" []
                 | _ => Closed 0 "" "" [("tiktok_1700000000000.webm", sample_bytes)]
                 end) sample_env.

(** The cache directory cannot be made. *)
Definition no_cache_dir_env : Env :=
  set_fs_fault
    (fun op p => match op, p with
                 | OpMkdir, CacheDirPath =>
                     Some (new_Error "EACCES: permission denied, mkdir '/app/cache'")
                 | _, _ => None
                 end) sample_env.

(** The worker cannot be reached. *)
Definition unreachable_worker_env : Env :=
  set_whisper (fun _ _ => Unreachable (ErrorObj "TypeError" "fetch failed")) sample_env.

(** A body that is [null], and a body whose [url] is an object with a
    member named [toString]. *)
(** The API offers a media URL with a line feed in it. *)
Definition split_header_info : TikwmVideoInfo :=
  {| tk_id := "123";
     tk_title := "A clip";
     tk_author := {| unique_id := "user"; nickname := "User" |};
     tk_duration := 30;
     play := Some "https://cdn.example/play.mp4";
     music := Some "https://cdn.example/music.mp3";
     cover := "https://cdn.example/cover.jpg";
     origin_cover := "https://cdn.example/origin.jpg";
     size := 0;
     wm_size := 0;
     hd_size := 0;
     wmplay := None;
     hdplay := Some ("https://cdn.example/hd.mp4" +:+ String "010" "X-Injected: 1") |}.

Definition split_header_env : Env :=
  set_http_get
    (fun _ => Responded {| status := 200; statusText := "OK"; body := [];
                           json := Ok {| code := 0; msg := "success";
                                         processed_time := 0.5;
                                         data := split_header_info |} |}) sample_env.


Definition object_url_request : Request :=
  request_for (JObj [("toString", JNum 0)]) [].

(** A clip URL with a lone surrogate after the accepted head. *)
Definition lone_surrogate_url : string :=
  "https://www.tiktok.com/" +:+ String "237" (String "160" (String "128" "")).

(** The sample request without [debug]. *)
Definition plain_request : Request :=
  request_for (JStr sample_url) [("audio_only", "true")].

(** * Vocabulary of the properties *)

(** ** The accepted URLs, stated without the matcher *)

(** The language of a regular expression. *)
Inductive lang : regex -> string -> Prop :=
| lang_Lit p : lang (Lit p) p
| lang_Seq r1 r2 a b : lang r1 a -> lang r2 b -> lang (Seq r1 r2) (a +:+ b)
| lang_Alt_l r1 r2 a : lang r1 a -> lang (Alt r1 r2) a
| lang_Alt_r r1 r2 a : lang r2 a -> lang (Alt r1 r2) a
| lang_Opt_some r a : lang r a -> lang (Opt r) a
| lang_Opt_none r : lang (Opt r) "".

(** The accepted URL heads, spelled out: a scheme, an optional [www.],
    and one of the two hosts. *)
Definition accepted_heads : list string :=
  [ "http://tiktok.com"; "http://vm.tiktok.com";
    "http://www.tiktok.com"; "http://www.vm.tiktok.com";
    "https://tiktok.com"; "https://vm.tiktok.com";
    "https://www.tiktok.com"; "https://www.vm.tiktok.com" ].

(** A URL matches the accepted host pattern when it starts with one of
    the accepted heads. *)
Definition accepted_url (s : string) : Prop :=
  exists head rest, In head accepted_heads /\ s = head +:+ rest.

(** ** Predicates on computations *)

(** [R] is a preorder on states; a computation is monotone when it ends
    in a state related to the one it started from. *)
Definition monotone {S A} (R : S -> S -> Prop) (m : M S A) : Prop :=
  forall s, R s (snd (m s)).

(** Every value [m] returns satisfies [Q]. *)
Definition returns {S A} (Q : A -> Prop) (m : M S A) : Prop :=
  forall s, match fst (m s) with Ok a => Q a | Throw _ => True end.

(** [m] never throws. *)
Definition never_throws {S A} (m : M S A) : Prop :=
  forall s, exists a, fst (m s) = Ok a.

(** [tr] reads the trace of outbound calls off a state: [calls] for a
    plain world, and [calls] of the second component while the timing
    object is carried.  [s'] prolongs [s] when its trace extends that of
    [s]. *)
Definition prolongs {S} (tr : S -> list Call) (s s' : S) : Prop :=
  exists l, tr s' = tr s ++ l.

(** [m] makes no outbound call. *)
Definition silent {S A} (tr : S -> list Call) (m : M S A) : Prop :=
  forall s, tr (snd (m s)) = tr s.

(** The first outbound call of [m] is [c], whatever happens next. *)
Definition begins_with {S A} (tr : S -> list Call) (c : Call) (m : M S A) : Prop :=
  forall s, exists rest, tr (snd (m s)) = tr s ++ c :: rest.

Definition extends : World -> World -> Prop := prolongs calls.
Definition extends_t : Timing * World -> Timing * World -> Prop :=
  prolongs (fun s => calls (snd s)).

Abbreviation grows := (monotone extends).
Abbreviation grows_t := (monotone extends_t).

(** Two worlds with the same cache directory and the same cached files. *)
Definition same_cache (w w' : World) : Prop :=
  cache_dir w' = cache_dir w /\ cache w' = cache w.

Abbreviation keeps_cache := (monotone same_cache).

(** ** Stages, replies and failures *)

(** The provider call a request makes first once its URL is accepted (for
    the API, a URL that [encodeURIComponent] takes). *)
Definition provider_call (v : Variant) (url : string) : Call :=
  match v with
  | TikwmApi =>
      Fetch ("https://www.tikwm.com/api/?url=" +:+ percent_encode url +:+ "&hd=1")
  | YtDlpTool => Spawn "yt-dlp" ["--dump-json"; "--no-download"; url]
  end.

(** The provider is asked about the clip: the tool whatever the URL, the
    API when the URL can be encoded into the query. *)
Definition provider_is_asked (v : Variant) (url : string) : Prop :=
  match v with
  | TikwmApi => isWellFormed url = true
  | YtDlpTool => True
  end.

(** A reply other than the 400 of the validation gate. *)
Definition past_validation (r : Reply) : Prop := reply_status r <> 400.

(** The upload built from the downloaded media. *)
Definition upload_of (media : Media) : FormFile :=
  {| file_bytes := buffer media;
     file_name := filename media;
     file_type := contentType media |}.

(** The worker leaves the call unanswered past the 120-second bound. *)
Definition worker_too_slow (E : Env) (file : FormFile) : Prop :=
  whisper E (WHISPER_API_URL E) file = NeverResponds
  \/ exists ms r, whisper E (WHISPER_API_URL E) file = RespondsAfter ms r /\ 120000 < ms.

Definition timeout_body (dbg : option ErrorDebug) : ErrorBody :=
  {| error := "Request timed out. The video might be too long or the transcription service is slow.";
     details := Some "Please try again or use a shorter video.";
     error_debug := dbg |}.

Definition worker_failed_body (r : HttpResponse WhisperResult) : ErrorBody :=
  {| error := "Transcription service failed.";
     details := Some (text r);
     error_debug := None |}.

Definition internal_error_body : ErrorBody :=
  {| error := "An internal server error occurred.";
     details := None; error_debug := None |}.

(** [partialTiming] as the [catch] block computes it. *)
Definition partial_timing (timing : Timing) (errorTime : Z) : PartialTiming :=
  {| pt_total := errorTime - start timing;
     pt_metadata := if metadataEnd timing >? 0
                    then metadataEnd timing - metadataStart timing else 0;
     pt_download := if downloadEnd timing >? 0
                    then downloadEnd timing - downloadStart timing else 0;
     pt_transcription := if transcribeStart timing >? 0
                         then errorTime - transcribeStart timing else 0 |}.

(** The state in which the [try] block is entered. *)
Definition entry_state (E : Env) (w : World) : Timing * World :=
  (initial_timing (clock E (ticks w)), next_tick w).

(** The state in which the worker is called, and the one it leaves. *)
Definition dispatch_state (E : Env) (media : Media) (s1 : Timing * World) : Timing * World :=
  (set_transcribeStart (clock E (ticks (snd s1))) (fst s1),
   record_call (FetchPost (WHISPER_API_URL E) (upload_of media)) (next_tick (snd s1))).

(** Steps 1 and 2 of the [try] block of either variant, keeping the media
    they produce. *)
Definition acquire (E : Env) (v : Variant) (url : string) (audioOnly : bool)
  : M (Timing * World) Media :=
  match v with
  | TikwmApi =>
      let* a := caption_acquire E TikwmVideoInfo (Tikwm.getVideoInfo E)
                  (Tikwm.downloadMedia E) tk_title (fun m => nickname (tk_author m))
                  url audioOnly in
      ret (snd a)
  | YtDlpTool =>
      let* a := caption_acquire E YtDlpInfo (YtDlp.getVideoInfo E)
                  (YtDlp.downloadMedia E) yt_title uploader url audioOnly in
      ret (snd a)
  end.

(** The timing object when the worker has answered: [transcribeStart],
    [transcribeEnd] and [total] are filled from the next two clock
    readings. *)
Definition success_timing (E : Env) (s1 : Timing * World) : Timing :=
  set_total (clock E (S (ticks (snd s1))) - start (fst s1))
    (set_transcribeEnd (clock E (S (ticks (snd s1))))
       (set_transcribeStart (clock E (ticks (snd s1))) (fst s1))).

(** The [debug] member, for digit counts that [toFixed] accepts. *)
Definition debug_value (E : Env) (timing : Timing)
    (metadataTime downloadTime transcribeTime length : Z)
    (duration : float) (audioOnly : bool) : DebugBlock :=
  {| timing := {| dt_total := pretty (total timing) +:+ "ms";
                  dt_metadata := pretty metadataTime +:+ "ms";
                  dt_download := pretty downloadTime +:+ "ms";
                  dt_transcription := pretty transcribeTime +:+ "ms" |};
     performance :=
       {| downloadSpeed :=
            toFixed_text E (float_of_Z length / (float_of_Z downloadTime / 1000)
                            / 1024 / 1024)%float 2 +:+ " MB/s";
          transcriptionSpeed :=
            toFixed_text E (duration / (float_of_Z transcribeTime / 1000))%float 2
            +:+ "x realtime";
          efficiency := if audioOnly then "audio-only (optimized)" else "full-video" |};
     breakdown :=
       {| metadataFetch :=
            toFixed_text E (float_of_Z metadataTime / float_of_Z (total timing) * 100)%float 1
            +:+ "%";
          mediaDownload :=
            toFixed_text E (float_of_Z downloadTime / float_of_Z (total timing) * 100)%float 1
            +:+ "%";
          bd_transcription :=
            toFixed_text E (float_of_Z transcribeTime / float_of_Z (total timing) * 100)%float 1
            +:+ "%" |} |}.

(** A double that is a NaN or an infinity. *)
Definition not_finite (x : float) : Prop :=
  Prim2SF x = S754_nan \/ exists s, Prim2SF x = S754_infinity s.

(** The three texts [toFixed] has for such a double. *)
Definition not_finite_text (s : string) : Prop :=
  s = "NaN" \/ s = "Infinity" \/ s = "-Infinity".

(** The two failures named in the design, as the [Error]s the code throws. *)
Definition NoDownloadUrl : thrown :=
  new_Error "Failed to download media: No suitable download URL found".

Definition DownloadFailed (detail : string) : thrown :=
  new_Error ("Failed to download media: " +:+ detail).

(** ** Statements about the gate, the cache and the error replies *)



(** The claim of C6 as stated, at one request: when the request is
    answered with the debug block, every derived metric shows a number,
    none the text of a NaN or of an infinity. *)
Definition every_metric_shows_a_number (E : Env) (v : Variant) (c : Request)
    (w : World) : Prop :=
  forall body block,
    fst (handler E v PostCaption c w) = Ok (JsonCaption body) ->
    debug body = Some block ->
    forall d, not_finite_text d ->
      downloadSpeed (performance block) <> d +:+ " MB/s"
      /\ transcriptionSpeed (performance block) <> d +:+ "x realtime"
      /\ metadataFetch (breakdown block) <> d +:+ "%"
      /\ mediaDownload (breakdown block) <> d +:+ "%"
      /\ bd_transcription (breakdown block) <> d +:+ "%".

(** The property as the specification states it, at one starting world:
    if a first call returns, a second call with the same arguments returns
    the same bytes, marked as cached, and makes no outbound call. *)
Definition second_call_is_a_hit (E : Env) (v : Variant) (url : string)
    (audioOnly : bool) (w : World) : Prop :=
  match downloadMedia E v url audioOnly w with
  | (Ok first, w1) =>
      match downloadMedia E v url audioOnly w1 with
      | (Ok second, w2) =>
          buffer second = buffer first /\ cached second = true /\ calls w2 = calls w1
      | (Throw _, _) => False
      end
  | (Throw _, _) => True
  end.

(** No I/O fault is raised on the cache file of this URL and mode. *)
Definition cache_file_is_sound (E : Env) (url : string) (audioOnly : bool) : Prop :=
  forall op, fs_fault E op (cachedFile_of E url audioOnly) = None.

(** The claim of C7 as stated, at one starting world: the look-up reports
    a miss exactly when the file does not exist, and an I/O error on an
    existing file makes [downloadMedia] fail instead. *)
Definition cache_read_errors_surface (E : Env) (v : Variant) (url : string)
    (audioOnly : bool) (w : World) : Prop :=
  (fst (cache_get E url audioOnly w) = Ok None
   <-> cache w !! (getCacheKey E url +:+ "." +:+ extension_of audioOnly) = None)
  /\ (forall e,
        fs_fault E OpReadFile (cachedFile_of E url audioOnly) = Some e ->
        cache w !! (getCacheKey E url +:+ "." +:+ extension_of audioOnly) <> None ->
        exists e', fst (downloadMedia E v url audioOnly w) = Throw e').




(** ** Vocabulary of the further properties *)

(** Every value [m] throws satisfies [P]. *)
Definition throws_only {S A} (P : thrown -> Prop) (m : M S A) : Prop :=
  forall s, match fst (m s) with Throw e => P e | Ok _ => True end.

(** A relation on worlds, read on the states that carry the timing object. *)
Definition lifted (R : World -> World -> Prop) (s s' : Timing * World) : Prop :=
  R (snd s) (snd s').

(** [w'] has the outbound calls of [w] followed by calls that satisfy [P]. *)
Definition adds (P : Call -> Prop) (w w' : World) : Prop :=
  exists added, calls w' = calls w ++ added /\ Forall P added.

(** The clock has been read at least as often in [w'] as in [w]. *)
Definition later (w w' : World) : Prop := (ticks w <= ticks w')%nat.

(** Two worlds with the same files, clock position and outbound calls:
    they differ in the cache directory and the console at most. *)
Definition same_but_cache_dir_and_console (w w' : World) : Prop :=
  cache w' = cache w /\ tmp w' = tmp w /\ ticks w' = ticks w /\ calls w' = calls w.

(** The URL the tikwm variant asks the extraction API for, for a clip URL
    that [encodeURIComponent] takes. *)
Definition tikwmApiUrl (videoUrl : string) : string :=
  "https://www.tikwm.com/api/?url=" +:+ percent_encode videoUrl +:+ "&hd=1".

(** The message of the [Error] with which [getVideoInfo] rejects, read
    off the provider's behaviour; [None] when the provider delivers, and
    when it is not asked at all (the API, for a URL that
    [encodeURIComponent] does not take). *)
Definition provider_failure (E : Env) (v : Variant) (url : string) : option string :=
  match v with
  | TikwmApi =>
      if isWellFormed url then
        match http_get E (tikwmApiUrl url) with
        | Rejected e =>
            Some ("Failed to get video info from tikwm: " +:+ message_or_unknown e)
        | Responded r =>
            if ok r then
              match json r with
              | Ok d =>
                  if code d =? 0 then None
                  else Some ("Failed to get video info from tikwm: "
                             +:+ ("tikwm API error: " +:+ msg d))
              | Throw e =>
                  Some ("Failed to get video info from tikwm: " +:+ message_or_unknown e)
              end
            else Some ("Failed to get video info from tikwm: "
                       +:+ ("tikwm API request failed: " +:+ pretty (status r)
                            +:+ " " +:+ statusText r))
        end
      else None
  | YtDlpTool =>
      match yt_dlp E ["--dump-json"; "--no-download"; url] with
      | SpawnError message => Some ("Failed to spawn yt-dlp: " +:+ message)
      | Closed exit_code output errorOutput _ =>
          if exit_code =? 0 then
            match parse_info E output with
            | Some _ => None
            | None => Some "Failed to parse yt-dlp output"
            end
          else Some ("yt-dlp failed: " +:+ errorOutput)
      end
  end.

(** The body of the 500 reply of [/download]. *)
Definition download_failed_body (m : string) : ErrorBody :=
  {| error := "Failed to get download URL"; details := Some m; error_debug := None |}.

(** The first candidate that is truthy, if any. *)
Fixpoint first_truthy (candidates : list (option string)) : option string :=
  match candidates with
  | [] => None
  | o :: rest => if truthy_str o then o else first_truthy rest
  end.

(** The name of the cache file of a URL in a mode, within [CACHE_DIR]. *)
Definition cache_name (E : Env) (url : string) (audioOnly : bool) : string :=
  getCacheKey E url +:+ "." +:+ extension_of audioOnly.

(** The upload name and the content type follow from the URL and the mode. *)
Definition named_for (E : Env) (url : string) (audioOnly : bool) (media : Media) : Prop :=
  filename media = "tiktok_" +:+ cache_name E url audioOnly
  /\ contentType media = contentType_of audioOnly.

(** [w'] has every cached file of [w] but possibly the one called [name],
    with the same content, and has a file called [name] if [w] has one. *)
Definition cache_differs_at_most_at (name : string) (w w' : World) : Prop :=
  (forall n, n <> name -> cache w' !! n = cache w !! n)
  /\ (is_Some (cache w !! name) -> is_Some (cache w' !! name)).

(** No cached file of [w] is missing in [w']. *)
Definition cache_kept (w w' : World) : Prop :=
  forall n, is_Some (cache w !! n) -> is_Some (cache w' !! n).

(** The output template and the file the yt-dlp variant expects, for a
    download that starts when the clock has been read [n] times. *)
Definition outputTemplate_at (E : Env) (n : nat) : string :=
  path_join "/tmp" ("tiktok_" +:+ pretty (clock E n) +:+ ".%(ext)s").

Definition expectedFile_at (E : Env) (n : nat) (audioOnly : bool) : string :=
  "tiktok_" +:+ pretty (clock E n) +:+ "." +:+ extension_of audioOnly.

(** How the messages of the errors of [downloadMedia] begin. *)
Definition download_error_prefixes (v : Variant) : list string :=
  match v with
  | TikwmApi => ["Failed to download media: "]
  | YtDlpTool => ["Failed to read downloaded file: "; "yt-dlp download failed: ";
                  "Failed to spawn yt-dlp: "]
  end.

(** An error of [downloadMedia]: the one raised when the cache directory
    cannot be made, passed on as it is, or an [Error] of the variant. *)
Definition download_error (E : Env) (v : Variant) (e : thrown) : Prop :=
  fs_fault E OpMkdir CacheDirPath = Some e
  \/ exists prefix m, In prefix (download_error_prefixes v)
                      /\ e = new_Error (prefix +:+ m).

(** An error that the [catch] block of [/caption] answers with 500: it is
    not named [TimeoutError] or [AbortError]. *)
Definition no_timeout (e : thrown) : Prop :=
  error_name e <> "TimeoutError" /\ error_name e <> "AbortError".

(** The file system raises no error under the names of the timeout
    errors when the cache directory is made. *)
Definition mkdir_does_not_time_out (E : Env) : Prop :=
  forall e, fs_fault E OpMkdir CacheDirPath = Some e -> no_timeout e.

(** The worker fails on an upload in a way that is neither a timeout nor
    a reply with an error status: it cannot be reached, or its reply
    cannot be read as JSON. *)
Definition worker_breaks (E : Env) (file : FormFile) (e : thrown) : Prop :=
  whisper E (WHISPER_API_URL E) file = Unreachable e
  \/ exists ms r, whisper E (WHISPER_API_URL E) file = RespondsAfter ms r
                  /\ ms < 120000 /\ ok r = true /\ json r = Throw e.

(** A clock that never runs backwards. *)
Definition clock_never_runs_backwards (E : Env) : Prop :=
  forall i j, (i <= j)%nat -> clock E i <= clock E j.

(** The statuses each endpoint can answer with. *)
Definition statuses (p : Endpoint) : list Z :=
  match p with
  | PostCaption => [200; 400; 408; 500]
  | PostDownload => [302; 400; 500]
  end.

(** The media URLs the extraction API has on offer for a clip. *)
Definition offered_by_api (E : Env) (url target : string) : Prop :=
  exists r d,
    http_get E (tikwmApiUrl url) = Responded r /\ json r = Ok d
    /\ In (Some target) [music (data d); hdplay (data d); play (data d); wmplay (data d)].

(** The calls a variant makes to its provider for one clip: the tikwm
    variant asks the API and fetches a URL the API has offered; the yt-dlp
    variant runs [yt-dlp] with the clip's URL as last argument. *)
Definition provider_side (E : Env) (v : Variant) (url : string) (c : Call) : Prop :=
  match v, c with
  | TikwmApi, Fetch x => x = tikwmApiUrl url \/ offered_by_api E url x
  | YtDlpTool, Spawn command args => command = "yt-dlp" /\ last args = Some url
  | _, _ => False
  end.

(** A reply with its [debug] member taken out. *)
Definition without_debug (r : Reply) : Reply :=
  match r with
  | JsonError st b =>
      JsonError st {| error := error b; details := details b; error_debug := None |}
  | JsonCaption b =>
      JsonCaption {| cb_url := cb_url b; cb_caption := cb_caption b;
                     metadata := metadata b; downloadUrl := downloadUrl b;
                     debug := None |}
  | Redirect location => Redirect location
  end.

(** Two runs that end in the same state, the second with the outcome of
    the first less its [debug] member. *)
Definition agree_up_to_debug {S} (x y : Outcome Reply * S) : Prop :=
  snd y = snd x
  /\ match fst x with
     | Ok r => fst y = Ok (without_debug r)
     | Throw e => fst y = Throw e
     end.

(** What a returned download leaves for the next call with the same URL
    and mode: the file is in the cache, and any later call that finds it
    there returns the same bytes under the same name, marked as cached,
    without an outbound call. *)
Definition serves_again (E : Env) (download : M World Media) (name : string)
    (media : Media) (w1 : World) : Prop :=
  cache_dir w1 = true
  /\ cache w1 !! name = Some (buffer media)
  /\ forall w2,
       cache_dir w2 = true -> cache w2 !! name = Some (buffer media) ->
       exists media' w3,
         download w2 = (Ok media', w3)
         /\ upload_of media' = upload_of media
         /\ cached media' = true
         /\ calls w3 = calls w2.

(** * Properties *)

(** ** The pattern matcher *)

Lemma string_app_assoc (a b c : string) : (a +:+ b) +:+ c = a +:+ (b +:+ c).
Proof.
  induction a as [|x a IH]; [reflexivity|].
  change (String x ((a +:+ b) +:+ c) = String x (a +:+ (b +:+ c))).
  now rewrite IH.
Qed.

Lemma strip_spec (p s t : string) : strip p s = Some t <-> s = p +:+ t.
Proof.
  revert s; induction p as [|a p IH]; intros s; simpl.
  - change ("" +:+ t) with t. split; [now intros [= ->] | now intros ->].
  - change (String a p +:+ t) with (String a (p +:+ t)).
    destruct s as [|b s].
    + split; discriminate.
    + destruct (Ascii.eqb_spec a b) as [->|Hne].
      * rewrite IH. split; [now intros -> | now intros [= ->]].
      * split; [discriminate | intros [= Hab _]; now elim Hne].
Qed.

Lemma residues_spec (r : regex) : forall s t,
  In t (residues r s) <-> exists a, lang r a /\ s = a +:+ t.
Proof.
  induction r as [p | r1 IH1 r2 IH2 | r1 IH1 r2 IH2 | r IH]; intros s t; simpl.
  - destruct (strip p s) as [u|] eqn:Hs.
    + apply strip_spec in Hs. split.
      * intros [<- | []]. exists p. split; [constructor | exact Hs].
      * intros (a & Ha & Heq).
        assert (a = p) as -> by (inversion Ha; reflexivity).
        left. rewrite Heq in Hs. now apply (inj (String.app p)) in Hs.
    + split; [intros [] |].
      intros (a & Ha & Heq).
      assert (a = p) as -> by (inversion Ha; reflexivity).
      apply strip_spec in Heq. congruence.
  - rewrite in_flat_map. split.
    + intros (u & Hu & Ht). apply IH1 in Hu as (a & Ha & ->).
      apply IH2 in Ht as (b & Hb & ->).
      exists (a +:+ b). split; [now constructor | now rewrite string_app_assoc].
    + intros (ab & Hab & ->). inversion Hab; subst.
      exists (b +:+ t). split.
      * apply IH1. exists a. split; [assumption | now rewrite string_app_assoc].
      * apply IH2. now exists b.
  - rewrite in_app_iff, IH1, IH2. split.
    + intros [(a & Ha & ->) | (a & Ha & ->)]; exists a; split; auto using lang.
    + intros (a & Ha & ->). inversion Ha; subst; [left | right]; now exists a.
  - rewrite in_app_iff, IH. simpl. split.
    + intros [(a & Ha & ->) | [<- | []]].
      * exists a. split; auto using lang.
      * exists "". split; [apply lang_Opt_none | reflexivity].
    + intros (a & Ha & ->). inversion Ha; subst; [left; now exists a | right; now left].
Qed.

(** [test] holds exactly of the strings that begin with a word of the
    pattern's language. *)
Lemma test_spec (r : regex) (s : string) :
  test r s = true <-> exists a t, lang r a /\ s = a +:+ t.
Proof.
  unfold test. destruct (residues r s) as [|t l] eqn:Hres.
  - split; [discriminate |].
    intros (a & t & Ha & Hs).
    assert (In t (residues r s)) as Hin by (apply residues_spec; eauto).
    rewrite Hres in Hin. destruct Hin.
  - split; [intros _ | reflexivity].
    assert (In t (residues r s)) as Hin by (rewrite Hres; now left).
    apply residues_spec in Hin as (a & Ha & Hs). eauto.
Qed.

Lemma lang_pattern (p : string) :
  lang TIKTOK_URL_PATTERN p <-> In p accepted_heads.
Proof.
  unfold TIKTOK_URL_PATTERN, accepted_heads. split.
  - intros H.
    repeat match goal with
           | H : lang (Seq _ _) _ |- _ => inversion H; subst; clear H
           | H : lang (Alt _ _) _ |- _ => inversion H; subst; clear H
           | H : lang (Opt _) _ |- _ => inversion H; subst; clear H
           | H : lang (Lit _) _ |- _ => inversion H; subst; clear H
           end; simpl; tauto.
  - intros H. simpl in H.
    repeat (destruct H as [<- | H]); try contradiction.
    + apply (lang_Seq _ _ "http" "://tiktok.com"); [constructor|].
      apply (lang_Seq _ _ "" "://tiktok.com"); [apply lang_Opt_none|].
      apply (lang_Seq _ _ "://" "tiktok.com"); [constructor|].
      apply (lang_Seq _ _ "" "tiktok.com"); [apply lang_Opt_none|].
      apply lang_Alt_l; constructor.
    + apply (lang_Seq _ _ "http" "://vm.tiktok.com"); [constructor|].
      apply (lang_Seq _ _ "" "://vm.tiktok.com"); [apply lang_Opt_none|].
      apply (lang_Seq _ _ "://" "vm.tiktok.com"); [constructor|].
      apply (lang_Seq _ _ "" "vm.tiktok.com"); [apply lang_Opt_none|].
      apply lang_Alt_r; constructor.
    + apply (lang_Seq _ _ "http" "://www.tiktok.com"); [constructor|].
      apply (lang_Seq _ _ "" "://www.tiktok.com"); [apply lang_Opt_none|].
      apply (lang_Seq _ _ "://" "www.tiktok.com"); [constructor|].
      apply (lang_Seq _ _ "www." "tiktok.com"); [do 2 constructor|].
      apply lang_Alt_l; constructor.
    + apply (lang_Seq _ _ "http" "://www.vm.tiktok.com"); [constructor|].
      apply (lang_Seq _ _ "" "://www.vm.tiktok.com"); [apply lang_Opt_none|].
      apply (lang_Seq _ _ "://" "www.vm.tiktok.com"); [constructor|].
      apply (lang_Seq _ _ "www." "vm.tiktok.com"); [do 2 constructor|].
      apply lang_Alt_r; constructor.
    + apply (lang_Seq _ _ "http" "s://tiktok.com"); [constructor|].
      apply (lang_Seq _ _ "s" "://tiktok.com"); [do 2 constructor|].
      apply (lang_Seq _ _ "://" "tiktok.com"); [constructor|].
      apply (lang_Seq _ _ "" "tiktok.com"); [apply lang_Opt_none|].
      apply lang_Alt_l; constructor.
    + apply (lang_Seq _ _ "http" "s://vm.tiktok.com"); [constructor|].
      apply (lang_Seq _ _ "s" "://vm.tiktok.com"); [do 2 constructor|].
      apply (lang_Seq _ _ "://" "vm.tiktok.com"); [constructor|].
      apply (lang_Seq _ _ "" "vm.tiktok.com"); [apply lang_Opt_none|].
      apply lang_Alt_r; constructor.
    + apply (lang_Seq _ _ "http" "s://www.tiktok.com"); [constructor|].
      apply (lang_Seq _ _ "s" "://www.tiktok.com"); [do 2 constructor|].
      apply (lang_Seq _ _ "://" "www.tiktok.com"); [constructor|].
      apply (lang_Seq _ _ "www." "tiktok.com"); [do 2 constructor|].
      apply lang_Alt_l; constructor.
    + apply (lang_Seq _ _ "http" "s://www.vm.tiktok.com"); [constructor|].
      apply (lang_Seq _ _ "s" "://www.vm.tiktok.com"); [do 2 constructor|].
      apply (lang_Seq _ _ "://" "www.vm.tiktok.com"); [constructor|].
      apply (lang_Seq _ _ "www." "vm.tiktok.com"); [do 2 constructor|].
      apply lang_Alt_r; constructor.
Qed.

Lemma test_accepted (s : string) :
  test TIKTOK_URL_PATTERN s = true <-> accepted_url s.
Proof.
  rewrite test_spec. unfold accepted_url.
  split; intros (a & t & Ha & Hs); exists a, t; split; auto; now apply lang_pattern.
Qed.

(** ** Reasoning about monadic code *)

Lemma bind_ok {S A B} (m : M S A) (k : A -> M S B) s a s' :
  m s = (Ok a, s') -> bind m k s = k a s'.
Proof. unfold bind. now intros ->. Qed.

Lemma bind_throw {S A B} (m : M S A) (k : A -> M S B) s e s' :
  m s = (Throw e, s') -> bind m k s = (Throw e, s').
Proof. unfold bind. now intros ->. Qed.

Lemma try_catch_ok {S A} (m : M S A) (h : thrown -> M S A) s a s' :
  m s = (Ok a, s') -> try_catch m h s = (Ok a, s').
Proof. unfold try_catch. now intros ->. Qed.

Lemma try_catch_throw {S A} (m : M S A) (h : thrown -> M S A) s e s' :
  m s = (Throw e, s') -> try_catch m h s = h e s'.
Proof. unfold try_catch. now intros ->. Qed.

Lemma io_run {A} (m : M World A) t w r w' :
  m w = (r, w') -> io m (t, w) = (r, (t, w')).
Proof. unfold io. simpl. now intros ->. Qed.

(** *** Computations that only move the state forward *)

Section Monotone.

Context {S : Type} (R : S -> S -> Prop).
Hypothesis R_refl : forall s, R s s.
Hypothesis R_trans : forall s1 s2 s3, R s1 s2 -> R s2 s3 -> R s1 s3.

Lemma monotone_ret {A} (a : A) : monotone R (ret a).
Proof. intros s. apply R_refl. Qed.

Lemma monotone_throw {A} (e : thrown) : monotone R (@throw S A e).
Proof. intros s. apply R_refl. Qed.

Lemma monotone_settle {A} (o : Outcome A) : monotone R (settle o).
Proof. intros s. apply R_refl. Qed.

Lemma monotone_bind {A B} (m : M S A) (k : A -> M S B) :
  monotone R m -> (forall a, monotone R (k a)) -> monotone R (bind m k).
Proof.
  intros Hm Hk s. unfold bind. specialize (Hm s).
  destruct (m s) as [[a|e] s']; simpl in *; [|assumption].
  eapply R_trans; [eassumption | apply Hk].
Qed.

Lemma monotone_try_catch {A} (m : M S A) (h : thrown -> M S A) :
  monotone R m -> (forall e, monotone R (h e)) -> monotone R (try_catch m h).
Proof.
  intros Hm Hh s. unfold try_catch. specialize (Hm s).
  destruct (m s) as [[a|e] s']; simpl in *; [assumption|].
  eapply R_trans; [eassumption | apply Hh].
Qed.

End Monotone.

(** *** What a computation can return *)

Section Returns.

Context {S A : Type}.

Lemma returns_ret (Q : A -> Prop) a : Q a -> returns (S := S) Q (ret a).
Proof. intros H s. exact H. Qed.

Lemma returns_throw (Q : A -> Prop) e : returns (S := S) Q (throw e).
Proof. intros s. exact I. Qed.

Lemma returns_try_catch (Q : A -> Prop) (m : M S A) h :
  returns Q m -> (forall e, returns Q (h e)) -> returns Q (try_catch m h).
Proof.
  intros Hm Hh s. unfold try_catch. specialize (Hm s).
  destruct (m s) as [[a|e] s']; simpl in *; [assumption | apply Hh].
Qed.

Lemma never_throws_ret (a : A) : never_throws (S := S) (ret a).
Proof. intros s. now exists a. Qed.

Lemma never_throws_try_catch (m : M S A) h :
  (forall e, never_throws (h e)) -> never_throws (try_catch m h).
Proof.
  intros Hh s. unfold try_catch.
  destruct (m s) as [[a|e] s']; simpl; [now exists a | apply Hh].
Qed.

End Returns.

Lemma returns_bind {S A B} (Q : B -> Prop) (m : M S A) (k : A -> M S B) :
  (forall a, returns Q (k a)) -> returns Q (bind m k).
Proof.
  intros Hk s. unfold bind.
  destruct (m s) as [[a|e] s']; simpl; [apply Hk | exact I].
Qed.

Lemma never_throws_bind {S A B} (m : M S A) (k : A -> M S B) :
  never_throws m -> (forall a, never_throws (k a)) -> never_throws (bind m k).
Proof.
  intros Hm Hk s. unfold bind. destruct (Hm s) as [a Ha].
  destruct (m s) as [[a'|e] s']; simpl in *; [apply Hk | discriminate].
Qed.

(** *** The trace of outbound calls only grows *)

Section Trace.

Context {S : Type} (tr : S -> list Call).

Lemma prolongs_refl s : prolongs tr s s.
Proof. exists []. now rewrite app_nil_r. Qed.

Lemma prolongs_trans s1 s2 s3 :
  prolongs tr s1 s2 -> prolongs tr s2 s3 -> prolongs tr s1 s3.
Proof.
  intros [l1 H1] [l2 H2]. exists (l1 ++ l2). now rewrite H2, H1, app_assoc.
Qed.

Lemma prolongs_same s s' : tr s' = tr s -> prolongs tr s s'.
Proof. intros H. exists []. now rewrite app_nil_r. Qed.

Lemma begins_bind_l {A B} c (m : M S A) (k : A -> M S B) :
  begins_with tr c m -> (forall a, monotone (prolongs tr) (k a)) ->
  begins_with tr c (bind m k).
Proof.
  intros Hm Hk s. unfold bind. destruct (Hm s) as [rest Hrest].
  destruct (m s) as [[a|e] s']; simpl in *; [|eauto].
  destruct (Hk a s') as [l Hl]. exists (rest ++ l).
  rewrite Hl, Hrest, <- app_assoc. reflexivity.
Qed.


Lemma begins_try_catch {A} c (m : M S A) (h : thrown -> M S A) :
  begins_with tr c m -> (forall e, monotone (prolongs tr) (h e)) ->
  begins_with tr c (try_catch m h).
Proof.
  intros Hm Hh s. unfold try_catch. destruct (Hm s) as [rest Hrest].
  destruct (m s) as [[a|e] s']; simpl in *; [eauto|].
  destruct (Hh e s') as [l Hl]. exists (rest ++ l).
  rewrite Hl, Hrest, <- app_assoc. reflexivity.
Qed.

End Trace.

Lemma extends_refl w : extends w w.
Proof. apply prolongs_refl. Qed.

Lemma extends_trans w1 w2 w3 : extends w1 w2 -> extends w2 w3 -> extends w1 w3.
Proof. apply prolongs_trans. Qed.

Lemma extends_same_calls w w' : calls w' = calls w -> extends w w'.
Proof. apply prolongs_same. Qed.

Lemma extends_t_refl s : extends_t s s.
Proof. apply prolongs_refl. Qed.

Lemma extends_t_trans s1 s2 s3 : extends_t s1 s2 -> extends_t s2 s3 -> extends_t s1 s3.
Proof. apply prolongs_trans. Qed.

Section GrowingPrimitives.

Variable E : Env.

Lemma grows_Date_now : grows (Date_now E).
Proof. intros w. now apply extends_same_calls. Qed.

Lemma grows_console_log line : grows (console_log line).
Proof. intros w. now apply extends_same_calls. Qed.

Lemma grows_console_warn line : grows (console_warn line).
Proof. intros w. now apply extends_same_calls. Qed.

Lemma grows_console_error line : grows (console_error line).
Proof. intros w. now apply extends_same_calls. Qed.

Lemma grows_access p : grows (access E p).
Proof.
  intros w. unfold access. destruct (fs_fault E OpAccess p); simpl.
  - apply extends_refl.
  - destruct (exists_at p w); apply extends_refl.
Qed.

Lemma grows_mkdir p : grows (mkdir_recursive E p).
Proof.
  intros w. unfold mkdir_recursive. destruct (fs_fault E OpMkdir p); simpl.
  - apply extends_refl.
  - destruct p; now apply extends_same_calls.
Qed.

Lemma grows_readFile p : grows (readFile E p).
Proof.
  intros w. unfold readFile. destruct (fs_fault E OpReadFile p); simpl.
  - apply extends_refl.
  - destruct p as [|name|name]; simpl.
    + destruct (cache_dir w); apply extends_refl.
    + destruct (cache w !! name); apply extends_refl.
    + destruct (tmp w !! name); apply extends_refl.
Qed.

Lemma grows_writeFile p content : grows (writeFile E p content).
Proof.
  intros w. unfold writeFile. destruct (fs_fault E OpWriteFile p); simpl.
  - apply extends_refl.
  - destruct p as [|name|name]; simpl.
    + apply extends_refl.
    + destruct (cache_dir w); now apply extends_same_calls.
    + now apply extends_same_calls.
Qed.

Lemma grows_unlink p : grows (unlink E p).
Proof.
  intros w. unfold unlink. destruct (fs_fault E OpUnlink p); simpl.
  - apply extends_refl.
  - destruct p as [|name|name]; simpl.
    + apply extends_refl.
    + destruct (cache w !! name); now apply extends_same_calls.
    + destruct (tmp w !! name); now apply extends_same_calls.
Qed.

Lemma grows_fetch url : grows (fetch E url).
Proof.
  intros w. unfold fetch. destruct (http_get E url); now exists [Fetch url].
Qed.

Lemma grows_fetch_post url file ms : grows (fetch_post E url file ms).
Proof.
  intros w. unfold fetch_post.
  destruct (whisper E url file) as [t r| |e]; [destruct (t <? ms)|..];
    now exists [FetchPost url file].
Qed.

Lemma grows_spawn command args : grows (spawn E command args).
Proof.
  intros w. unfold spawn. destruct (yt_dlp E args); now exists [Spawn command args].
Qed.

End GrowingPrimitives.

Lemma grows_io {A} (m : M World A) : grows m -> grows_t (io m).
Proof.
  intros H [t w]. unfold io, extends_t. simpl. specialize (H w).
  now destruct (m w).
Qed.

Lemma grows_update f : grows_t (update f).
Proof. intros s. now apply prolongs_same. Qed.

Lemma grows_read_timing : grows_t read_timing.
Proof. intros s. apply extends_t_refl. Qed.

Lemma grows_with_timing {A} t0 (m : M (Timing * World) A) :
  grows_t m -> grows (with_timing t0 m).
Proof.
  intros H w. unfold with_timing. specialize (H (t0, w)).
  now destruct (m (t0, w)).
Qed.

Lemma grows_settle_world {A} (o : Outcome A) : grows (settle o).
Proof. intros w. apply extends_refl. Qed.

Create HintDb grows discriminated.

#[export] Hint Resolve grows_Date_now grows_console_log grows_console_warn
  grows_console_error grows_access grows_mkdir grows_readFile grows_writeFile
  grows_unlink grows_fetch grows_fetch_post grows_spawn grows_update
  grows_read_timing : grows.

(** One step of a structural proof that a computation grows the trace. *)
Ltac grows_step :=
  match goal with
  | |- monotone extends (bind _ _) =>
      apply (monotone_bind extends extends_trans); [|intros ?]
  | |- monotone extends_t (bind _ _) =>
      apply (monotone_bind extends_t extends_t_trans); [|intros ?]
  | |- monotone extends (try_catch _ _) =>
      apply (monotone_try_catch extends extends_trans); [|intros ?]
  | |- monotone extends_t (try_catch _ _) =>
      apply (monotone_try_catch extends_t extends_t_trans); [|intros ?]
  | |- monotone extends (ret _) => apply (monotone_ret extends extends_refl)
  | |- monotone extends_t (ret _) => apply (monotone_ret extends_t extends_t_refl)
  | |- monotone extends (throw _) => apply (monotone_throw extends extends_refl)
  | |- monotone extends_t (throw _) => apply (monotone_throw extends_t extends_t_refl)
  | |- monotone extends (settle _) => apply (monotone_settle extends extends_refl)
  | |- monotone extends_t (settle _) => apply (monotone_settle extends_t extends_t_refl)
  | |- monotone extends_t (io _) => apply grows_io
  | |- monotone extends (with_timing _ _) => apply grows_with_timing
  | |- monotone _ (if ?b then _ else _) => destruct b
  | |- monotone _ (match ?x with _ => _ end) => destruct x
  | |- monotone _ _ => solve [auto with grows]
  end.

Ltac grows_auto := cbv zeta; repeat grows_step.

Section VariantFacts.

Variable E : Env.

Lemma grows_initCacheDir : grows (initCacheDir E).
Proof. unfold initCacheDir. grows_auto. Qed.

Lemma grows_cache_get url audioOnly : grows (cache_get E url audioOnly).
Proof. unfold cache_get. grows_auto. Qed.

Lemma grows_cache_put p content : grows (cache_put E p content).
Proof. unfold cache_put. grows_auto. Qed.

Hint Resolve grows_initCacheDir grows_cache_get grows_cache_put : grows.

Lemma grows_tikwm_getVideoInfo url : grows (Tikwm.getVideoInfo E url).
Proof. unfold Tikwm.getVideoInfo. grows_auto. Qed.

Hint Resolve grows_tikwm_getVideoInfo : grows.

Lemma grows_tikwm_downloadMedia url audioOnly :
  grows (Tikwm.downloadMedia E url audioOnly).
Proof. unfold Tikwm.downloadMedia. grows_auto. Qed.

Lemma grows_ytdlp_getVideoInfo url : grows (YtDlp.getVideoInfo E url).
Proof. unfold YtDlp.getVideoInfo. grows_auto. Qed.

Lemma grows_ytdlp_downloadMedia url audioOnly :
  grows (YtDlp.downloadMedia E url audioOnly).
Proof. unfold YtDlp.downloadMedia. grows_auto. Qed.

Lemma begins_fetch url : begins_with calls (Fetch url) (fetch E url).
Proof.
  intros w. exists []. unfold fetch. now destruct (http_get E url).
Qed.

Lemma begins_spawn command args :
  begins_with calls (Spawn command args) (spawn E command args).
Proof.
  intros w. exists []. unfold spawn. now destruct (yt_dlp E args).
Qed.

(** A clip URL that cannot be encoded fails [getVideoInfo] of the tikwm
    variant before anything is asked. *)
Lemma tikwm_getVideoInfo_unencodable url w :
  isWellFormed url = false ->
  Tikwm.getVideoInfo E url w
  = (Throw (new_Error ("Failed to get video info from tikwm: " +:+ uri_error_message E)),
     w).
Proof.
  intros H. unfold Tikwm.getVideoInfo, encodeURIComponent, try_catch, bind, settle.
  now rewrite H.
Qed.

(** For one that can, the API is asked, whatever comes of it. *)
Lemma tikwm_getVideoInfo_world url w :
  isWellFormed url = true ->
  snd (Tikwm.getVideoInfo E url w) = record_call (Fetch (tikwmApiUrl url)) w.
Proof.
  intros H.
  unfold Tikwm.getVideoInfo, encodeURIComponent, try_catch, bind, fetch, settle, throw, ret.
  rewrite H. cbv zeta. fold (tikwmApiUrl url).
  destruct (http_get E _) as [e|r]; simpl; [reflexivity|].
  destruct (ok r); simpl; [|reflexivity].
  destruct (json r) as [d|e]; simpl; [|reflexivity].
  destruct (code d =? 0); reflexivity.
Qed.

Lemma tikwm_getVideoInfo_returned url w info w' :
  Tikwm.getVideoInfo E url w = (Ok info, w') ->
  isWellFormed url = true /\ w' = record_call (Fetch (tikwmApiUrl url)) w.
Proof.
  intros H. destruct (isWellFormed url) eqn:Hwf.
  - split; [reflexivity|].
    pose proof (tikwm_getVideoInfo_world url w Hwf) as Hw. now rewrite H in Hw.
  - now rewrite (tikwm_getVideoInfo_unencodable url w Hwf) in H.
Qed.

Lemma begins_tikwm_getVideoInfo url :
  isWellFormed url = true ->
  begins_with calls (provider_call TikwmApi url) (Tikwm.getVideoInfo E url).
Proof.
  intros H w. exists []. now rewrite (tikwm_getVideoInfo_world url w H).
Qed.

Lemma begins_ytdlp_getVideoInfo url :
  begins_with calls (provider_call YtDlpTool url) (YtDlp.getVideoInfo E url).
Proof.
  unfold YtDlp.getVideoInfo, provider_call.
  apply begins_bind_l; [apply begins_spawn|].
  intros; fold extends; grows_auto.
Qed.

End VariantFacts.

#[export] Hint Resolve grows_initCacheDir grows_cache_get grows_cache_put
  grows_tikwm_getVideoInfo grows_tikwm_downloadMedia
  grows_ytdlp_getVideoInfo grows_ytdlp_downloadMedia : grows.

(** *** Small facts on the timing-carrying state *)


Lemma never_throws_io {A} (m : M World A) : never_throws m -> never_throws (io m).
Proof.
  intros H [t w]. unfold io. simpl. destruct (H w) as [a Ha].
  destruct (m w) as [r w']. simpl in *. eauto.
Qed.


Lemma returns_with_timing {A} (Q : A -> Prop) t0 (m : M (Timing * World) A) :
  returns Q m -> returns Q (with_timing t0 m).
Proof.
  intros H w. unfold with_timing. specialize (H (t0, w)).
  now destruct (m (t0, w)).
Qed.

Lemma never_throws_with_timing {A} t0 (m : M (Timing * World) A) :
  never_throws m -> never_throws (with_timing t0 m).
Proof.
  intros H w. unfold with_timing. destruct (H (t0, w)) as [a Ha].
  destruct (m (t0, w)). simpl in *. eauto.
Qed.


Lemma silent_Date_now E : silent calls (Date_now E).
Proof. intros w. reflexivity. Qed.

Lemma never_throws_Date_now E : never_throws (Date_now E).
Proof. intros w. eexists. reflexivity. Qed.

Lemma never_throws_console_error line : never_throws (console_error line).
Proof. intros w. eexists. reflexivity. Qed.


Lemma never_throws_update f : never_throws (update f).
Proof. intros s. eexists. reflexivity. Qed.

Lemma never_throws_read_timing : never_throws read_timing.
Proof. intros s. eexists. reflexivity. Qed.

Ltac returns_step :=
  match goal with
  | |- returns _ (bind _ _) => apply returns_bind; intros ?
  | |- returns _ (try_catch _ _) => apply returns_try_catch; [|intros ?]
  | |- returns _ (ret _) => apply returns_ret; unfold past_validation; simpl; lia
  | |- returns _ (throw _) => apply returns_throw
  | |- returns _ (with_timing _ _) => apply returns_with_timing
  | |- returns _ (if ?b then _ else _) => destruct b
  | |- returns _ (match ?x with _ => _ end) => destruct x
  end.

Ltac returns_auto := cbv zeta; repeat returns_step.

(** ** Facts on the [/caption] handler, for either variant *)

Section CaptionFacts.

Variable E : Env.
Variable Md : Type.
Variable getVideoInfo : string -> M World Md.
Variable downloadMedia : string -> bool -> M World Media.
Variable md_title : Md -> string.
Variable md_author : Md -> string.
Variable md_duration : Md -> float.
Variable response_metadata : Md -> string -> Z -> bool -> ResponseMetadata.
Variable first_call : string -> Call.

Hypothesis info_grows : forall url, grows (getVideoInfo url).
Hypothesis media_grows : forall url audioOnly, grows (downloadMedia url audioOnly).

Lemma grows_caption_acquire url audioOnly :
  grows_t (caption_acquire E Md getVideoInfo downloadMedia md_title md_author
             url audioOnly).
Proof. unfold caption_acquire. grows_auto. Qed.

Lemma grows_caption_transcribe url audioOnly debug metadata media :
  grows_t (caption_transcribe E Md md_duration response_metadata
             url audioOnly debug metadata media).
Proof. unfold caption_transcribe. grows_auto. Qed.

Lemma grows_caption_catch debug e : grows_t (caption_catch E debug e).
Proof. unfold caption_catch. grows_auto. Qed.



Lemma returns_caption_catch debug e :
  returns past_validation (caption_catch E debug e).
Proof. unfold caption_catch. returns_auto. Qed.

Lemma never_throws_caption_catch debug e : never_throws (caption_catch E debug e).
Proof.
  unfold caption_catch.
  apply never_throws_bind; [apply never_throws_io, never_throws_console_error | intros _].
  apply never_throws_bind; [apply never_throws_io, never_throws_Date_now | intros t].
  apply never_throws_bind; [apply never_throws_read_timing | intros timing].
  cbv zeta.
  destruct (instanceof_Error e); [|apply never_throws_ret].
  destruct (String.eqb (error_name e) "TimeoutError"); [apply never_throws_ret|].
  destruct (String.eqb (error_name e) "AbortError"); apply never_throws_ret.
Qed.

Lemma returns_caption_pipeline url audioOnly debug :
  returns past_validation (caption_pipeline E Md getVideoInfo downloadMedia md_title md_author
       md_duration response_metadata url audioOnly debug).
Proof.
  unfold caption_pipeline, caption_try, caption_transcribe.
  apply returns_bind; intros now. apply returns_with_timing.
  apply returns_try_catch; [|intros e; apply returns_caption_catch].
  returns_auto.
Qed.

Lemma never_throws_caption_pipeline url audioOnly debug :
  never_throws (caption_pipeline E Md getVideoInfo downloadMedia md_title md_author
       md_duration response_metadata url audioOnly debug).
Proof.
  unfold caption_pipeline.
  apply never_throws_bind; [apply never_throws_Date_now | intros now].
  apply never_throws_with_timing, never_throws_try_catch.
  intros e. apply never_throws_caption_catch.
Qed.

(** The handler, read off its three exits. *)
Lemma caption_handler_unparsable c e w :
  req_json c = Throw e ->
  caption_handler E Md getVideoInfo downloadMedia md_title md_author md_duration
    response_metadata c w = (Throw e, w).
Proof.
  intros H. unfold caption_handler, bind, settle. now rewrite H.
Qed.

Lemma caption_handler_rejected c parsed url w :
  req_json c = Ok parsed -> url_member parsed = Some url -> rejects url = Ok true ->
  caption_handler E Md getVideoInfo downloadMedia md_title md_author md_duration
    response_metadata c w = (Ok invalid_url_reply, w).
Proof.
  intros Hj Hu Hr. unfold caption_handler, bind, settle, destructure_url.
  rewrite Hj, Hu. unfold ret at 1. now rewrite Hr.
Qed.

Lemma caption_handler_coercion_throws c parsed url e w :
  req_json c = Ok parsed -> url_member parsed = Some url -> rejects url = Throw e ->
  caption_handler E Md getVideoInfo downloadMedia md_title md_author md_duration
    response_metadata c w = (Throw e, w).
Proof.
  intros Hj Hu Hr. unfold caption_handler, bind, settle, destructure_url.
  rewrite Hj, Hu. unfold ret at 1. now rewrite Hr.
Qed.

Lemma caption_handler_accepted c parsed url w :
  req_json c = Ok parsed -> url_member parsed = Some url -> rejects url = Ok false ->
  caption_handler E Md getVideoInfo downloadMedia md_title md_author md_duration
    response_metadata c w
  = caption_pipeline E Md getVideoInfo downloadMedia md_title md_author
      md_duration response_metadata (text_of url)
      (query_is_true c "audio_only") (query_is_true c "debug") w.
Proof.
  intros Hj Hu Hr. unfold caption_handler, destructure_url.
  unfold bind at 1, settle. rewrite Hj. unfold bind at 1. rewrite Hu.
  unfold ret at 1. unfold bind at 1. now rewrite Hr.
Qed.

End CaptionFacts.

(** A computation that never throws, returns only values in [Q] and
    begins with the call [c], read at one starting world. *)
Lemma exits {A} (Q : A -> Prop) c (m : M World A) w :
  never_throws m -> returns Q m -> begins_with calls c m ->
  exists a w' rest, m w = (Ok a, w') /\ Q a /\ calls w' = calls w ++ c :: rest.
Proof.
  intros Ht Hr Hb. destruct (Ht w) as [a Ha]. specialize (Hr w).
  destruct (Hb w) as [rest Hrest].
  destruct (m w) as [o w'] eqn:Hm. simpl in *. subst o.
  exists a, w', rest. auto.
Qed.

(** ** Facts on the two [/download] handlers *)

Section DownloadFacts.

Variable E : Env.

Lemma never_throws_download_catch (e : thrown) :
  never_throws
    (console_error ("Download error: " +:+ thrown_to_string e) ;;
     ret (JsonError 500 {| error := "Failed to get download URL";
                           details := Some (message_or_unknown e);
                           error_debug := None |})).
Proof.
  apply never_throws_bind; [apply never_throws_console_error | intros _].
  apply never_throws_ret.
Qed.

Lemma tikwm_download_unparsable c e w :
  req_json c = Throw e -> Tikwm.download E c w = (Throw e, w).
Proof. intros H. unfold Tikwm.download, bind, settle. now rewrite H. Qed.

Lemma ytdlp_download_unparsable c e w :
  req_json c = Throw e -> YtDlp.download E c w = (Throw e, w).
Proof. intros H. unfold YtDlp.download, bind, settle. now rewrite H. Qed.

Lemma tikwm_download_rejected c parsed url w :
  req_json c = Ok parsed -> url_member parsed = Some url -> rejects url = Ok true ->
  Tikwm.download E c w = (Ok invalid_url_reply, w).
Proof.
  intros Hj Hu Hr. unfold Tikwm.download, bind, settle, destructure_url.
  rewrite Hj, Hu. unfold ret at 1. now rewrite Hr.
Qed.

Lemma ytdlp_download_rejected c parsed url w :
  req_json c = Ok parsed -> url_member parsed = Some url -> rejects url = Ok true ->
  YtDlp.download E c w = (Ok invalid_url_reply, w).
Proof.
  intros Hj Hu Hr. unfold YtDlp.download, bind, settle, destructure_url.
  rewrite Hj, Hu. unfold ret at 1. now rewrite Hr.
Qed.

Lemma tikwm_download_coercion_throws c parsed url e w :
  req_json c = Ok parsed -> url_member parsed = Some url -> rejects url = Throw e ->
  Tikwm.download E c w = (Throw e, w).
Proof.
  intros Hj Hu Hr. unfold Tikwm.download, bind, settle, destructure_url.
  rewrite Hj, Hu. unfold ret at 1. now rewrite Hr.
Qed.

Lemma ytdlp_download_coercion_throws c parsed url e w :
  req_json c = Ok parsed -> url_member parsed = Some url -> rejects url = Throw e ->
  YtDlp.download E c w = (Throw e, w).
Proof.
  intros Hj Hu Hr. unfold YtDlp.download, bind, settle, destructure_url.
  rewrite Hj, Hu. unfold ret at 1. now rewrite Hr.
Qed.

(** What the handlers do once the URL has been accepted. *)
Lemma tikwm_download_run c parsed url w :
  req_json c = Ok parsed -> url_member parsed = Some url -> rejects url = Ok false ->
  Tikwm.download E c w
  = try_catch
      (let* info := Tikwm.getVideoInfo E (text_of url) in
       let downloadUrl := js_or (js_or (hdplay info) (play info)) (wmplay info) in
       let downloadUrl := if query_is_true c "hq" && truthy_str (hdplay info)
                          then hdplay info else downloadUrl in
       if negb (truthy_str downloadUrl) then
         throw (new_Error "No download URL available")
       else settle (redirect E (the_string downloadUrl)))
      (fun error =>
         console_error ("Download error: " +:+ thrown_to_string error) ;;
         ret (JsonError 500 {| error := "Failed to get download URL";
                               details := Some (message_or_unknown error);
                               error_debug := None |})) w.
Proof.
  intros Hj Hu Hr. unfold Tikwm.download.
  unfold bind at 1, settle at 1. rewrite Hj.
  unfold bind at 1, destructure_url. rewrite Hu. unfold ret at 1.
  unfold bind at 1, settle at 1. rewrite Hr. reflexivity.
Qed.

Lemma ytdlp_download_run c parsed url w :
  req_json c = Ok parsed -> url_member parsed = Some url -> rejects url = Ok false ->
  YtDlp.download E c w
  = try_catch
      (let* info := YtDlp.getVideoInfo E (text_of url) in
       settle (redirect E (yt_url info)))
      (fun error =>
         console_error ("Download error: " +:+ thrown_to_string error) ;;
         ret (JsonError 500 {| error := "Failed to get download URL";
                               details := Some (message_or_unknown error);
                               error_debug := None |})) w.
Proof.
  intros Hj Hu Hr. unfold YtDlp.download.
  unfold bind at 1, settle at 1. rewrite Hj.
  unfold bind at 1, destructure_url. rewrite Hu. unfold ret at 1.
  unfold bind at 1, settle at 1. rewrite Hr. reflexivity.
Qed.

Lemma returns_redirect location :
  returns (S := World) past_validation (settle (redirect E location)).
Proof.
  intros w. unfold settle, redirect. simpl.
  destruct (location_header E location); simpl; [discriminate | exact I].
Qed.

Lemma tikwm_download_accepted c parsed url w :
  req_json c = Ok parsed -> url_member parsed = Some url -> rejects url = Ok false ->
  exists r w',
    Tikwm.download E c w = (Ok r, w') /\ past_validation r /\ extends w w'
    /\ (begins_with calls (provider_call TikwmApi (text_of url))
          (Tikwm.getVideoInfo E (text_of url)) ->
        exists rest, calls w' = calls w ++ provider_call TikwmApi (text_of url) :: rest).
Proof.
  intros Hj Hu Hr. rewrite (tikwm_download_run c parsed url w Hj Hu Hr).
  set (m := try_catch _ _).
  assert (Hnever : never_throws m).
  { apply never_throws_try_catch. intros e. apply never_throws_download_catch. }
  assert (Hreturns : returns past_validation m).
  { unfold m. apply returns_try_catch.
    - apply returns_bind; intros info. cbv zeta.
      destruct (negb _); [apply returns_throw | apply returns_redirect].
    - intros e. returns_auto. }
  assert (Hgrows : grows m) by (unfold m; grows_auto).
  destruct (Hnever w) as [r Hr']. specialize (Hreturns w). specialize (Hgrows w).
  destruct (m w) as [o w'] eqn:Hm. simpl in *. subst o.
  exists r, w'. repeat split; try assumption.
  intros Hbegins.
  assert (Hb : begins_with calls (provider_call TikwmApi (text_of url)) m).
  { unfold m. apply begins_try_catch.
    - apply begins_bind_l; [exact Hbegins|]. intros info. fold extends. grows_auto.
    - intros e. fold extends. grows_auto. }
  destruct (Hb w) as [rest Hrest]. rewrite Hm in Hrest. eauto.
Qed.

Lemma ytdlp_download_accepted c parsed url w :
  req_json c = Ok parsed -> url_member parsed = Some url -> rejects url = Ok false ->
  exists r w' rest,
    YtDlp.download E c w = (Ok r, w') /\ past_validation r /\
    calls w' = calls w ++ provider_call YtDlpTool (text_of url) :: rest.
Proof.
  intros Hj Hu Hr. rewrite (ytdlp_download_run c parsed url w Hj Hu Hr).
  apply exits.
  - apply never_throws_try_catch. intros e. apply never_throws_download_catch.
  - apply returns_try_catch.
    + apply returns_bind; intros info. apply returns_redirect.
    + intros e. returns_auto.
  - apply begins_try_catch.
    + apply begins_bind_l; [apply (begins_ytdlp_getVideoInfo E (text_of url))|].
      intros info. fold extends. grows_auto.
    + intros e. fold extends. grows_auto.
Qed.

End DownloadFacts.

(** ** The validation gate, for every handler *)

Section Gate.

Variable E : Env.

Lemma handler_unparsable v p c e w :
  req_json c = Throw e -> handler E v p c w = (Throw e, w).
Proof.
  intros H. destruct v, p; cbn [handler].
  - exact (caption_handler_unparsable _ _ _ _ _ _ _ _ c e w H).
  - exact (tikwm_download_unparsable _ c e w H).
  - exact (caption_handler_unparsable _ _ _ _ _ _ _ _ c e w H).
  - exact (ytdlp_download_unparsable _ c e w H).
Qed.


Lemma handler_rejected v p c parsed url w :
  req_json c = Ok parsed -> url_member parsed = Some url -> rejects url = Ok true ->
  handler E v p c w = (Ok invalid_url_reply, w).
Proof.
  intros Hj Hu Hr. destruct v, p; cbn [handler].
  - exact (caption_handler_rejected _ _ _ _ _ _ _ _ c parsed url w Hj Hu Hr).
  - exact (tikwm_download_rejected _ c parsed url w Hj Hu Hr).
  - exact (caption_handler_rejected _ _ _ _ _ _ _ _ c parsed url w Hj Hu Hr).
  - exact (ytdlp_download_rejected _ c parsed url w Hj Hu Hr).
Qed.

(** A [url] whose coercion throws: the exception leaves the handler, the
    test being outside the [try] block. *)
Lemma handler_coercion_throws v p c parsed url e w :
  req_json c = Ok parsed -> url_member parsed = Some url -> rejects url = Throw e ->
  handler E v p c w = (Throw e, w).
Proof.
  intros Hj Hu Hr. destruct v, p; cbn [handler].
  - exact (caption_handler_coercion_throws _ _ _ _ _ _ _ _ c parsed url e w Hj Hu Hr).
  - exact (tikwm_download_coercion_throws _ c parsed url e w Hj Hu Hr).
  - exact (caption_handler_coercion_throws _ _ _ _ _ _ _ _ c parsed url e w Hj Hu Hr).
  - exact (ytdlp_download_coercion_throws _ c parsed url e w Hj Hu Hr).
Qed.

(** An accepted [url]: the handler answers, with another status than 400,
    and the trace of outbound calls only grows. *)
Lemma handler_accepted v p c parsed url w :
  req_json c = Ok parsed -> url_member parsed = Some url -> rejects url = Ok false ->
  exists r w',
    handler E v p c w = (Ok r, w') /\ past_validation r /\ extends w w'.
Proof.
  intros Hj Hu Hr.
  assert (Hpipe : forall Md getVideoInfo downloadMedia md_title md_author md_duration
                         response_metadata,
            (forall url, grows (getVideoInfo url)) ->
            (forall url audioOnly, grows (downloadMedia url audioOnly)) ->
            exists r w',
              caption_handler E Md getVideoInfo downloadMedia md_title md_author
                md_duration response_metadata c w = (Ok r, w')
              /\ past_validation r /\ extends w w').
  { intros Md getVideoInfo downloadMedia md_title md_author md_duration
      response_metadata Hinfo Hmedia.
    rewrite (caption_handler_accepted _ _ _ _ _ _ _ _ c parsed url) by assumption.
    set (m := caption_pipeline _ _ _ _ _ _ _ _ _ _ _).
    destruct (never_throws_caption_pipeline E Md getVideoInfo downloadMedia md_title
                md_author md_duration response_metadata (text_of url)
                (query_is_true c "audio_only") (query_is_true c "debug") w) as [r Hr'].
    pose proof (returns_caption_pipeline E Md getVideoInfo downloadMedia md_title
                  md_author md_duration response_metadata (text_of url)
                  (query_is_true c "audio_only") (query_is_true c "debug") w) as Hret.
    assert (Hgrows : grows m).
    { unfold m, caption_pipeline, caption_try.
      apply (monotone_bind extends extends_trans); [apply grows_Date_now | intros now].
      apply grows_with_timing.
      apply (monotone_try_catch extends_t extends_t_trans);
        [|intros e; apply grows_caption_catch].
      apply (monotone_bind extends_t extends_t_trans);
        [now apply grows_caption_acquire | intros a; apply grows_caption_transcribe]. }
    specialize (Hgrows w). fold m in Hr', Hret.
    destruct (m w) as [o w'] eqn:Hm. simpl in *. subst o. eauto. }
  destruct v, p; cbn [handler].
  - unfold Tikwm.caption.
    apply (Hpipe _ (Tikwm.getVideoInfo E) (Tikwm.downloadMedia E));
      [apply grows_tikwm_getVideoInfo | apply grows_tikwm_downloadMedia].
  - destruct (tikwm_download_accepted E c parsed url w Hj Hu Hr)
      as (r & w' & H1 & H2 & H3 & _).
    eauto.
  - unfold YtDlp.caption.
    apply (Hpipe _ (YtDlp.getVideoInfo E) (YtDlp.downloadMedia E));
      [apply grows_ytdlp_getVideoInfo | apply grows_ytdlp_downloadMedia].
  - destruct (ytdlp_download_accepted E c parsed url w Hj Hu Hr)
      as (r & w' & rest & H1 & H2 & H3).
    exists r, w'. split; [exact H1|]. split; [exact H2|].
    now exists (provider_call YtDlpTool (text_of url) :: rest).
Qed.


End Gate.

(** What the gate does, in terms of the URL itself. *)
Lemma ToString_text (v : jsval) (s : string) : ToString v = Ok s -> s = text_of v.
Proof.
  destruct v as [| |b|n|t|ms]; simpl; try (now intros [= <-]).
  destruct (has_own "toString" ms); [discriminate | now intros [= <-]].
Qed.

Lemma accepted_is_truthy (url : jsval) :
  accepted_url (text_of url) -> truthy url = true /\ ToString url = Ok (text_of url).
Proof.
  intros H. apply test_accepted in H.
  destruct url as [| |[|]|n|s|ms]; simpl in *; try discriminate; split;
    try reflexivity.
  - destruct (Z.eqb_spec n 0) as [->|]; [discriminate | reflexivity].
  - destruct s; [discriminate | reflexivity].
Qed.

(** Only a string passes the gate: the text of a number begins with a
    digit or a sign, and the texts of the other values are fixed. *)
Lemma pretty_N_go_begins (x : N) (s : string) :
  (0 < x)%N ->
  exists d rest, pretty_N_go x s = String (pretty_N_char d) rest.
Proof.
  revert s. induction (N.lt_wf_0 x) as [x _ IH]. intros s Hx.
  rewrite pretty_N_go_step by assumption.
  destruct (decide (0 < x `div` 10)%N) as [Hq|Hq].
  - apply IH; [apply N.div_lt; [assumption | reflexivity] | assumption].
  - assert (x `div` 10 = 0)%N as ->.
    { destruct (x `div` 10)%N; [reflexivity | now contradiction Hq]. }
    rewrite pretty_N_go_0. eauto.
Qed.

Lemma accepted_begins_with_h (s : string) :
  accepted_url s -> exists rest, s = String "h" rest.
Proof.
  intros (head & rest & Hin & ->). simpl in Hin.
  repeat destruct Hin as [<-|Hin]; try contradiction; eauto.
Qed.

Lemma number_text_is_not_accepted (n : Z) : ~ accepted_url (pretty n).
Proof.
  intros H. apply accepted_begins_with_h in H as [rest H].
  destruct n as [|p|p].
  - discriminate H.
  - change (pretty (Z.pos p)) with (pretty_N_go (N.pos p) "") in H.
    destruct (pretty_N_go_begins (N.pos p) "" eq_refl) as (d & rest' & Hd).
    rewrite Hd in H. injection H as H _. unfold pretty_N_char in H.
    repeat case_match; discriminate H.
  - discriminate H.
Qed.

Lemma accepted_is_string (url : jsval) :
  accepted_url (text_of url) -> exists s, url = JStr s.
Proof.
  destruct url as [| |[|]|n|s|ms]; simpl; intros H;
    try (apply test_accepted in H; discriminate H).
  - now apply number_text_is_not_accepted in H.
  - eauto.
Qed.


Lemma rejects_false_iff (url : jsval) :
  rejects url = Ok false <-> accepted_url (text_of url).
Proof.
  split.
  - unfold rejects. destruct (truthy url); simpl; [|discriminate].
    destruct (ToString url) as [s|e] eqn:Hs; [|discriminate].
    apply ToString_text in Hs. subst s.
    destruct (test TIKTOK_URL_PATTERN (text_of url)) eqn:Ht; [|discriminate].
    intros _. now apply test_accepted.
  - intros H. unfold rejects. destruct (accepted_is_truthy _ H) as [-> ->]. simpl.
    apply test_accepted in H. now rewrite H.
Qed.

Lemma rejects_throws_iff (url : jsval) (e : thrown) :
  rejects url = Throw e <-> truthy url = true /\ ToString url = Throw e.
Proof.
  unfold rejects. destruct (truthy url); simpl.
  - destruct (ToString url) as [s|e'].
    + split; [discriminate | intros [_ H]; discriminate].
    + split; [intros [= ->]; auto | intros [_ [= ->]]; reflexivity].
  - split; [discriminate | intros [H _]; discriminate].
Qed.

(** C10.  When the body is not valid JSON, [await c.req.json()] throws
    before the URL is looked at: the exception leaves the handler (of
    either endpoint, in either variant), so the handler does not produce
    the 400 reply; the framework answers 500, and the trace of outbound
    calls is untouched. *)
Theorem unparsable_body_escapes_the_handler
    (E : Env) (v : Variant) (p : Endpoint) (c : Request) (e : thrown) (w : World) :
  req_json c = Throw e ->
  handler E v p c w = (Throw e, w)
  /\ fst (handler E v p c w) <> Ok invalid_url_reply
  /\ calls (snd (handler E v p c w)) = calls w
  /\ fst (app_fetch E v p c w) = InternalServerError
  /\ answer_status (fst (app_fetch E v p c w)) = 500
  /\ calls (snd (app_fetch E v p c w)) = calls w.
Proof.
  intros H. unfold app_fetch.
  rewrite (handler_unparsable E v p c e w H). simpl.
  repeat split; try reflexivity. discriminate.
Qed.

(** ** The [hq] parameter *)

Lemma bind_ext {S A B} (m : M S A) (k k' : A -> M S B) s :
  (forall a s', k a s' = k' a s') -> bind m k s = bind m k' s.
Proof.
  intros H. unfold bind. destruct (m s) as [[a|e] s']; [apply H | reflexivity].
Qed.

Lemma try_catch_ext {S A} (m m' : M S A) (h : thrown -> M S A) s :
  m s = m' s -> try_catch m h s = try_catch m' h s.
Proof. intros H. unfold try_catch. now rewrite H. Qed.

(** The high-definition URL is taken first whenever it is there, so the
    extra assignment under [hq] changes nothing. *)
Lemma hq_assignment_is_idle (info : TikwmVideoInfo) (hq : bool) :
  (if hq && truthy_str (hdplay info) then hdplay info
   else js_or (js_or (hdplay info) (play info)) (wmplay info))
  = js_or (js_or (hdplay info) (play info)) (wmplay info).
Proof.
  destruct hq; simpl; [|reflexivity].
  unfold js_or. destruct (truthy_str (hdplay info)) eqn:Hhd; [|reflexivity].
  now rewrite Hhd.
Qed.

Lemma tikwm_download_ignores_query (E : Env) (c c' : Request) (w : World) :
  req_json c = req_json c' -> Tikwm.download E c w = Tikwm.download E c' w.
Proof.
  intros Hb. unfold Tikwm.download. rewrite Hb.
  apply bind_ext; intros parsed w1. apply bind_ext; intros url w2.
  apply bind_ext; intros invalid w3. destruct invalid; [reflexivity|].
  apply try_catch_ext. apply bind_ext; intros info w4. cbv zeta.
  now rewrite !hq_assignment_is_idle.
Qed.

Lemma ytdlp_download_ignores_query (E : Env) (c c' : Request) (w : World) :
  req_json c = req_json c' -> YtDlp.download E c w = YtDlp.download E c' w.
Proof. intros Hb. unfold YtDlp.download. now rewrite Hb. Qed.

(** C9.  Two requests to [POST /download] that carry the same body and
    agree on every query parameter other than [hq] get the same reply and
    leave the same world, whatever the extraction provider returns: the
    value of [hq] cannot be observed. *)
Theorem hq_does_not_interfere
    (E : Env) (v : Variant) (c c' : Request) (w : World) :
  req_json c = req_json c' ->
  (forall k, k <> "hq" -> query_lookup k (req_query c) = query_lookup k (req_query c')) ->
  handler E v PostDownload c w = handler E v PostDownload c' w.
Proof.
  intros Hb _. destruct v; cbn [handler].
  - exact (tikwm_download_ignores_query E c c' w Hb).
  - exact (ytdlp_download_ignores_query E c c' w Hb).
Qed.

(** ** Runs of the [/caption] pipeline *)

Lemma fetch_post_too_slow E file w :
  worker_too_slow E file ->
  fetch_post E (WHISPER_API_URL E) file 120000 w
  = (Throw TimeoutError, record_call (FetchPost (WHISPER_API_URL E) file) w).
Proof.
  intros [H | (ms & r & H & Hms)]; unfold fetch_post; rewrite H; [reflexivity|].
  destruct (Z.ltb_spec ms 120000); [lia | reflexivity].
Qed.

Lemma fetch_post_in_time E file w ms r :
  whisper E (WHISPER_API_URL E) file = RespondsAfter ms r -> ms < 120000 ->
  fetch_post E (WHISPER_API_URL E) file 120000 w
  = (Ok r, record_call (FetchPost (WHISPER_API_URL E) file) w).
Proof.
  intros H Hms. unfold fetch_post. rewrite H.
  destruct (Z.ltb_spec ms 120000); [reflexivity | lia].
Qed.

Section CaptionRuns.

Variable E : Env.
Variable Md : Type.
Variable getVideoInfo : string -> M World Md.
Variable downloadMedia : string -> bool -> M World Media.
Variable md_title : Md -> string.
Variable md_author : Md -> string.
Variable md_duration : Md -> float.
Variable response_metadata : Md -> string -> Z -> bool -> ResponseMetadata.

Abbreviation acquire_ :=
  (caption_acquire E Md getVideoInfo downloadMedia md_title md_author).
Abbreviation transcribe_ := (caption_transcribe E Md md_duration response_metadata).
Abbreviation pipeline_ :=
  (caption_pipeline E Md getVideoInfo downloadMedia md_title md_author
     md_duration response_metadata).

Lemma pipeline_after_acquire url audioOnly debug w metadata media s1 :
  acquire_ url audioOnly (entry_state E w) = (Ok (metadata, media), s1) ->
  pipeline_ url audioOnly debug w
  = match try_catch (transcribe_ url audioOnly debug metadata media)
            (caption_catch E debug) s1 with
    | (r, s') => (r, snd s')
    end.
Proof.
  intros H. unfold caption_pipeline, caption_try.
  unfold bind at 1, Date_now, with_timing. simpl.
  unfold try_catch at 1.
  fold acquire_. unfold entry_state in H.
  rewrite (bind_ok _ _ _ _ _ H). reflexivity.
Qed.

Lemma pipeline_acquire_fails url audioOnly debug w e s1 :
  acquire_ url audioOnly (entry_state E w) = (Throw e, s1) ->
  pipeline_ url audioOnly debug w
  = match caption_catch E debug e s1 with
    | (r, s') => (r, snd s')
    end.
Proof.
  intros H. unfold caption_pipeline, caption_try.
  unfold bind at 1, Date_now, with_timing. simpl.
  unfold try_catch at 1.
  fold acquire_. unfold entry_state in H.
  rewrite (bind_throw _ _ _ _ _ H). reflexivity.
Qed.

Lemma transcribe_too_slow url audioOnly debug metadata media s1 :
  worker_too_slow E (upload_of media) ->
  transcribe_ url audioOnly debug metadata media s1
  = (Throw TimeoutError, dispatch_state E media s1).
Proof.
  intros H. destruct s1 as [t1 w1].
  unfold caption_transcribe. cbv zeta.
  unfold bind at 1, io at 1, Date_now. simpl.
  unfold bind at 1, update at 1. simpl.
  unfold bind at 1, io at 1. simpl.
  fold (upload_of media). now rewrite (fetch_post_too_slow E _ _ H).
Qed.

Lemma transcribe_worker_failed url audioOnly debug metadata media s1 ms r :
  whisper E (WHISPER_API_URL E) (upload_of media) = RespondsAfter ms r ->
  ms < 120000 -> ok r = false ->
  transcribe_ url audioOnly debug metadata media s1
  = (Ok (JsonError 500 (worker_failed_body r)),
     (fst (dispatch_state E media s1),
      record_line LogError ("Whisper API Error: " +:+ text r)
        (snd (dispatch_state E media s1)))).
Proof.
  intros H Hms Hok. destruct s1 as [t1 w1].
  unfold caption_transcribe. cbv zeta.
  unfold bind at 1, io at 1, Date_now. simpl.
  unfold bind at 1, update at 1. simpl.
  unfold bind at 1, io at 1. simpl.
  fold (upload_of media). rewrite (fetch_post_in_time E _ _ ms r H Hms).
  rewrite Hok. reflexivity.
Qed.

(** The [catch] block on a timeout. *)
Lemma catch_timeout debug t w :
  caption_catch E debug TimeoutError (t, w)
  = (Ok (JsonError 408
           (timeout_body
              (if debug
               then Some {| ed_timing := partial_timing t (clock E (ticks w));
                            failedAt := failed_stage t |}
               else None))),
     (t, next_tick (record_line LogError (thrown_to_string TimeoutError) w))).
Proof. reflexivity. Qed.

(** The [catch] block on an error that is neither a timeout nor an abort. *)
Lemma catch_other debug e t w :
  error_name e <> "TimeoutError" -> error_name e <> "AbortError" ->
  caption_catch E debug e (t, w)
  = (Ok (JsonError 500 internal_error_body),
     (t, next_tick (record_line LogError (thrown_to_string e) w))).
Proof.
  intros H1 H2. unfold caption_catch.
  unfold bind at 1, io at 1, console_error. simpl.
  unfold bind at 1, io at 1, Date_now. simpl.
  unfold bind at 1, read_timing. simpl.
  destruct (instanceof_Error e); [|reflexivity].
  destruct (String.eqb_spec (error_name e) "TimeoutError"); [contradiction|].
  destruct (String.eqb_spec (error_name e) "AbortError"); [contradiction|].
  reflexivity.
Qed.

End CaptionRuns.

Lemma bind_ret_inv {S A B} (m : M S A) (f : A -> B) s b s' :
  bind m (fun a => ret (f a)) s = (Ok b, s') ->
  exists a, m s = (Ok a, s') /\ b = f a.
Proof.
  unfold bind, ret. destruct (m s) as [[a|e] s1]; [|discriminate].
  intros [= <- <-]. eauto.
Qed.

Lemma bind_ret_throw_inv {S A B} (m : M S A) (f : A -> B) s e s' :
  bind m (fun a => ret (f a)) s = (Throw e, s') -> m s = (Throw e, s').
Proof.
  unfold bind, ret. destruct (m s) as [[a|e'] s1]; [discriminate|].
  now intros [= <- <-].
Qed.

Section CaptionFailures.

Variable E : Env.
Variable Md : Type.
Variable getVideoInfo : string -> M World Md.
Variable downloadMedia : string -> bool -> M World Media.
Variable md_title : Md -> string.
Variable md_author : Md -> string.
Variable md_duration : Md -> float.
Variable response_metadata : Md -> string -> Z -> bool -> ResponseMetadata.

Lemma acquire_metadata_fails url audioOnly w e w1 :
  getVideoInfo url (next_tick (next_tick w)) = (Throw e, w1) ->
  caption_acquire E Md getVideoInfo downloadMedia md_title md_author url audioOnly
    (entry_state E w)
  = (Throw e, (set_metadataStart (clock E (S (ticks w))) (initial_timing (clock E (ticks w))),
               w1)).
Proof.
  intros H. unfold caption_acquire, entry_state.
  unfold bind at 1, io at 1, Date_now. simpl.
  unfold bind at 1, update at 1. simpl.
  unfold bind at 1, io at 1. simpl.
  change (mkWorld (cache_dir w) (cache w) (tmp w) (S (S (ticks w))) (calls w) (console w))
    with (next_tick (next_tick w)).
  now rewrite H.
Qed.

Lemma pipeline_metadata_fails url audioOnly debug w m w1 :
  getVideoInfo url (next_tick (next_tick w)) = (Throw (new_Error m), w1) ->
  caption_pipeline E Md getVideoInfo downloadMedia md_title md_author md_duration
    response_metadata url audioOnly debug w
  = (Ok (JsonError 500 internal_error_body),
     next_tick (record_line LogError (thrown_to_string (new_Error m)) w1)).
Proof.
  intros H.
  rewrite (pipeline_acquire_fails _ _ _ _ _ _ _ _ _ _ _ _ _ _
             (acquire_metadata_fails url audioOnly w _ w1 H)).
  rewrite catch_other; [reflexivity | discriminate | discriminate].
Qed.

End CaptionFailures.


(** C2.  Once metadata and media are in hand, the upload is posted with a
    120000 ms abort signal.  If the worker never answers, or answers only
    after more than 120000 ms, the call is aborted and [/caption] replies
    408; the aborted upload is the last outbound call.  If the worker
    answers in time with a non-success status, [/caption] replies 500 with
    the worker's body text as [details]. *)
Theorem transcription_timeout_is_408_and_worker_failure_is_500
    (E : Env) (v : Variant) (c : Request) (parsed url : jsval) (w : World)
    (media : Media) (s1 : Timing * World) :
  req_json c = Ok parsed ->
  url_member parsed = Some url ->
  accepted_url (text_of url) ->
  acquire E v (text_of url) (query_is_true c "audio_only") (entry_state E w)
    = (Ok media, s1) ->
  (worker_too_slow E (upload_of media) ->
     exists b w',
       handler E v PostCaption c w = (Ok (JsonError 408 b), w')
       /\ calls w' = calls (snd s1) ++ [FetchPost (WHISPER_API_URL E) (upload_of media)])
  /\ (forall ms r,
        whisper E (WHISPER_API_URL E) (upload_of media) = RespondsAfter ms r ->
        ms < 120000 ->
        ok r = false ->
        exists w',
          handler E v PostCaption c w
          = (Ok (JsonError 500 {| error := "Transcription service failed.";
                                  details := Some (text r);
                                  error_debug := None |}), w')).
Proof.
  intros Hj Hu Hacc Hacq. apply rejects_false_iff in Hacc.
  destruct v; simpl in *.
  - unfold Tikwm.caption.
    rewrite (caption_handler_accepted _ _ _ _ _ _ _ _ c parsed url) by assumption.
    apply bind_ret_inv in Hacq as ([md m] & Ha & ->). simpl.
    rewrite (pipeline_after_acquire _ _ _ _ _ _ _ _ _ _ _ _ _ _ s1 Ha).
    split.
    + intros Hslow. unfold try_catch.
      rewrite (transcribe_too_slow _ _ _ _ _ _ _ _ _ _ Hslow).
      unfold dispatch_state. rewrite catch_timeout. simpl. eauto.
    + intros ms r Hw Hms Hok. unfold try_catch.
      rewrite (transcribe_worker_failed _ _ _ _ _ _ _ _ _ _ ms r Hw Hms Hok).
      simpl. eauto.
  - unfold YtDlp.caption.
    rewrite (caption_handler_accepted _ _ _ _ _ _ _ _ c parsed url) by assumption.
    apply bind_ret_inv in Hacq as ([md m] & Ha & ->). simpl.
    rewrite (pipeline_after_acquire _ _ _ _ _ _ _ _ _ _ _ _ _ _ s1 Ha).
    split.
    + intros Hslow. unfold try_catch.
      rewrite (transcribe_too_slow _ _ _ _ _ _ _ _ _ _ Hslow).
      unfold dispatch_state. rewrite catch_timeout. simpl. eauto.
    + intros ms r Hw Hms Hok. unfold try_catch.
      rewrite (transcribe_worker_failed _ _ _ _ _ _ _ _ _ _ ms r Hw Hms Hok).
      simpl. eauto.
Qed.

(** ** Division by zero in the derived metrics *)

Lemma div_by_zero_not_finite (x : float) : not_finite (x / 0)%float.
Proof.
  unfold not_finite. rewrite div_spec.
  replace (Prim2SF 0%float) with (S754_zero false) by (vm_compute; reflexivity).
  unfold SF64div, SFdiv. destruct (Prim2SF x); eauto.
Qed.

Lemma not_finite_div (y d : float) s m e :
  Prim2SF d = S754_finite s m e -> not_finite y -> not_finite (y / d)%float.
Proof.
  intros Hd [Hy | [sy Hy]]; unfold not_finite; rewrite div_spec, Hd, Hy;
    unfold SF64div, SFdiv; eauto.
Qed.

Lemma not_finite_mul (y d : float) s m e :
  Prim2SF d = S754_finite s m e -> not_finite y -> not_finite (y * d)%float.
Proof.
  intros Hd [Hy | [sy Hy]]; unfold not_finite; rewrite mul_spec, Hd, Hy;
    unfold SF64mul, SFmul; eauto.
Qed.

Lemma toFixed_text_not_finite (E : Env) (y : float) (digits : nat) :
  not_finite y -> not_finite_text (toFixed_text E y digits).
Proof.
  intros [Hy | [sy Hy]]; unfold toFixed_text, not_finite_text.
  - assert (is_nan y = true) as ->; [|auto].
    unfold is_nan. rewrite FloatAxioms.eqb_spec, Hy. reflexivity.
  - assert (is_nan y = false) as ->.
    { unfold is_nan. rewrite FloatAxioms.eqb_spec, Hy. now destruct sy. }
    assert (is_infinity y = true) as ->.
    { unfold is_infinity. rewrite FloatAxioms.eqb_spec, abs_spec, Hy.
      replace (Prim2SF infinity) with (S754_infinity false) by (vm_compute; reflexivity).
      reflexivity. }
    destruct (y <? 0)%float; auto.
Qed.

(** [n / (0 / 1000) / 1024 / 1024] *)
Lemma speed_over_zero_time (x : float) :
  not_finite (x / (float_of_Z 0 / 1000) / 1024 / 1024)%float.
Proof.
  replace (float_of_Z 0 / 1000)%float with 0%float by (vm_compute; reflexivity).
  eapply not_finite_div; [vm_compute; reflexivity|].
  eapply not_finite_div; [vm_compute; reflexivity|].
  apply div_by_zero_not_finite.
Qed.

(** [d / (0 / 1000)] *)
Lemma realtime_over_zero_time (x : float) :
  not_finite (x / (float_of_Z 0 / 1000))%float.
Proof.
  replace (float_of_Z 0 / 1000)%float with 0%float by (vm_compute; reflexivity).
  apply div_by_zero_not_finite.
Qed.

(** [(t / 0) * 100] *)
Lemma share_of_zero_total (x : float) :
  not_finite (x / float_of_Z 0 * 100)%float.
Proof.
  replace (float_of_Z 0) with 0%float by (vm_compute; reflexivity).
  eapply not_finite_mul; [vm_compute; reflexivity|].
  apply div_by_zero_not_finite.
Qed.

Lemma debug_block_defined (E : Env) timing metadataTime downloadTime transcribeTime
    length duration audioOnly :
  debug_block E timing metadataTime downloadTime transcribeTime length duration audioOnly
  = Ok (debug_value E timing metadataTime downloadTime transcribeTime length
          duration audioOnly).
Proof. reflexivity. Qed.

Section CaptionSuccess.

Variable E : Env.
Variable Md : Type.
Variable md_duration : Md -> float.
Variable response_metadata : Md -> string -> Z -> bool -> ResponseMetadata.

Lemma transcribe_success url audioOnly debug metadata media s1 ms r result :
  whisper E (WHISPER_API_URL E) (upload_of media) = RespondsAfter ms r ->
  ms < 120000 -> ok r = true -> json r = Ok result ->
  caption_transcribe E Md md_duration response_metadata
    url audioOnly debug metadata media s1
  = (Ok (JsonCaption
           {| cb_url := url;
              cb_caption := caption result;
              metadata := response_metadata metadata
                            (if audioOnly then "audio-only" else "video")
                            (Z.of_nat (length (buffer media))) (cached media);
              downloadUrl := "/download";
              debug :=
                if debug then
                  Some (debug_value E (success_timing E s1)
                          (metadataEnd (success_timing E s1)
                           - metadataStart (success_timing E s1))
                          (downloadEnd (success_timing E s1)
                           - downloadStart (success_timing E s1))
                          (transcribeEnd (success_timing E s1)
                           - transcribeStart (success_timing E s1))
                          (Z.of_nat (length (buffer media)))
                          (md_duration metadata) audioOnly)
                else None |}),
     (success_timing E s1, next_tick (snd (dispatch_state E media s1)))).
Proof.
  intros H Hms Hok Hjson. destruct s1 as [t1 w1].
  unfold caption_transcribe. cbv zeta.
  unfold bind at 1, io at 1, Date_now. simpl.
  unfold bind at 1, update at 1. simpl.
  unfold bind at 1, io at 1. simpl.
  fold (upload_of media). rewrite (fetch_post_in_time E _ _ ms r H Hms).
  rewrite Hok. simpl.
  unfold bind at 1, settle at 1. rewrite Hjson.
  unfold bind at 1, io at 1, Date_now. simpl.
  unfold bind at 1, update at 1. simpl.
  unfold bind at 1, update at 1. simpl.
  unfold bind at 1, read_timing. simpl.
  destruct debug; reflexivity.
Qed.

End CaptionSuccess.

(** C6, as amended.  For a successful [/caption] request with
    [debug=true], the reply is the 200 response and carries the debug
    block, whatever the clock readings were: nothing traps.  The block is
    the one of [debug_value]: each metric is its quotient as [toFixed]
    renders it, followed by the unit, and no divisor is guarded.  So when
    a divisor is zero the metric shows no number: a download time of zero
    makes the throughput ["NaN"], ["Infinity"] or ["-Infinity"] followed
    by the unit, a transcription time of zero does the same to the
    real-time factor, and a total of zero does the same to each of the
    three percentages. *)
Theorem debug_metrics_are_defined_on_zero_durations
    (E : Env) (v : Variant) (c : Request) (parsed url : jsval) (w : World)
    (media : Media) (s1 : Timing * World) (ms : Z)
    (r : HttpResponse WhisperResult) (result : WhisperResult) :
  req_json c = Ok parsed ->
  url_member parsed = Some url ->
  accepted_url (text_of url) ->
  query_is_true c "debug" = true ->
  acquire E v (text_of url) (query_is_true c "audio_only") (entry_state E w)
    = (Ok media, s1) ->
  whisper E (WHISPER_API_URL E) (upload_of media) = RespondsAfter ms r ->
  ms < 120000 ->
  ok r = true ->
  json r = Ok result ->
  exists body block w',
    handler E v PostCaption c w = (Ok (JsonCaption body), w')
    /\ reply_status (JsonCaption body) = 200
    /\ debug body = Some block
    /\ (exists duration,
          block = debug_value E (success_timing E s1)
                    (metadataEnd (success_timing E s1)
                     - metadataStart (success_timing E s1))
                    (downloadEnd (success_timing E s1)
                     - downloadStart (success_timing E s1))
                    (transcribeEnd (success_timing E s1)
                     - transcribeStart (success_timing E s1))
                    (Z.of_nat (length (buffer media))) duration
                    (query_is_true c "audio_only"))
    /\ (downloadEnd (success_timing E s1) - downloadStart (success_timing E s1) = 0 ->
        exists d, not_finite_text d
                  /\ downloadSpeed (performance block) = d +:+ " MB/s")
    /\ (transcribeEnd (success_timing E s1) - transcribeStart (success_timing E s1) = 0 ->
        exists d, not_finite_text d
                  /\ transcriptionSpeed (performance block) = d +:+ "x realtime")
    /\ (total (success_timing E s1) = 0 ->
        exists d1 d2 d3,
          not_finite_text d1 /\ not_finite_text d2 /\ not_finite_text d3
          /\ metadataFetch (breakdown block) = d1 +:+ "%"
          /\ mediaDownload (breakdown block) = d2 +:+ "%"
          /\ bd_transcription (breakdown block) = d3 +:+ "%").
Proof.
  intros Hj Hu Hacc Hdbg Hacq Hw Hms Hok Hjson. apply rejects_false_iff in Hacc.
  assert (forall Md (md_duration : Md -> float) response_metadata metadata,
    exists body block w',
      (match try_catch
               (caption_transcribe E Md md_duration response_metadata (text_of url)
                  (query_is_true c "audio_only") (query_is_true c "debug") metadata media)
               (caption_catch E (query_is_true c "debug")) s1 with
       | (r0, s') => (r0, snd s')
       end) = (Ok (JsonCaption body), w')
      /\ reply_status (JsonCaption body) = 200
      /\ debug body = Some block
      /\ (exists duration,
            block = debug_value E (success_timing E s1)
                      (metadataEnd (success_timing E s1)
                       - metadataStart (success_timing E s1))
                      (downloadEnd (success_timing E s1)
                       - downloadStart (success_timing E s1))
                      (transcribeEnd (success_timing E s1)
                       - transcribeStart (success_timing E s1))
                      (Z.of_nat (length (buffer media))) duration
                      (query_is_true c "audio_only"))
      /\ (downloadEnd (success_timing E s1) - downloadStart (success_timing E s1) = 0 ->
          exists d, not_finite_text d
                    /\ downloadSpeed (performance block) = d +:+ " MB/s")
      /\ (transcribeEnd (success_timing E s1) - transcribeStart (success_timing E s1) = 0 ->
          exists d, not_finite_text d
                    /\ transcriptionSpeed (performance block) = d +:+ "x realtime")
      /\ (total (success_timing E s1) = 0 ->
          exists d1 d2 d3,
            not_finite_text d1 /\ not_finite_text d2 /\ not_finite_text d3
            /\ metadataFetch (breakdown block) = d1 +:+ "%"
            /\ mediaDownload (breakdown block) = d2 +:+ "%"
            /\ bd_transcription (breakdown block) = d3 +:+ "%")) as Hrun.
  { intros Md md_duration response_metadata metadata.
    unfold try_catch.
    rewrite (transcribe_success E Md md_duration response_metadata _ _ _ _ _ _
               ms r result Hw Hms Hok Hjson).
    rewrite Hdbg. do 3 eexists.
    split; [reflexivity|]. split; [reflexivity|]. split; [reflexivity|].
    split; [eexists; reflexivity|].
    unfold debug_value.
    cbn [performance breakdown downloadSpeed transcriptionSpeed
         metadataFetch mediaDownload bd_transcription].
    split; [|split].
    - intros ->. eexists. split; [|reflexivity].
      apply toFixed_text_not_finite, speed_over_zero_time.
    - intros ->. eexists. split; [|reflexivity].
      apply toFixed_text_not_finite, realtime_over_zero_time.
    - intros ->. do 3 eexists.
      repeat split; try reflexivity;
        apply toFixed_text_not_finite, share_of_zero_total. }
  destruct v; simpl in *.
  - unfold Tikwm.caption.
    rewrite (caption_handler_accepted _ _ _ _ _ _ _ _ c parsed url) by assumption.
    apply bind_ret_inv in Hacq as ([md m] & Ha & ->). simpl.
    rewrite (pipeline_after_acquire _ _ _ _ _ _ _ _ _ _ _ _ _ _ s1 Ha).
    apply Hrun.
  - unfold YtDlp.caption.
    rewrite (caption_handler_accepted _ _ _ _ _ _ _ _ c parsed url) by assumption.
    apply bind_ret_inv in Hacq as ([md m] & Ha & ->). simpl.
    rewrite (pipeline_after_acquire _ _ _ _ _ _ _ _ _ _ _ _ _ _ s1 Ha).
    apply Hrun.
Qed.

(** ** The cache across a call *)

Lemma same_cache_refl w : same_cache w w.
Proof. now split. Qed.

Lemma same_cache_trans w1 w2 w3 :
  same_cache w1 w2 -> same_cache w2 w3 -> same_cache w1 w3.
Proof. intros [H1 H2] [H3 H4]. split; congruence. Qed.

Section CacheFrame.

Variable E : Env.

Lemma keeps_Date_now : keeps_cache (Date_now E).
Proof. intros w. now split. Qed.

Lemma keeps_console_log line : keeps_cache (console_log line).
Proof. intros w. now split. Qed.

Lemma keeps_console_warn line : keeps_cache (console_warn line).
Proof. intros w. now split. Qed.

Lemma keeps_console_error line : keeps_cache (console_error line).
Proof. intros w. now split. Qed.

Lemma keeps_access p : keeps_cache (access E p).
Proof.
  intros w. unfold access. destruct (fs_fault E OpAccess p); simpl.
  - apply same_cache_refl.
  - destruct (exists_at p w); apply same_cache_refl.
Qed.

Lemma keeps_readFile p : keeps_cache (readFile E p).
Proof.
  intros w. unfold readFile. destruct (fs_fault E OpReadFile p); simpl.
  - apply same_cache_refl.
  - destruct p as [|name|name]; simpl.
    + destruct (cache_dir w); apply same_cache_refl.
    + destruct (cache w !! name); apply same_cache_refl.
    + destruct (tmp w !! name); apply same_cache_refl.
Qed.

Lemma keeps_unlink_tmp name : keeps_cache (unlink E (InTmp name)).
Proof.
  intros w. unfold unlink. destruct (fs_fault E OpUnlink (InTmp name)); simpl.
  - apply same_cache_refl.
  - destruct (tmp w !! name); now split.
Qed.

Lemma keeps_fetch url : keeps_cache (fetch E url).
Proof. intros w. unfold fetch. destruct (http_get E url); now split. Qed.

Lemma keeps_spawn command args : keeps_cache (spawn E command args).
Proof. intros w. unfold spawn. destruct (yt_dlp E args); now split. Qed.

End CacheFrame.

Create HintDb frame discriminated.

#[export] Hint Resolve keeps_Date_now keeps_console_log keeps_console_warn
  keeps_console_error keeps_access keeps_readFile keeps_unlink_tmp keeps_fetch
  keeps_spawn : frame.

Ltac frame_step :=
  match goal with
  | |- monotone same_cache (bind _ _) =>
      apply (monotone_bind same_cache same_cache_trans); [|intros ?]
  | |- monotone same_cache (try_catch _ _) =>
      apply (monotone_try_catch same_cache same_cache_trans); [|intros ?]
  | |- monotone same_cache (ret _) => apply (monotone_ret same_cache same_cache_refl)
  | |- monotone same_cache (throw _) => apply (monotone_throw same_cache same_cache_refl)
  | |- monotone same_cache (settle _) => apply (monotone_settle same_cache same_cache_refl)
  | |- monotone _ (if ?b then _ else _) => destruct b
  | |- monotone _ (match ?x with _ => _ end) => destruct x
  | |- monotone _ _ => solve [auto with frame]
  end.

Ltac frame_auto := cbv zeta; repeat frame_step.

Lemma bind_inv_ok {S A B} (m : M S A) (k : A -> M S B) s b s' :
  bind m k s = (Ok b, s') ->
  exists a s1, m s = (Ok a, s1) /\ k a s1 = (Ok b, s').
Proof.
  unfold bind. destruct (m s) as [[a|e] s1]; [eauto | discriminate].
Qed.

Lemma try_catch_inv_ok {S A} (m : M S A) (h : thrown -> M S A) s a s' :
  try_catch m h s = (Ok a, s') ->
  m s = (Ok a, s') \/ exists e s1, m s = (Throw e, s1) /\ h e s1 = (Ok a, s').
Proof.
  unfold try_catch. destruct (m s) as [[a'|e] s1]; [now left | right; eauto].
Qed.

Section CacheFacts.

Variable E : Env.

Lemma keeps_cache_get url audioOnly : keeps_cache (cache_get E url audioOnly).
Proof. unfold cache_get. frame_auto. Qed.

Lemma keeps_tikwm_getVideoInfo url : keeps_cache (Tikwm.getVideoInfo E url).
Proof. unfold Tikwm.getVideoInfo. frame_auto. Qed.

Lemma keeps_ytdlp_getVideoInfo url : keeps_cache (YtDlp.getVideoInfo E url).
Proof. unfold YtDlp.getVideoInfo. frame_auto. Qed.

Lemma silent_cache_get url audioOnly : silent calls (cache_get E url audioOnly).
Proof.
  intros w. unfold cache_get, try_catch, bind, access, console_log, readFile, ret.
  destruct (fs_fault E OpAccess _); [reflexivity|].
  destruct (exists_at _ w); [|reflexivity]. simpl.
  destruct (fs_fault E OpReadFile _); [reflexivity|].
  destruct (cache _ !! _); reflexivity.
Qed.

(** The four ways the look-up can go. *)
Lemma cache_get_hit url audioOnly w content :
  fs_fault E OpAccess (cachedFile_of E url audioOnly) = None ->
  fs_fault E OpReadFile (cachedFile_of E url audioOnly) = None ->
  cache w !! (getCacheKey E url +:+ "." +:+ extension_of audioOnly) = Some content ->
  cache_get E url audioOnly w
  = (Ok (Some {| buffer := content;
                 filename := "tiktok_" +:+ getCacheKey E url +:+ "."
                             +:+ extension_of audioOnly;
                 contentType := contentType_of audioOnly;
                 cached := true |}),
     record_line LogInfo ("Found cached file for: " +:+ url) w).
Proof.
  unfold cachedFile_of. intros Ha Hr Hc.
  unfold cache_get, try_catch, bind, access, console_log, readFile, ret.
  rewrite Ha. unfold exists_at. rewrite Hc.
  rewrite bool_decide_eq_true_2 by eauto.
  rewrite Hr. simpl. now rewrite Hc.
Qed.

Lemma cache_get_absent url audioOnly w :
  fs_fault E OpAccess (cachedFile_of E url audioOnly) = None ->
  cache w !! (getCacheKey E url +:+ "." +:+ extension_of audioOnly) = None ->
  cache_get E url audioOnly w = (Ok None, w).
Proof.
  unfold cachedFile_of. intros Ha Hc.
  unfold cache_get, try_catch, bind, access.
  rewrite Ha. unfold exists_at. rewrite Hc.
  rewrite bool_decide_eq_false_2; [reflexivity|].
  intros [x Hx]. discriminate.
Qed.

Lemma cache_get_access_fault url audioOnly w e :
  fs_fault E OpAccess (cachedFile_of E url audioOnly) = Some e ->
  cache_get E url audioOnly w = (Ok None, w).
Proof.
  unfold cachedFile_of. intros Ha.
  unfold cache_get, try_catch, bind, access. now rewrite Ha.
Qed.

Lemma cache_get_read_fault url audioOnly w e content :
  fs_fault E OpAccess (cachedFile_of E url audioOnly) = None ->
  cache w !! (getCacheKey E url +:+ "." +:+ extension_of audioOnly) = Some content ->
  fs_fault E OpReadFile (cachedFile_of E url audioOnly) = Some e ->
  cache_get E url audioOnly w
  = (Ok None, record_line LogInfo ("Found cached file for: " +:+ url) w).
Proof.
  unfold cachedFile_of. intros Ha Hc Hr.
  unfold cache_get, try_catch, bind, access, console_log, readFile, ret.
  rewrite Ha. unfold exists_at. rewrite Hc.
  rewrite bool_decide_eq_true_2 by eauto.
  now rewrite Hr.
Qed.

(** What a hit returns is the file, marked as cached. *)
Lemma cache_get_some url audioOnly w media w' :
  cache_get E url audioOnly w = (Ok (Some media), w') ->
  cached media = true
  /\ cache w !! (getCacheKey E url +:+ "." +:+ extension_of audioOnly)
     = Some (buffer media)
  /\ fs_fault E OpAccess (cachedFile_of E url audioOnly) = None
  /\ fs_fault E OpReadFile (cachedFile_of E url audioOnly) = None.
Proof.
  unfold cachedFile_of.
  unfold cache_get, try_catch, bind, access, console_log, readFile, ret.
  destruct (fs_fault E OpAccess _); [discriminate|].
  destruct (exists_at _ w); [|discriminate]. simpl.
  destruct (fs_fault E OpReadFile _); [discriminate|].
  destruct (cache _ !! _) as [content|] eqn:Hc; [|discriminate].
  intros [= <- <-]. simpl. auto.
Qed.

Lemma cache_put_runs p content w :
  exists w', cache_put E p content w = (Ok tt, w') /\ calls w' = calls w.
Proof.
  unfold cache_put, try_catch, bind, writeFile, console_log, console_warn.
  destruct (fs_fault E OpWriteFile p); [eauto|].
  destruct p as [|name|name]; simpl; eauto.
  destruct (cache_dir w); eauto.
Qed.

Lemma cache_put_fault p content w e :
  fs_fault E OpWriteFile p = Some e ->
  cache_put E p content w
  = (Ok tt, record_line LogWarn ("Failed to save to cache: " +:+ thrown_to_string e) w).
Proof.
  intros H. unfold cache_put, try_catch, bind, writeFile, console_warn.
  now rewrite H.
Qed.

Lemma cache_put_stores name content w :
  fs_fault E OpWriteFile (InCache name) = None -> cache_dir w = true ->
  exists w', cache_put E (InCache name) content w = (Ok tt, w')
             /\ cache w' = <[name := content]> (cache w)
             /\ cache_dir w' = true
             /\ calls w' = calls w.
Proof.
  intros Hf Hd. unfold cache_put, try_catch, bind, writeFile, console_log.
  rewrite Hf, Hd. simpl. eauto.
Qed.

Lemma ignore_unlink_runs name w :
  exists w', try_catch (unlink E (InTmp name)) (fun _ => ret tt) w = (Ok tt, w')
             /\ same_cache w w' /\ calls w' = calls w /\ console w' = console w.
Proof.
  unfold try_catch, unlink, ret.
  destruct (fs_fault E OpUnlink (InTmp name)).
  - exists w. repeat split; reflexivity.
  - destruct (tmp w !! name); eexists; repeat split; reflexivity.
Qed.

End CacheFacts.

#[export] Hint Resolve keeps_cache_get keeps_tikwm_getVideoInfo
  keeps_ytdlp_getVideoInfo : frame.

(** ** Download-URL selection (tikwm variant) *)

(** C4.  On a cache miss, with the metadata in hand, [downloadMedia] of
    the tikwm variant takes the audio-track URL ([music]) in audio-only
    mode and otherwise the first of [hdplay], [play], [wmplay] that is
    there.  When the URL so chosen is absent or empty it throws
    NoDownloadUrl without fetching anything; otherwise it fetches exactly
    that URL, and throws DownloadFailed when the answer has a non-success
    status or the transport fails. *)
Theorem media_url_is_chosen_by_priority
    (E : Env) (url : string) (audioOnly : bool) (w w1 w2 w3 : World)
    (info : TikwmVideoInfo) :
  initCacheDir E w = (Ok tt, w1) ->
  cache_get E url audioOnly w1 = (Ok None, w2) ->
  Tikwm.getVideoInfo E url w2 = (Ok info, w3) ->
  (audioOnly = true -> Tikwm.choose_url info audioOnly = music info)
  /\ (audioOnly = false -> truthy_str (hdplay info) = true ->
      Tikwm.choose_url info audioOnly = hdplay info)
  /\ (audioOnly = false -> truthy_str (hdplay info) = false ->
      truthy_str (play info) = true ->
      Tikwm.choose_url info audioOnly = play info)
  /\ (audioOnly = false -> truthy_str (hdplay info) = false ->
      truthy_str (play info) = false ->
      Tikwm.choose_url info audioOnly = wmplay info)
  /\ (truthy_str (Tikwm.choose_url info audioOnly) = false ->
      Tikwm.downloadMedia E url audioOnly w = (Throw NoDownloadUrl, w3))
  /\ (truthy_str (Tikwm.choose_url info audioOnly) = true ->
      calls (snd (Tikwm.downloadMedia E url audioOnly w))
      = calls w3 ++ [Fetch (the_string (Tikwm.choose_url info audioOnly))]
      /\ (forall r,
            http_get E (the_string (Tikwm.choose_url info audioOnly)) = Responded r ->
            ok r = false ->
            fst (Tikwm.downloadMedia E url audioOnly w)
            = Throw (DownloadFailed ("Failed to download media: " +:+ pretty (status r)
                                     +:+ " " +:+ statusText r)))
      /\ (forall e,
            http_get E (the_string (Tikwm.choose_url info audioOnly)) = Rejected e ->
            fst (Tikwm.downloadMedia E url audioOnly w)
            = Throw (DownloadFailed (message_or_unknown e)))).
Proof.
  intros Hinit Hget Hinfo.
  assert (Hrun : Tikwm.downloadMedia E url audioOnly w
          = try_catch
              (let* videoInfo := Tikwm.getVideoInfo E url in
               let downloadUrl := Tikwm.choose_url videoInfo audioOnly in
               if negb (truthy_str downloadUrl) then
                 throw (new_Error "No suitable download URL found")
               else
                 let* response := fetch E (the_string downloadUrl) in
                 if negb (ok response) then
                   throw (new_Error ("Failed to download media: "
                                     +:+ pretty (status response)
                                     +:+ " " +:+ statusText response))
                 else
                   cache_put E (InCache (getCacheKey E url +:+ "."
                                         +:+ extension_of audioOnly)) (body response) ;;
                   ret {| buffer := body response;
                          filename := "tiktok_" +:+ getCacheKey E url +:+ "."
                                      +:+ extension_of audioOnly;
                          contentType := contentType_of audioOnly;
                          cached := false |})
              (fun error =>
                 throw (new_Error ("Failed to download media: "
                                   +:+ message_or_unknown error))) w2).
  { unfold Tikwm.downloadMedia.
    rewrite (bind_ok _ _ _ _ _ Hinit). cbv zeta.
    rewrite (bind_ok _ _ _ _ _ Hget). reflexivity. }
  repeat split.
  - intros ->. reflexivity.
  - intros -> Hhd. unfold Tikwm.choose_url, js_or. now rewrite Hhd, Hhd.
  - intros -> Hhd Hp. unfold Tikwm.choose_url, js_or. now rewrite Hhd, Hp.
  - intros -> Hhd Hp. unfold Tikwm.choose_url, js_or. now rewrite Hhd, Hp.
  - intros Hno. rewrite Hrun. unfold try_catch.
    rewrite (bind_ok _ _ _ _ _ Hinfo). cbv zeta. rewrite Hno. reflexivity.
  - rewrite Hrun. unfold try_catch.
    rewrite (bind_ok _ _ _ _ _ Hinfo). cbv zeta. rewrite H. simpl negb. cbv iota.
    unfold bind at 1, fetch.
    destruct (http_get E _) as [e|r]; [reflexivity|].
    destruct (ok r); simpl; [|reflexivity].
    destruct (cache_put_runs E (InCache (getCacheKey E url +:+ "."
                                         +:+ extension_of audioOnly)) (body r)
                (record_call (Fetch (the_string (Tikwm.choose_url info audioOnly))) w3))
      as (w' & Hput & Hcalls).
    rewrite (bind_ok _ _ _ _ _ Hput). simpl. exact Hcalls.
  - intros r Hr Hok. rewrite Hrun. unfold try_catch.
    rewrite (bind_ok _ _ _ _ _ Hinfo). cbv zeta. rewrite H. simpl negb. cbv iota.
    unfold bind at 1, fetch. rewrite Hr, Hok. reflexivity.
  - intros e He. rewrite Hrun. unfold try_catch.
    rewrite (bind_ok _ _ _ _ _ Hinfo). cbv zeta. rewrite H. simpl negb. cbv iota.
    unfold bind at 1, fetch. rewrite He. reflexivity.
Qed.

(** ** What the cache look-up does with I/O errors *)

(** The look-up never throws and makes no outbound call; it reports a
    miss whenever the existence check or the read fails, and returns the
    bytes of the file otherwise. *)
Lemma cache_get_outcome
    (E : Env) (url : string) (audioOnly : bool) (w : World) :
  exists o w',
    cache_get E url audioOnly w = (Ok o, w')
    /\ calls w' = calls w
    /\ (o = None <->
        fs_fault E OpAccess (cachedFile_of E url audioOnly) <> None
        \/ cache w !! (getCacheKey E url +:+ "." +:+ extension_of audioOnly) = None
        \/ fs_fault E OpReadFile (cachedFile_of E url audioOnly) <> None)
    /\ (forall media, o = Some media ->
        cached media = true
        /\ cache w !! (getCacheKey E url +:+ "." +:+ extension_of audioOnly)
           = Some (buffer media)).
Proof.
  destruct (fs_fault E OpAccess (cachedFile_of E url audioOnly)) as [e|] eqn:Ha.
  { exists None, w. rewrite (cache_get_access_fault E url audioOnly w e Ha).
    split; [reflexivity|]. split; [reflexivity|]. split.
    - split; [intros _; left; discriminate | reflexivity].
    - discriminate. }
  destruct (cache w !! (getCacheKey E url +:+ "." +:+ extension_of audioOnly))
    as [content|] eqn:Hc.
  2:{ exists None, w. rewrite (cache_get_absent E url audioOnly w Ha Hc).
      split; [reflexivity|]. split; [reflexivity|]. split.
      - split; [intros _; right; now left | reflexivity].
      - discriminate. }
  destruct (fs_fault E OpReadFile (cachedFile_of E url audioOnly)) as [e|] eqn:Hr.
  { eexists None, _. rewrite (cache_get_read_fault E url audioOnly w e content Ha Hc Hr).
    split; [reflexivity|]. split; [reflexivity|]. split.
    - split; [intros _; right; right; discriminate | reflexivity].
    - discriminate. }
  eexists (Some _), _. rewrite (cache_get_hit E url audioOnly w content Ha Hr Hc).
  split; [reflexivity|]. split; [reflexivity|]. split.
  - split; [discriminate | intros [H | [H | H]]; congruence].
  - intros media [= <-]. simpl. auto.
Qed.

(** ** The cache write is best-effort *)

Lemma cache_put_world (E : Env) p content w u w' :
  cache_put E p content w = (Ok u, w') -> calls w' = calls w.
Proof.
  intros H. destruct (cache_put_runs E p content w) as (x & Hx & Hc).
  rewrite Hx in H. now injection H as _ <-.
Qed.

Lemma throw_is_not_ok {S A} (e : thrown) s (a : A) s' :
  @throw S A e s = (Ok a, s') -> False.
Proof. discriminate. Qed.

Lemma tikwm_download_survives_write_fault
    (E : Env) (f : Path -> option thrown) url audioOnly w media w1 :
  Tikwm.downloadMedia E url audioOnly w = (Ok media, w1) ->
  cached media = false ->
  exists w2,
    Tikwm.downloadMedia (with_write_fault f E) url audioOnly w = (Ok media, w2)
    /\ calls w2 = calls w1
    /\ (forall e, f (cachedFile_of E url audioOnly) = Some e ->
        In (LogWarn, "Failed to save to cache: " +:+ thrown_to_string e) (console w2)).
Proof.
  intros H Hc. unfold Tikwm.downloadMedia in *.
  apply bind_inv_ok in H as (u & wa & Hinit & H). cbv zeta in H.
  apply bind_inv_ok in H as (hit & wb & Hget & H).
  destruct hit as [m0|].
  { injection H as <- <-. apply cache_get_some in Hget as (Hcached & _). congruence. }
  apply try_catch_inv_ok in H as [H | (e & s1 & _ & H)];
    [|now apply throw_is_not_ok in H].
  apply bind_inv_ok in H as (info & wc & Hinfo & H). cbv zeta in H.
  destruct (truthy_str (Tikwm.choose_url info audioOnly)) eqn:Ht; simpl in H;
    [|now apply throw_is_not_ok in H].
  apply bind_inv_ok in H as (resp & wd & Hfetch & H).
  destruct (ok resp) eqn:Hok; simpl in H; [|now apply throw_is_not_ok in H].
  apply bind_inv_ok in H as (u2 & we & Hput & H). injection H as <- <-.
  rewrite (bind_ok (initCacheDir (with_write_fault f E)) _ w u wa Hinit). cbv zeta.
  rewrite (bind_ok (cache_get (with_write_fault f E) url audioOnly) _ wa None wb Hget).
  unfold try_catch.
  rewrite (bind_ok (Tikwm.getVideoInfo (with_write_fault f E) url) _ wb info wc Hinfo).
  cbv zeta. rewrite Ht. cbn [negb].
  rewrite (bind_ok (fetch (with_write_fault f E) _) _ wc resp wd Hfetch).
  rewrite Hok. cbn [negb].
  set (cf := InCache (getCacheKey (with_write_fault f E) url +:+ "."
                      +:+ extension_of audioOnly)).
  destruct (cache_put_runs (with_write_fault f E) cf (body resp) wd)
    as (we' & Hput' & Hcalls').
  rewrite (bind_ok _ _ _ _ _ Hput'). simpl.
  eexists. split; [reflexivity|]. split.
  - rewrite Hcalls'. symmetry. eapply cache_put_world, Hput.
  - intros e He.
    rewrite (cache_put_fault (with_write_fault f E) cf (body resp) wd e He) in Hput'.
    injection Hput' as <-. simpl. apply in_or_app. right. now left.
Qed.

Lemma ytdlp_download_survives_write_fault
    (E : Env) (f : Path -> option thrown) url audioOnly w media w1 :
  YtDlp.downloadMedia E url audioOnly w = (Ok media, w1) ->
  cached media = false ->
  exists w2,
    YtDlp.downloadMedia (with_write_fault f E) url audioOnly w = (Ok media, w2)
    /\ calls w2 = calls w1
    /\ (forall e, f (cachedFile_of E url audioOnly) = Some e ->
        In (LogWarn, "Failed to save to cache: " +:+ thrown_to_string e) (console w2)).
Proof.
  intros H Hc. unfold YtDlp.downloadMedia in *.
  apply bind_inv_ok in H as (u & wa & Hinit & H). cbv zeta in H.
  apply bind_inv_ok in H as (hit & wb & Hget & H).
  destruct hit as [m0|].
  { injection H as <- <-. apply cache_get_some in Hget as (Hcached & _). congruence. }
  apply bind_inv_ok in H as (timestamp & wc & Hnow & H).
  apply bind_inv_ok in H as (run & wd & Hspawn & H).
  destruct run as [message | exit_code out err written];
    [now apply throw_is_not_ok in H|].
  destruct (exit_code =? 0) eqn:Hcode; [|now apply throw_is_not_ok in H].
  apply try_catch_inv_ok in H as [H | (e & s1 & _ & H)];
    [|now apply throw_is_not_ok in H].
  cbv zeta in H.
  apply bind_inv_ok in H as (content & we & Hread & H).
  apply bind_inv_ok in H as (u2 & wf & Hput & H).
  apply bind_inv_ok in H as (u3 & wg & Hunlink & H). injection H as <- <-.
  rewrite (bind_ok (initCacheDir (with_write_fault f E)) _ w u wa Hinit). cbv zeta.
  rewrite (bind_ok (cache_get (with_write_fault f E) url audioOnly) _ wa None wb Hget).
  rewrite (bind_ok (Date_now (with_write_fault f E)) _ wb timestamp wc Hnow).
  rewrite (bind_ok (spawn (with_write_fault f E) _ _) _ wc _ wd Hspawn).
  rewrite Hcode. unfold try_catch at 1.
  rewrite (bind_ok (readFile (with_write_fault f E) _) _ wd content we Hread).
  set (cf := InCache (getCacheKey (with_write_fault f E) url +:+ "."
                      +:+ extension_of audioOnly)).
  destruct (cache_put_runs (with_write_fault f E) cf content we)
    as (wf' & Hput' & Hcalls').
  rewrite (bind_ok _ _ _ _ _ Hput').
  destruct (ignore_unlink_runs (with_write_fault f E)
              ("tiktok_" +:+ pretty timestamp +:+ "." +:+ extension_of audioOnly) wf')
    as (wg' & Hunlink' & _ & Hcalls'' & Hconsole'').
  rewrite (bind_ok _ _ _ _ _ Hunlink'). simpl.
  eexists. split; [reflexivity|]. split.
  - rewrite Hcalls'', Hcalls'.
    destruct (ignore_unlink_runs E
                ("tiktok_" +:+ pretty timestamp +:+ "." +:+ extension_of audioOnly) wf)
      as (x & Hx & _ & Hcx & _).
    rewrite Hx in Hunlink. injection Hunlink as _ <-.
    rewrite Hcx. symmetry. eapply cache_put_world, Hput.
  - intros e He. rewrite Hconsole''.
    rewrite (cache_put_fault (with_write_fault f E) cf content we e He) in Hput'.
    injection Hput' as <-. simpl. apply in_or_app. right. now left.
Qed.

(** C8.  Take any call of [downloadMedia] that downloads successfully
    (it returns with [cached = false]).  Make the cache write fail in
    whatever way, leaving everything else as it is: the call still
    returns the very same result, with the same outbound calls, and the
    failure shows only as a warning line on the console. *)
Theorem cache_write_failure_never_fails_the_request
    (E : Env) (v : Variant) (f : Path -> option thrown)
    (url : string) (audioOnly : bool) (w w1 : World) (media : Media) :
  downloadMedia E v url audioOnly w = (Ok media, w1) ->
  cached media = false ->
  exists w2,
    downloadMedia (with_write_fault f E) v url audioOnly w = (Ok media, w2)
    /\ calls w2 = calls w1
    /\ (forall e, f (cachedFile_of E url audioOnly) = Some e ->
        In (LogWarn, "Failed to save to cache: " +:+ thrown_to_string e) (console w2)).
Proof.
  destruct v; simpl.
  - apply tikwm_download_survives_write_fault.
  - apply ytdlp_download_survives_write_fault.
Qed.

(** ** Cache idempotence *)

Lemma initCacheDir_post (E : Env) w wa :
  initCacheDir E w = (Ok tt, wa) ->
  cache_dir wa = true /\ cache wa = cache w
  /\ (forall w2, cache_dir w2 = true ->
      exists w2', initCacheDir E w2 = (Ok tt, w2')
                  /\ same_cache w2 w2' /\ calls w2' = calls w2).
Proof.
  unfold initCacheDir, try_catch, access, bind, mkdir_recursive, console_log.
  destruct (fs_fault E OpAccess CacheDirPath) as [e|] eqn:Ha.
  - destruct (fs_fault E OpMkdir CacheDirPath) as [e'|] eqn:Hm; [discriminate|].
    intros [= <-]. simpl. repeat split; auto.
    intros w2 Hd. eexists. split; [reflexivity|]. simpl. repeat split; auto.
  - unfold exists_at. destruct (cache_dir w) eqn:Hd.
    + intros [= <-]. repeat split; auto.
      intros w2 Hd2. rewrite Hd2. exists w2. repeat split; auto.
    + destruct (fs_fault E OpMkdir CacheDirPath) as [e'|] eqn:Hm; [discriminate|].
      intros [= <-]. simpl. repeat split; auto.
      intros w2 Hd2. rewrite Hd2. exists w2. repeat split; auto.
Qed.

Lemma run_keeps_cache {A} (m : M World A) w r w' :
  keeps_cache m -> m w = (r, w') -> same_cache w w'.
Proof. intros Hk H. specialize (Hk w). now rewrite H in Hk. Qed.

(** A call that finds the file readable in the cache. *)
Lemma download_is_a_hit (E : Env) (v : Variant) url audioOnly w content :
  cache_file_is_sound E url audioOnly ->
  (exists w', initCacheDir E w = (Ok tt, w') /\ same_cache w w' /\ calls w' = calls w) ->
  cache w !! (getCacheKey E url +:+ "." +:+ extension_of audioOnly) = Some content ->
  exists media w3,
    downloadMedia E v url audioOnly w = (Ok media, w3)
    /\ buffer media = content /\ cached media = true /\ calls w3 = calls w.
Proof.
  intros Hsound (w' & Hinit & [_ Hsame] & Hcalls) Hfile.
  rewrite <- Hsame in Hfile.
  pose proof (cache_get_hit E url audioOnly w' content
                (Hsound OpAccess) (Hsound OpReadFile) Hfile) as Hget.
  destruct v; simpl.
  - unfold Tikwm.downloadMedia.
    rewrite (bind_ok _ _ _ _ _ Hinit). cbv zeta.
    rewrite (bind_ok _ _ _ _ _ Hget).
    do 2 eexists. split; [reflexivity|]. simpl. auto.
  - unfold YtDlp.downloadMedia.
    rewrite (bind_ok _ _ _ _ _ Hinit). cbv zeta.
    rewrite (bind_ok _ _ _ _ _ Hget).
    do 2 eexists. split; [reflexivity|]. simpl. auto.
Qed.

(** What a returning call leaves behind when the cache file is sound. *)
Lemma tikwm_download_leaves_the_file (E : Env) url audioOnly w media w1 :
  cache_file_is_sound E url audioOnly ->
  Tikwm.downloadMedia E url audioOnly w = (Ok media, w1) ->
  cache_dir w1 = true
  /\ cache w1 !! (getCacheKey E url +:+ "." +:+ extension_of audioOnly)
     = Some (buffer media).
Proof.
  intros Hsound H. unfold Tikwm.downloadMedia in H.
  apply bind_inv_ok in H as ([] & wa & Hinit & H). cbv zeta in H.
  apply initCacheDir_post in Hinit as (Hdir & _ & _).
  apply bind_inv_ok in H as (hit & wb & Hget & H).
  pose proof (run_keeps_cache _ _ _ _ (keeps_cache_get E url audioOnly) Hget)
    as [Hdb Hcb].
  destruct hit as [m0|].
  { injection H as <- <-. apply cache_get_some in Hget as (_ & Hfile & _).
    split; congruence. }
  apply try_catch_inv_ok in H as [H | (e & s1 & _ & H)];
    [|now apply throw_is_not_ok in H].
  apply bind_inv_ok in H as (info & wc & Hinfo & H). cbv zeta in H.
  pose proof (run_keeps_cache _ _ _ _ (keeps_tikwm_getVideoInfo E url) Hinfo)
    as [Hdc Hcc].
  destruct (truthy_str (Tikwm.choose_url info audioOnly)) eqn:Ht; simpl in H;
    [|now apply throw_is_not_ok in H].
  apply bind_inv_ok in H as (resp & wd & Hfetch & H).
  pose proof (run_keeps_cache _ _ _ _ (keeps_fetch E _) Hfetch) as [Hdd Hcd].
  destruct (ok resp) eqn:Hok; simpl in H; [|now apply throw_is_not_ok in H].
  apply bind_inv_ok in H as (u2 & we & Hput & H). injection H as <- <-.
  destruct (cache_put_stores E (getCacheKey E url +:+ "." +:+ extension_of audioOnly)
              (body resp) wd (Hsound OpWriteFile)) as (x & Hx & Hcx & Hdx & _).
  { congruence. }
  rewrite Hx in Hput. injection Hput as _ <-. simpl.
  split; [assumption|]. rewrite Hcx. apply lookup_insert_eq.
Qed.

Lemma ytdlp_download_leaves_the_file (E : Env) url audioOnly w media w1 :
  cache_file_is_sound E url audioOnly ->
  YtDlp.downloadMedia E url audioOnly w = (Ok media, w1) ->
  cache_dir w1 = true
  /\ cache w1 !! (getCacheKey E url +:+ "." +:+ extension_of audioOnly)
     = Some (buffer media).
Proof.
  intros Hsound H. unfold YtDlp.downloadMedia in H.
  apply bind_inv_ok in H as ([] & wa & Hinit & H). cbv zeta in H.
  apply initCacheDir_post in Hinit as (Hdir & _ & _).
  apply bind_inv_ok in H as (hit & wb & Hget & H).
  pose proof (run_keeps_cache _ _ _ _ (keeps_cache_get E url audioOnly) Hget)
    as [Hdb Hcb].
  destruct hit as [m0|].
  { injection H as <- <-. apply cache_get_some in Hget as (_ & Hfile & _).
    split; congruence. }
  apply bind_inv_ok in H as (timestamp & wc & Hnow & H).
  pose proof (run_keeps_cache _ _ _ _ (keeps_Date_now E) Hnow) as [Hdc Hcc].
  apply bind_inv_ok in H as (run & wd & Hspawn & H).
  pose proof (run_keeps_cache _ _ _ _ (keeps_spawn E _ _) Hspawn) as [Hdd Hcd].
  destruct run as [message | exit_code out err written];
    [now apply throw_is_not_ok in H|].
  destruct (exit_code =? 0) eqn:Hcode; [|now apply throw_is_not_ok in H].
  apply try_catch_inv_ok in H as [H | (e & s1 & _ & H)];
    [|now apply throw_is_not_ok in H].
  cbv zeta in H.
  apply bind_inv_ok in H as (content & we & Hread & H).
  pose proof (run_keeps_cache _ _ _ _ (keeps_readFile E _) Hread) as [Hde Hce].
  apply bind_inv_ok in H as (u2 & wf & Hput & H).
  apply bind_inv_ok in H as (u3 & wg & Hunlink & H). injection H as <- <-.
  destruct (cache_put_stores E (getCacheKey E url +:+ "." +:+ extension_of audioOnly)
              content we (Hsound OpWriteFile)) as (x & Hx & Hcx & Hdx & _).
  { congruence. }
  rewrite Hx in Hput. injection Hput as _ <-.
  destruct (ignore_unlink_runs E
              ("tiktok_" +:+ pretty timestamp +:+ "." +:+ extension_of audioOnly) x)
    as (y & Hy & [Hdy Hcy] & _).
  rewrite Hy in Hunlink. injection Hunlink as _ <-. simpl.
  split; [congruence|]. rewrite Hcy, Hcx. apply lookup_insert_eq.
Qed.

(** C3, as amended.  Provided no I/O fault is raised on the cache file
    (its existence check, its read and its write succeed), whenever a
    first call of [downloadMedia] returns, a second call with the same URL
    and the same [audioOnly] flag returns the same bytes with
    [cached = true] and makes no outbound call. *)
Theorem second_download_is_served_from_the_cache
    (E : Env) (v : Variant) (url : string) (audioOnly : bool) (w : World) :
  cache_file_is_sound E url audioOnly ->
  second_call_is_a_hit E v url audioOnly w.
Proof.
  intros Hsound. unfold second_call_is_a_hit.
  destruct (downloadMedia E v url audioOnly w) as [[first|e] w1] eqn:H1; [|exact I].
  assert (cache_dir w1 = true
          /\ cache w1 !! (getCacheKey E url +:+ "." +:+ extension_of audioOnly)
             = Some (buffer first)) as [Hdir Hfile].
  { destruct v; simpl in H1.
    - now apply (tikwm_download_leaves_the_file E url audioOnly w).
    - now apply (ytdlp_download_leaves_the_file E url audioOnly w). }
  assert (exists w', initCacheDir E w1 = (Ok tt, w')
                     /\ same_cache w1 w' /\ calls w' = calls w1) as Hinit.
  { destruct v; simpl in H1.
    - unfold Tikwm.downloadMedia in H1.
      apply bind_inv_ok in H1 as ([] & wa & Hi & _).
      apply initCacheDir_post in Hi as (_ & _ & Hagain). now apply Hagain.
    - unfold YtDlp.downloadMedia in H1.
      apply bind_inv_ok in H1 as ([] & wa & Hi & _).
      apply initCacheDir_post in Hi as (_ & _ & Hagain). now apply Hagain. }
  destruct (download_is_a_hit E v url audioOnly w1 (buffer first) Hsound Hinit Hfile)
    as (second & w2 & H2 & Hb & Hc & Hcalls).
  rewrite H2. auto.
Qed.

(** ** Debug information on the error paths *)


Ltac returns_with leaf :=
  cbv zeta;
  repeat match goal with
         | |- returns _ (bind _ _) => apply returns_bind; intros ?
         | |- returns _ (try_catch _ _) => apply returns_try_catch; [|intros ?]
         | |- returns _ (ret _) => apply returns_ret; leaf
         | |- returns _ (throw _) => apply returns_throw
         | |- returns _ (with_timing _ _) => apply returns_with_timing
         | |- returns _ (if ?b then _ else _) => destruct b
         | |- returns _ (match ?x with _ => _ end) => destruct x
         end.

Section DebugOnErrors.

Variable E : Env.
Variable Md : Type.
Variable getVideoInfo : string -> M World Md.
Variable downloadMedia : string -> bool -> M World Media.
Variable md_title : Md -> string.
Variable md_author : Md -> string.
Variable md_duration : Md -> float.
Variable response_metadata : Md -> string -> Z -> bool -> ResponseMetadata.


End DebugOnErrors.


(** * Further properties of the code *)

(** ** More reasoning about monadic code *)

Lemma returns_bind_with {S A B} (P : A -> Prop) (Q : B -> Prop)
    (m : M S A) (k : A -> M S B) :
  returns P m -> (forall a, P a -> returns Q (k a)) -> returns Q (bind m k).
Proof.
  intros Hm Hk s. unfold bind. specialize (Hm s).
  destruct (m s) as [[a|e] s1]; simpl in *; [|exact I].
  apply (Hk a Hm s1).
Qed.

Lemma returns_run {S A} (Q : A -> Prop) (m : M S A) s a s' :
  returns Q m -> m s = (Ok a, s') -> Q a.
Proof. intros H Hr. specialize (H s). now rewrite Hr in H. Qed.

Lemma returns_io {A} (Q : A -> Prop) (m : M World A) :
  returns Q m -> returns (S := Timing * World) Q (io m).
Proof.
  intros H [t w]. unfold io. simpl. specialize (H w). now destruct (m w).
Qed.

Lemma monotone_bind_returns {S A B} (R : S -> S -> Prop) (Q : A -> Prop)
    (m : M S A) (k : A -> M S B) :
  (forall s1 s2 s3, R s1 s2 -> R s2 s3 -> R s1 s3) ->
  returns Q m -> monotone R m -> (forall a, Q a -> monotone R (k a)) ->
  monotone R (bind m k).
Proof.
  intros Rt Hq Hm Hk s. unfold bind. specialize (Hq s). specialize (Hm s).
  destruct (m s) as [[a|e] s1]; simpl in *; [|exact Hm].
  exact (Rt _ _ _ Hm (Hk a Hq s1)).
Qed.

Section ThrowsOnly.

Context {S : Type}.
Variable P : thrown -> Prop.

Lemma throws_only_ret {A} (a : A) : throws_only (S := S) P (ret a).
Proof. intros s. exact I. Qed.

Lemma throws_only_throw {A} e : P e -> throws_only (S := S) (A := A) P (throw e).
Proof. intros H s. exact H. Qed.

Lemma throws_only_bind {A B} (m : M S A) (k : A -> M S B) :
  throws_only P m -> (forall a, throws_only P (k a)) -> throws_only P (bind m k).
Proof.
  intros Hm Hk s. unfold bind. specialize (Hm s).
  destruct (m s) as [[a|e] s1]; simpl in *; [apply Hk | exact Hm].
Qed.

Lemma throws_only_try_catch {A} (m : M S A) (h : thrown -> M S A) :
  (forall e, throws_only P (h e)) -> throws_only P (try_catch m h).
Proof.
  intros Hh s. unfold try_catch.
  destruct (m s) as [[a|e] s1]; simpl; [exact I | apply Hh].
Qed.

Lemma throws_only_of_never {A} (m : M S A) : never_throws m -> throws_only P m.
Proof. intros H s. destruct (H s) as [a Ha]. now rewrite Ha. Qed.

End ThrowsOnly.

Lemma throws_only_io {A} P (m : M World A) :
  throws_only P m -> throws_only (S := Timing * World) P (io m).
Proof.
  intros H [t w]. unfold io. simpl. specialize (H w). now destruct (m w).
Qed.

Lemma throws_run {S A} (P : thrown -> Prop) (m : M S A) s e s' :
  throws_only P m -> m s = (Throw e, s') -> P e.
Proof. intros H Hr. specialize (H s). now rewrite Hr in H. Qed.

Lemma new_Error_no_timeout m : no_timeout (new_Error m).
Proof. split; discriminate. Qed.

Ltac throws_step :=
  match goal with
  | |- throws_only _ (bind _ _) => apply throws_only_bind; [|intros ?]
  | |- throws_only _ (try_catch _ _) => apply throws_only_try_catch; intros ?
  | |- throws_only _ (ret _) => apply throws_only_ret
  | |- throws_only _ (throw (new_Error _)) =>
      apply throws_only_throw, new_Error_no_timeout
  | |- throws_only _ (io _) => apply throws_only_io
  | |- throws_only _ (if ?b then _ else _) => destruct b
  | |- throws_only _ (match ?x with _ => _ end) => destruct x
  end.

(** *** Relations that every step of a request preserves *)

Section Lifted.

Variable R : World -> World -> Prop.
Hypothesis R_refl : forall w, R w w.
Hypothesis R_trans : forall w1 w2 w3, R w1 w2 -> R w2 w3 -> R w1 w3.

Lemma lifted_refl s : lifted R s s.
Proof. apply R_refl. Qed.

Lemma lifted_trans s1 s2 s3 : lifted R s1 s2 -> lifted R s2 s3 -> lifted R s1 s3.
Proof. apply R_trans. Qed.

Lemma monotone_io {A} (m : M World A) : monotone R m -> monotone (lifted R) (io m).
Proof.
  intros H [t w]. unfold io, lifted. simpl. specialize (H w).
  destruct (m w) as [r w']. exact H.
Qed.

Lemma monotone_update f : monotone (lifted R) (update f).
Proof. intros [t w]. apply R_refl. Qed.

Lemma monotone_read_timing : monotone (lifted R) read_timing.
Proof. intros [t w]. apply R_refl. Qed.

Lemma monotone_with_timing {A} t0 (m : M (Timing * World) A) :
  monotone (lifted R) m -> monotone R (with_timing t0 m).
Proof.
  intros H w. unfold with_timing. specialize (H (t0, w)).
  destruct (m (t0, w)) as [r s']. exact H.
Qed.

End Lifted.

Ltac preserved_step R_refl R_trans :=
  match goal with
  | |- monotone (lifted ?R) (bind _ _) =>
      apply (monotone_bind (lifted R) (lifted_trans R R_trans)); [|intros ?]
  | |- monotone (lifted ?R) (try_catch _ _) =>
      apply (monotone_try_catch (lifted R) (lifted_trans R R_trans)); [|intros ?]
  | |- monotone (lifted ?R) (ret _) => apply (monotone_ret (lifted R) (lifted_refl R R_refl))
  | |- monotone (lifted ?R) (throw _) =>
      apply (monotone_throw (lifted R) (lifted_refl R R_refl))
  | |- monotone (lifted ?R) (settle _) =>
      apply (monotone_settle (lifted R) (lifted_refl R R_refl))
  | |- monotone (lifted ?R) (io _) => apply (monotone_io R)
  | |- monotone (lifted ?R) (update _) => apply (monotone_update R R_refl)
  | |- monotone (lifted ?R) read_timing => apply (monotone_read_timing R R_refl)
  | |- monotone ?R (with_timing _ _) => apply (monotone_with_timing R)
  | |- monotone ?R (bind _ _) => apply (monotone_bind R R_trans); [|intros ?]
  | |- monotone ?R (try_catch _ _) => apply (monotone_try_catch R R_trans); [|intros ?]
  | |- monotone ?R (ret _) => apply (monotone_ret R R_refl)
  | |- monotone ?R (throw _) => apply (monotone_throw R R_refl)
  | |- monotone ?R (settle _) => apply (monotone_settle R R_refl)
  | |- monotone _ (if ?b then _ else _) => destruct b
  | |- monotone _ (match ?x with _ => _ end) => destruct x
  end.

Section PreservedByCaption.

Variable E : Env.
Variable Md : Type.
Variable getVideoInfo : string -> M World Md.
Variable downloadMedia : string -> bool -> M World Media.
Variable md_title : Md -> string.
Variable md_author : Md -> string.
Variable md_duration : Md -> float.
Variable response_metadata : Md -> string -> Z -> bool -> ResponseMetadata.

Variable R : World -> World -> Prop.
Hypothesis R_refl : forall w, R w w.
Hypothesis R_trans : forall w1 w2 w3, R w1 w2 -> R w2 w3 -> R w1 w3.
Hypothesis R_tick : forall w, R w (next_tick w).
Hypothesis R_line : forall l s w, R w (record_line l s w).
Hypothesis R_post : forall file ms, monotone R (fetch_post E (WHISPER_API_URL E) file ms).

Lemma preserved_Date_now : monotone R (Date_now E).
Proof. intros w. apply R_tick. Qed.

Lemma preserved_console_log line : monotone R (console_log line).
Proof. intros w. apply R_line. Qed.

Lemma preserved_console_error line : monotone R (console_error line).
Proof. intros w. apply R_line. Qed.

Lemma preserved_caption_acquire url audioOnly :
  monotone R (getVideoInfo url) -> monotone R (downloadMedia url audioOnly) ->
  monotone (lifted R)
    (caption_acquire E Md getVideoInfo downloadMedia md_title md_author url audioOnly).
Proof.
  intros R_info R_media. unfold caption_acquire. cbv zeta.
  repeat first
    [ preserved_step R_refl R_trans
    | apply preserved_Date_now | apply preserved_console_log
    | apply R_info | apply R_media ].
Qed.

Lemma preserved_caption_transcribe url audioOnly debug metadata media :
  monotone (lifted R)
    (caption_transcribe E Md md_duration response_metadata url audioOnly debug
       metadata media).
Proof.
  unfold caption_transcribe. cbv zeta.
  repeat first
    [ preserved_step R_refl R_trans
    | apply preserved_Date_now | apply preserved_console_error | apply R_post ].
Qed.

Lemma preserved_caption_catch debug e : monotone (lifted R) (caption_catch E debug e).
Proof.
  unfold caption_catch. cbv zeta.
  repeat first
    [ preserved_step R_refl R_trans
    | apply preserved_Date_now | apply preserved_console_error ].
Qed.

Lemma preserved_caption_handler c :
  (forall url, monotone R (getVideoInfo url)) ->
  (forall url audioOnly, monotone R (downloadMedia url audioOnly)) ->
  monotone R
    (caption_handler E Md getVideoInfo downloadMedia md_title md_author md_duration
       response_metadata c).
Proof.
  intros R_info R_media.
  unfold caption_handler, caption_pipeline, caption_try, destructure_url. cbv zeta.
  repeat first
    [ apply preserved_caption_acquire; [apply R_info | apply R_media]
    | apply preserved_caption_transcribe
    | apply preserved_caption_catch
    | preserved_step R_refl R_trans
    | apply preserved_Date_now ].
Qed.

End PreservedByCaption.

(** ** The URL pattern and the API URL *)

(** X1.  The URL pattern is anchored at the start only: a text that passes
    the validation still passes it with anything appended, so the
    validation does not delimit the host name. *)
Theorem accepted_url_stays_accepted_when_extended (s t : string) :
  rejects (JStr s) = Ok false -> rejects (JStr (s +:+ t)) = Ok false.
Proof.
  intros H. apply rejects_false_iff in H. apply rejects_false_iff.
  simpl in *. destruct H as (head & rest & Hin & ->).
  exists head, (rest +:+ t). split; [exact Hin|]. apply string_app_assoc.
Qed.

Lemma hex_digit_unreserved (a : ascii) :
  unreserved (hex_digit (nat_of_ascii a / 16)) = true
  /\ unreserved (hex_digit (nat_of_ascii a mod 16)) = true.
Proof. destruct a as [[] [] [] [] [] [] [] []]; split; reflexivity. Qed.

Lemma encoded_characters (s : string) (a : ascii) :
  In a (list_ascii_of_string (percent_encode s)) ->
  unreserved a = true \/ a = "%"%char.
Proof.
  induction s as [|b s IH]; simpl; [tauto|].
  destruct (unreserved b) eqn:Hb; simpl.
  - intros [<- | H]; auto.
  - destruct (hex_digit_unreserved b) as [H1 H2].
    intros [<- | [<- | [<- | H]]]; auto.
Qed.

Lemma hex_digit_inj (j k : nat) :
  (j < 16)%nat -> (k < 16)%nat -> hex_digit j = hex_digit k -> j = k.
Proof.
  intros Hj Hk.
  do 16 (destruct j as [|j];
         [do 16 (destruct k as [|k]; [first [reflexivity | discriminate]|]); lia|]).
  lia.
Qed.

Lemma hex_digits_determine (a b : ascii) :
  hex_digit (nat_of_ascii a / 16) = hex_digit (nat_of_ascii b / 16) ->
  hex_digit (nat_of_ascii a mod 16) = hex_digit (nat_of_ascii b mod 16) ->
  a = b.
Proof.
  intros H1 H2.
  pose proof (nat_ascii_bounded a) as Ba. pose proof (nat_ascii_bounded b) as Bb.
  apply hex_digit_inj in H1;
    [|apply Nat.Div0.div_lt_upper_bound; lia | apply Nat.Div0.div_lt_upper_bound; lia].
  apply hex_digit_inj in H2; [|apply Nat.mod_upper_bound; lia | apply Nat.mod_upper_bound; lia].
  rewrite <- (ascii_nat_embedding a), <- (ascii_nat_embedding b). f_equal.
  rewrite (Nat.div_mod_eq (nat_of_ascii a) 16), (Nat.div_mod_eq (nat_of_ascii b) 16).
  lia.
Qed.

Lemma percent_encode_inj (s t : string) :
  percent_encode s = percent_encode t -> s = t.
Proof.
  revert t. induction s as [|a s IH]; intros [|b t]; simpl.
  - reflexivity.
  - destruct (unreserved b); discriminate.
  - destruct (unreserved a); discriminate.
  - destruct (unreserved a) eqn:Ha, (unreserved b) eqn:Hb.
    + intros [= -> H]. now rewrite (IH t H).
    + intros [= -> _]. discriminate Ha.
    + intros [= <- _]. discriminate Hb.
    + intros [= H1 H2 H]. rewrite (IH t H). now rewrite (hex_digits_determine a b H1 H2).
Qed.

Lemma string_length_app (a b : string) :
  String.length (a +:+ b) = (String.length a + String.length b)%nat.
Proof.
  induction a as [|x a IH]; [reflexivity|].
  change (S (String.length (a +:+ b)) = S (String.length a + String.length b)).
  now rewrite IH.
Qed.

Lemma string_app_inv_r (a b c : string) : a +:+ c = b +:+ c -> a = b.
Proof.
  revert b. induction a as [|x a IH]; intros [|y b] H.
  - reflexivity.
  - apply (f_equal String.length) in H.
    change (String.length c = S (String.length (b +:+ c))) in H.
    rewrite string_length_app in H. lia.
  - apply (f_equal String.length) in H.
    change (S (String.length (a +:+ c)) = String.length c) in H.
    rewrite string_length_app in H. lia.
  - change (String x (a +:+ c) = String y (b +:+ c)) in H.
    injection H as -> H. now rewrite (IH b H).
Qed.


(** X2.  In the API URL of the tikwm variant the clip URL, where
    [encodeURIComponent] takes it, is encoded into unreserved characters
    and [%XX] escapes: the encoded text holds no [&], so it stays within
    the one [url] parameter, and two clip URLs that give the same API call
    are the same URL. *)
Theorem the_api_url_carries_the_clip_url_in_one_parameter
    (E : Env) (url url' : string) :
  (forall encoded,
     encodeURIComponent E url = Ok encoded ->
     (forall a, In a (list_ascii_of_string encoded) ->
                unreserved a = true \/ a = "%"%char)
     /\ ~ In "&"%char (list_ascii_of_string encoded)
     /\ provider_call TikwmApi url
        = Fetch ("https://www.tikwm.com/api/?url=" +:+ encoded +:+ "&hd=1"))
  /\ (provider_call TikwmApi url = provider_call TikwmApi url' -> url = url').
Proof.
  split.
  - unfold encodeURIComponent. intros encoded.
    destruct (isWellFormed url); [|discriminate]. intros [= <-].
    split; [apply encoded_characters|]. split; [|reflexivity].
    intros H. apply encoded_characters in H as [H|H]; discriminate H.
  - unfold provider_call. intros [= H].
    apply (inj (String.app _)) in H. apply string_app_inv_r in H.
    now apply percent_encode_inj.
Qed.

(** ** The metadata stage *)

(** X3.  [getVideoInfo] of the tikwm variant, for a clip URL that
    [encodeURIComponent] takes, does one thing to the world: it records
    the one call to the API URL of the clip.  It returns the [data] member
    exactly when the API answers with a success status, a readable body
    and [code] 0, and in every other case throws an [Error] whose message
    begins with "Failed to get video info from tikwm: ".  For a clip URL
    that cannot be encoded it throws such an [Error], with the message of
    the [URIError], and leaves the world as it was: the API is not
    asked. *)
Theorem tikwm_getVideoInfo_makes_one_call_and_wraps_every_error
    (E : Env) (videoUrl : string) (w : World) :
  match encodeURIComponent E videoUrl with
  | Ok encoded =>
      let tikwmApiUrl := "https://www.tikwm.com/api/?url=" +:+ encoded +:+ "&hd=1" in
      snd (Tikwm.getVideoInfo E videoUrl w) = record_call (Fetch tikwmApiUrl) w
      /\ (forall info,
            fst (Tikwm.getVideoInfo E videoUrl w) = Ok info
            <-> exists r d, http_get E tikwmApiUrl = Responded r
                            /\ ok r = true /\ json r = Ok d /\ code d = 0
                            /\ info = data d)
      /\ ((forall info, fst (Tikwm.getVideoInfo E videoUrl w) <> Ok info) ->
          exists m,
            fst (Tikwm.getVideoInfo E videoUrl w)
            = Throw (new_Error ("Failed to get video info from tikwm: " +:+ m)))
  | Throw e =>
      Tikwm.getVideoInfo E videoUrl w
      = (Throw (new_Error ("Failed to get video info from tikwm: "
                           +:+ message_or_unknown e)), w)
  end.
Proof.
  unfold Tikwm.getVideoInfo, try_catch, bind, fetch, settle, throw, ret.
  destruct (encodeURIComponent E videoUrl) as [encoded|e]; [|reflexivity].
  cbv zeta.
  destruct (http_get E _) as [e|r] eqn:Hg; simpl.
  - split; [reflexivity|]. split; [|eauto].
    intros info. split; [discriminate|]. intros (r & d & H & _). discriminate H.
  - destruct (ok r) eqn:Hok; simpl.
    + destruct (json r) as [d|e] eqn:Hj; simpl.
      * destruct (Z.eqb_spec (code d) 0) as [Hc|Hc]; simpl.
        -- split; [reflexivity|]. split.
           ++ intros info. split.
              ** intros [= <-]. exists r, d. auto.
              ** intros (r' & d' & [= <-] & _ & Hd & _ & ->). congruence.
           ++ intros H. now contradiction (H (data d)).
        -- split; [reflexivity|]. split; [|eauto].
           intros info. split; [discriminate|].
           intros (r' & d' & [= <-] & _ & Hd & Hz & _). congruence.
      * split; [reflexivity|]. split; [|eauto].
        intros info. split; [discriminate|].
        intros (r' & d' & [= <-] & _ & Hd & _). congruence.
    + split; [reflexivity|]. split; [|eauto].
      intros info. split; [discriminate|].
      intros (r' & d' & [= <-] & Ho & _). congruence.
Qed.


Lemma tikwm_getVideoInfo_fails (E : Env) url m w :
  provider_failure E TikwmApi url = Some m ->
  Tikwm.getVideoInfo E url w
  = (Throw (new_Error m), record_call (Fetch (tikwmApiUrl url)) w).
Proof.
  unfold provider_failure, Tikwm.getVideoInfo, encodeURIComponent, try_catch, bind,
    fetch, settle, throw, ret.
  destruct (isWellFormed url); [|discriminate].
  cbv zeta. fold (tikwmApiUrl url).
  destruct (http_get E _) as [e|r]; simpl.
  - now intros [= <-].
  - destruct (ok r); simpl.
    + destruct (json r) as [d|e]; simpl.
      * destruct (code d =? 0); simpl; [discriminate|].
        now intros [= <-].
      * now intros [= <-].
    + now intros [= <-].
Qed.

Lemma ytdlp_getVideoInfo_fails (E : Env) url m w :
  provider_failure E YtDlpTool url = Some m ->
  exists w', YtDlp.getVideoInfo E url w = (Throw (new_Error m), w')
             /\ calls w' = calls w ++ [provider_call YtDlpTool url]
             /\ same_cache w w'.
Proof.
  unfold provider_failure, YtDlp.getVideoInfo, bind, spawn, throw, ret.
  destruct (yt_dlp E _) as [msg|c out err written]; simpl.
  - intros [= <-]. eexists. split; [reflexivity|]. split; [reflexivity|]. now split.
  - destruct (c =? 0); simpl.
    + destruct (parse_info E out); [discriminate|]. intros [= <-].
      eexists. split; [reflexivity|]. split; [reflexivity|]. now split.
    + intros [= <-]. eexists. split; [reflexivity|]. split; [reflexivity|]. now split.
Qed.

(** ** The cache directory and the look-up *)

(** X5.  [initCacheDir] either ends with the cache directory in place,
    having touched no cached file and made no outbound call, or throws the
    very error that making the directory raised and leaves the world as it
    was.  Where the existence check itself raises nothing, a directory
    already there is left as it is and a second run changes nothing. *)
Theorem initCacheDir_makes_the_directory_once (E : Env) (w : World) :
  match initCacheDir E w with
  | (Ok _, w') =>
      cache_dir w' = true /\ cache w' = cache w /\ calls w' = calls w
      /\ (fs_fault E OpAccess CacheDirPath = None ->
          (cache_dir w = true -> w' = w) /\ initCacheDir E w' = (Ok tt, w'))
  | (Throw e, w') => fs_fault E OpMkdir CacheDirPath = Some e /\ w' = w
  end.
Proof.
  unfold initCacheDir, try_catch, access, bind, mkdir_recursive, console_log, exists_at.
  destruct (fs_fault E OpAccess CacheDirPath) as [e|] eqn:Ha.
  - destruct (fs_fault E OpMkdir CacheDirPath) as [e'|] eqn:Hm; simpl; [now split|].
    repeat split; try reflexivity; discriminate.
  - destruct (cache_dir w) eqn:Hd; simpl.
    + repeat split; try reflexivity; try assumption.
      now rewrite Hd.
    + destruct (fs_fault E OpMkdir CacheDirPath) as [e'|] eqn:Hm; simpl; [now split|].
      repeat split; try reflexivity. discriminate.
Qed.

Section Lookup.

Variable E : Env.

Lemma initCacheDir_quiet w :
  same_but_cache_dir_and_console w (snd (initCacheDir E w)).
Proof.
  unfold initCacheDir, try_catch, access, bind, mkdir_recursive, console_log, exists_at.
  destruct (fs_fault E OpAccess CacheDirPath);
    [destruct (fs_fault E OpMkdir CacheDirPath); repeat split|].
  destruct (cache_dir w); [repeat split|].
  destruct (fs_fault E OpMkdir CacheDirPath); repeat split.
Qed.

Lemma cache_get_quiet url audioOnly w :
  same_but_cache_dir_and_console w (snd (cache_get E url audioOnly w)).
Proof.
  unfold cache_get, try_catch, access, bind, console_log, readFile, ret, exists_at.
  cbv zeta.
  destruct (fs_fault E OpAccess _); [repeat split|].
  destruct (bool_decide _); [|repeat split]. simpl.
  destruct (fs_fault E OpReadFile _); [repeat split|].
  destruct (cache w !! _); repeat split.
Qed.

Lemma lookup_quiet url audioOnly w u wa hit wb :
  initCacheDir E w = (Ok u, wa) -> cache_get E url audioOnly wa = (Ok hit, wb) ->
  same_but_cache_dir_and_console w wb.
Proof.
  intros Hi Hg.
  pose proof (initCacheDir_quiet w) as (H1 & H2 & H3 & H4). rewrite Hi in *.
  pose proof (cache_get_quiet url audioOnly wa) as (G1 & G2 & G3 & G4). rewrite Hg in *.
  simpl in *. repeat split; congruence.
Qed.

Lemma cache_put_quiet p content w :
  tmp (snd (cache_put E (InCache p) content w)) = tmp w
  /\ calls (snd (cache_put E (InCache p) content w)) = calls w.
Proof.
  unfold cache_put, try_catch, bind, writeFile, console_log, console_warn.
  destruct (fs_fault E OpWriteFile _); [now split|].
  destruct (cache_dir w); now split.
Qed.

End Lookup.

(** X6.  When the cache directory is missing (or its existence check
    fails) and cannot be made, [downloadMedia] throws the error of
    [mkdir] as it is, unwrapped, before anything is looked up or fetched:
    the world is unchanged. *)
Theorem a_cache_directory_that_cannot_be_made_fails_the_download
    (E : Env) (v : Variant) (url : string) (audioOnly : bool) (w : World) (e : thrown) :
  cache_dir w = false \/ fs_fault E OpAccess CacheDirPath <> None ->
  fs_fault E OpMkdir CacheDirPath = Some e ->
  downloadMedia E v url audioOnly w = (Throw e, w).
Proof.
  intros Hmissing Hmk.
  assert (Hinit : initCacheDir E w = (Throw e, w)).
  { unfold initCacheDir, try_catch, access, bind, mkdir_recursive, exists_at.
    destruct (fs_fault E OpAccess CacheDirPath) eqn:Ha.
    - now rewrite Hmk.
    - destruct Hmissing as [-> | Hne]; [|contradiction]. now rewrite Hmk. }
  destruct v; simpl.
  - unfold Tikwm.downloadMedia. apply (bind_throw _ _ _ _ _ Hinit).
  - unfold YtDlp.downloadMedia. apply (bind_throw _ _ _ _ _ Hinit).
Qed.

(** ** What a download returns, costs and touches *)

Section MediaShape.

Variable E : Env.

Lemma cache_get_named url audioOnly :
  returns (fun o => forall media, o = Some media -> named_for E url audioOnly media)
    (cache_get E url audioOnly).
Proof.
  unfold cache_get.
  returns_with ltac:(intros ? [= <-]; split; reflexivity).
Qed.

Lemma tikwm_downloadMedia_named url audioOnly :
  returns (named_for E url audioOnly) (Tikwm.downloadMedia E url audioOnly).
Proof.
  unfold Tikwm.downloadMedia. apply returns_bind; intros _. cbv zeta.
  apply (returns_bind_with _ _ _ _ (cache_get_named url audioOnly)).
  intros [media|] H.
  - apply returns_ret. now apply H.
  - returns_with ltac:(split; reflexivity).
Qed.

Lemma ytdlp_downloadMedia_named url audioOnly :
  returns (named_for E url audioOnly) (YtDlp.downloadMedia E url audioOnly).
Proof.
  unfold YtDlp.downloadMedia. apply returns_bind; intros _. cbv zeta.
  apply (returns_bind_with _ _ _ _ (cache_get_named url audioOnly)).
  intros [media|] H.
  - apply returns_ret. now apply H.
  - returns_with ltac:(split; reflexivity).
Qed.

End MediaShape.

(** X7.  Whatever [downloadMedia] returns, from the cache or from a
    download, in either variant, is named [tiktok_<key>.<ext>] after the
    digest of the URL and typed after the mode. *)
Theorem media_is_named_after_the_url_and_the_mode
    (E : Env) (v : Variant) (url : string) (audioOnly : bool) (w w' : World)
    (media : Media) :
  downloadMedia E v url audioOnly w = (Ok media, w') ->
  filename media = "tiktok_" +:+ getCacheKey E url +:+ "." +:+ extension_of audioOnly
  /\ contentType media = contentType_of audioOnly.
Proof.
  intros H.
  assert (Hn : named_for E url audioOnly media).
  { destruct v; simpl in H.
    - exact (returns_run _ _ _ _ _ (tikwm_downloadMedia_named E url audioOnly) H).
    - exact (returns_run _ _ _ _ _ (ytdlp_downloadMedia_named E url audioOnly) H). }
  exact Hn.
Qed.

(** X8.  The [cached] flag of a returned media is truthful.  With
    [cached = true] no outbound call was made and the bytes are those of
    the cache file.  With [cached = false] the tikwm variant has made
    exactly two calls, the API call and one media fetch, and the yt-dlp
    variant exactly one run of the tool, with the download arguments of
    the mode and the timestamped output template. *)
Theorem cached_flag_tells_what_a_download_cost
    (E : Env) (v : Variant) (url : string) (audioOnly : bool) (w w' : World)
    (media : Media) :
  downloadMedia E v url audioOnly w = (Ok media, w') ->
  if cached media then
    calls w' = calls w
    /\ cache w !! (getCacheKey E url +:+ "." +:+ extension_of audioOnly)
       = Some (buffer media)
  else
    match v with
    | TikwmApi =>
        exists target,
          calls w' = calls w ++ [Fetch (tikwmApiUrl url); Fetch target]
    | YtDlpTool =>
        calls w'
        = calls w ++ [Spawn "yt-dlp"
                        (YtDlp.download_args (outputTemplate_at E (ticks w))
                           audioOnly url)]
    end.
Proof.
  intros H. destruct v; simpl in H.
  - unfold Tikwm.downloadMedia in H.
    apply bind_inv_ok in H as (u & wa & Hinit & H). cbv zeta in H.
    apply bind_inv_ok in H as (hit & wb & Hget & H).
    pose proof (lookup_quiet E _ _ _ _ _ _ _ Hinit Hget) as (Hc & _ & _ & Hcalls).
    destruct hit as [m0|].
    { injection H as <- <-. apply cache_get_some in Hget as (-> & Hfile & _).
      split; [assumption|].
      pose proof (initCacheDir_quiet E w) as (Hca & _). rewrite Hinit in Hca.
      simpl in Hca. now rewrite <- Hca. }
    apply try_catch_inv_ok in H as [H | (e & s1 & _ & H)];
      [|now apply throw_is_not_ok in H].
    apply bind_inv_ok in H as (info & wc & Hinfo & H). cbv zeta in H.
    destruct (truthy_str (Tikwm.choose_url info audioOnly)) eqn:Ht; simpl in H;
      [|now apply throw_is_not_ok in H].
    apply bind_inv_ok in H as (resp & wd & Hfetch & H).
    destruct (ok resp) eqn:Hok; simpl in H; [|now apply throw_is_not_ok in H].
    apply bind_inv_ok in H as (u2 & we & Hput & H). injection H as <- <-. simpl.
    exists (the_string (Tikwm.choose_url info audioOnly)).
    rewrite (cache_put_world _ _ _ _ _ _ Hput).
    apply tikwm_getVideoInfo_returned in Hinfo as [_ ->].
    unfold fetch in Hfetch.
    destruct (http_get E _); [discriminate|]. injection Hfetch as _ <-.
    simpl. rewrite Hcalls. now rewrite <- app_assoc.
  - unfold YtDlp.downloadMedia in H.
    apply bind_inv_ok in H as (u & wa & Hinit & H). cbv zeta in H.
    apply bind_inv_ok in H as (hit & wb & Hget & H).
    pose proof (lookup_quiet E _ _ _ _ _ _ _ Hinit Hget) as (Hc & _ & Hticks & Hcalls).
    destruct hit as [m0|].
    { injection H as <- <-. apply cache_get_some in Hget as (-> & Hfile & _).
      split; [assumption|].
      pose proof (initCacheDir_quiet E w) as (Hca & _). rewrite Hinit in Hca.
      simpl in Hca. now rewrite <- Hca. }
    apply bind_inv_ok in H as (timestamp & wc & Hnow & H).
    injection Hnow as <- <-.
    apply bind_inv_ok in H as (run & wd & Hspawn & H).
    destruct run as [message | exit_code out err written];
      [now apply throw_is_not_ok in H|].
    destruct (exit_code =? 0) eqn:Hcode; [|now apply throw_is_not_ok in H].
    apply try_catch_inv_ok in H as [H | (e & s1 & _ & H)];
      [|now apply throw_is_not_ok in H].
    cbv zeta in H.
    apply bind_inv_ok in H as (content & we & Hread & H).
    apply bind_inv_ok in H as (u2 & wf & Hput & H).
    apply bind_inv_ok in H as (u3 & wg & Hunlink & H). injection H as <- <-. simpl.
    destruct (ignore_unlink_runs E
                ("tiktok_" +:+ pretty (clock E (ticks wb)) +:+ "."
                 +:+ extension_of audioOnly) wf)
      as (x & Hx & _ & Hcx & _).
    rewrite Hx in Hunlink. injection Hunlink as _ <-.
    rewrite Hcx, (cache_put_world _ _ _ _ _ _ Hput).
    assert (calls we = calls wd) as ->.
    { unfold readFile in Hread.
      destruct (fs_fault E OpReadFile _); [discriminate|].
      destruct (tmp wd !! _); [|discriminate]. now injection Hread as _ <-. }
    unfold spawn in Hspawn.
    destruct (yt_dlp E _); [discriminate|]. injection Hspawn as _ _ _ _ <-.
    simpl. unfold outputTemplate_at. now rewrite Hcalls, Hticks.
Qed.

(** *** The download after the look-up *)

(** What [downloadMedia] does with the answer of the look-up: a hit is
    returned as it is; after a miss the provider is asked, and what is
    returned then is not marked as cached. *)
Lemma download_after_lookup (E : Env) (v : Variant) (url : string) (audioOnly : bool)
    (w0 w : World) (o : option Media) (w' : World) :
  initCacheDir E w0 = (Ok tt, w) ->
  cache_get E url audioOnly w = (Ok o, w') ->
  match o with
  | Some media => downloadMedia E v url audioOnly w0 = (Ok media, w')
  | None =>
      (provider_is_asked v url ->
       exists rest,
         calls (snd (downloadMedia E v url audioOnly w0))
         = calls w0
           ++ match v with
              | TikwmApi => Fetch (tikwmApiUrl url)
              | YtDlpTool =>
                  Spawn "yt-dlp"
                    (YtDlp.download_args (outputTemplate_at E (ticks w0)) audioOnly url)
              end :: rest)
      /\ (forall media w2,
            downloadMedia E v url audioOnly w0 = (Ok media, w2) -> cached media = false)
  end.
Proof.
  intros Hinit Hget.
  pose proof (lookup_quiet E _ _ _ _ _ _ _ Hinit Hget) as (Hc & Htmp & Hticks & Hcalls).
  destruct o as [media|].
  { destruct v; simpl; [unfold Tikwm.downloadMedia | unfold YtDlp.downloadMedia];
      rewrite (bind_ok _ _ _ _ _ Hinit); cbv zeta;
      now rewrite (bind_ok _ _ _ _ _ Hget). }
  split.
  - intros Hasked. destruct v; simpl in *.
    + unfold Tikwm.downloadMedia.
      rewrite (bind_ok _ _ _ _ _ Hinit). cbv zeta.
      rewrite (bind_ok _ _ _ _ _ Hget). rewrite <- Hcalls.
      apply begins_try_catch.
      * apply begins_bind_l; [now apply (begins_tikwm_getVideoInfo E url)|].
        intros info. fold extends. grows_auto.
      * intros e. fold extends. grows_auto.
    + unfold YtDlp.downloadMedia.
      rewrite (bind_ok _ _ _ _ _ Hinit). cbv zeta.
      rewrite (bind_ok _ _ _ _ _ Hget).
      unfold bind at 1, Date_now. rewrite <- Hcalls.
      unfold outputTemplate_at. rewrite <- Hticks.
      assert (Hn : calls (next_tick w') = calls w') by reflexivity.
      rewrite <- Hn.
      apply begins_bind_l; [apply begins_spawn|].
      intros run. fold extends. grows_auto.
  - intros media w2 Hrun. destruct v; simpl in Hrun.
    + unfold Tikwm.downloadMedia in Hrun.
      rewrite (bind_ok _ _ _ _ _ Hinit) in Hrun. cbv zeta in Hrun.
      rewrite (bind_ok _ _ _ _ _ Hget) in Hrun.
      refine (returns_run (fun m => cached m = false) _ _ _ _ _ Hrun).
      returns_with ltac:(reflexivity).
    + unfold YtDlp.downloadMedia in Hrun.
      rewrite (bind_ok _ _ _ _ _ Hinit) in Hrun. cbv zeta in Hrun.
      rewrite (bind_ok _ _ _ _ _ Hget) in Hrun.
      refine (returns_run (fun m => cached m = false) _ _ _ _ _ Hrun).
      returns_with ltac:(reflexivity).
Qed.

(** C7, as amended.  The cache look-up never raises an error and makes no
    outbound call.  It reports a miss whenever the existence check or the
    read fails, for whatever reason: the file does not exist, or [access]
    or [readFile] raises any other I/O error.  It returns the file's bytes,
    marked as cached, exactly when the file exists and both operations
    succeed.  In [downloadMedia], once the cache directory is there, a hit
    is returned as it is, and after a miss the download proceeds: the
    provider is asked (the tikwm API for a clip URL that can be encoded,
    the [yt-dlp] tool with the download arguments), as the first outbound
    call, and media that is returned then is not marked as cached. *)
Theorem cache_lookup_degrades_every_error_to_a_miss
    (E : Env) (url : string) (audioOnly : bool) (w : World) :
  exists o w',
    cache_get E url audioOnly w = (Ok o, w')
    /\ calls w' = calls w
    /\ (o = None <->
        fs_fault E OpAccess (cachedFile_of E url audioOnly) <> None
        \/ cache w !! (getCacheKey E url +:+ "." +:+ extension_of audioOnly) = None
        \/ fs_fault E OpReadFile (cachedFile_of E url audioOnly) <> None)
    /\ (forall media, o = Some media ->
        cached media = true
        /\ cache w !! (getCacheKey E url +:+ "." +:+ extension_of audioOnly)
           = Some (buffer media))
    /\ (forall v w0,
          initCacheDir E w0 = (Ok tt, w) ->
          match o with
          | Some media => downloadMedia E v url audioOnly w0 = (Ok media, w')
          | None =>
              (provider_is_asked v url ->
               exists rest,
                 calls (snd (downloadMedia E v url audioOnly w0))
                 = calls w0
                   ++ match v with
                      | TikwmApi => Fetch (tikwmApiUrl url)
                      | YtDlpTool =>
                          Spawn "yt-dlp"
                            (YtDlp.download_args (outputTemplate_at E (ticks w0))
                               audioOnly url)
                      end :: rest)
              /\ (forall media w2,
                    downloadMedia E v url audioOnly w0 = (Ok media, w2) ->
                    cached media = false)
          end).
Proof.
  destruct (cache_get_outcome E url audioOnly w) as (o & w' & Hget & Hcalls & Hmiss & Hhit).
  exists o, w'.
  split; [exact Hget|]. split; [exact Hcalls|]. split; [exact Hmiss|].
  split; [exact Hhit|].
  intros v w0 Hinit. exact (download_after_lookup E v url audioOnly w0 w o w' Hinit Hget).
Qed.

(** *** Which cached files a request can touch *)

Lemma differs_refl name w : cache_differs_at_most_at name w w.
Proof. split; auto. Qed.

Lemma differs_trans name w1 w2 w3 :
  cache_differs_at_most_at name w1 w2 -> cache_differs_at_most_at name w2 w3 ->
  cache_differs_at_most_at name w1 w3.
Proof.
  intros [H1 H1'] [H2 H2']. split.
  - intros n Hn. now rewrite (H2 n Hn), (H1 n Hn).
  - auto.
Qed.

Lemma differs_of_same_files name w w' :
  cache w' = cache w -> cache_differs_at_most_at name w w'.
Proof. intros H. split; intros; now rewrite H. Qed.

Lemma differs_of_keeps {A} name (m : M World A) :
  keeps_cache m -> monotone (cache_differs_at_most_at name) m.
Proof. intros H w. apply differs_of_same_files. apply (H w). Qed.

Lemma kept_refl w : cache_kept w w.
Proof. intros n H. exact H. Qed.

Lemma kept_trans w1 w2 w3 : cache_kept w1 w2 -> cache_kept w2 w3 -> cache_kept w1 w3.
Proof. intros H1 H2 n H. auto. Qed.

Lemma kept_of_differs name w w' : cache_differs_at_most_at name w w' -> cache_kept w w'.
Proof.
  intros [H1 H2] n Hn. destruct (String.eqb_spec n name) as [->|Hne]; [auto|].
  now rewrite (H1 n Hne).
Qed.

Lemma kept_of_same_files w w' : cache w' = cache w -> cache_kept w w'.
Proof. intros H n. now rewrite H. Qed.

Section Frame.

Variable E : Env.

Lemma initCacheDir_same_files w : cache (snd (initCacheDir E w)) = cache w.
Proof.
  unfold initCacheDir, try_catch, access, bind, mkdir_recursive, console_log, exists_at.
  destruct (fs_fault E OpAccess CacheDirPath);
    [destruct (fs_fault E OpMkdir CacheDirPath); reflexivity|].
  destruct (cache_dir w); [reflexivity|].
  destruct (fs_fault E OpMkdir CacheDirPath); reflexivity.
Qed.

Lemma differs_initCacheDir name : monotone (cache_differs_at_most_at name) (initCacheDir E).
Proof. intros w. apply differs_of_same_files, initCacheDir_same_files. Qed.

Lemma differs_cache_put name content :
  monotone (cache_differs_at_most_at name) (cache_put E (InCache name) content).
Proof.
  intros w. unfold cache_put, try_catch, bind, writeFile, console_log, console_warn.
  destruct (fs_fault E OpWriteFile (InCache name));
    [now apply differs_of_same_files|].
  destruct (cache_dir w); [|now apply differs_of_same_files].
  simpl. split.
  - intros n Hn. now apply lookup_insert_ne.
  - intros _. exists content. apply lookup_insert_eq.
Qed.

Ltac differs_step name :=
  first
    [ preserved_step (differs_refl name) (differs_trans name)
    | apply differs_initCacheDir
    | apply differs_cache_put
    | apply differs_of_keeps; solve [auto with frame]
    | apply differs_of_keeps;
      apply (monotone_try_catch same_cache same_cache_trans);
      [solve [auto with frame] | intros ?; apply (monotone_ret same_cache same_cache_refl)] ].

Lemma differs_tikwm_downloadMedia url audioOnly :
  monotone (cache_differs_at_most_at (cache_name E url audioOnly))
    (Tikwm.downloadMedia E url audioOnly).
Proof.
  unfold Tikwm.downloadMedia. cbv zeta. fold (cache_name E url audioOnly).
  repeat differs_step (cache_name E url audioOnly).
Qed.

Lemma differs_ytdlp_downloadMedia url audioOnly :
  monotone (cache_differs_at_most_at (cache_name E url audioOnly))
    (YtDlp.downloadMedia E url audioOnly).
Proof.
  unfold YtDlp.downloadMedia. cbv zeta. fold (cache_name E url audioOnly).
  repeat differs_step (cache_name E url audioOnly).
Qed.

End Frame.

(** X9.  A call of [downloadMedia] can change one cached file only, the
    one of its URL and mode: every other file of the cache is as before,
    the file itself is never removed, and in particular the file of the
    other mode of the same URL is untouched. *)
Theorem a_download_touches_no_other_cached_file
    (E : Env) (v : Variant) (url : string) (audioOnly : bool) (w : World) :
  (forall n, n <> getCacheKey E url +:+ "." +:+ extension_of audioOnly ->
     cache (snd (downloadMedia E v url audioOnly w)) !! n = cache w !! n)
  /\ (is_Some (cache w !! (getCacheKey E url +:+ "." +:+ extension_of audioOnly)) ->
      is_Some (cache (snd (downloadMedia E v url audioOnly w))
                 !! (getCacheKey E url +:+ "." +:+ extension_of audioOnly)))
  /\ cache (snd (downloadMedia E v url audioOnly w))
       !! (getCacheKey E url +:+ "." +:+ extension_of (negb audioOnly))
     = cache w !! (getCacheKey E url +:+ "." +:+ extension_of (negb audioOnly)).
Proof.
  assert (H : cache_differs_at_most_at (cache_name E url audioOnly) w
                (snd (downloadMedia E v url audioOnly w))).
  { destruct v; simpl.
    - apply (differs_tikwm_downloadMedia E url audioOnly w).
    - apply (differs_ytdlp_downloadMedia E url audioOnly w). }
  destruct H as [Hothers Hown]. split; [exact Hothers|]. split; [exact Hown|].
  apply Hothers. unfold cache_name. intros Heq.
  apply (inj (String.app _)) in Heq. apply (inj (String.app _)) in Heq.
  destruct audioOnly; discriminate Heq.
Qed.

Section NoEviction.

Variable E : Env.

Lemma keeps_fetch_post url file ms : keeps_cache (fetch_post E url file ms).
Proof.
  intros w. unfold fetch_post.
  destruct (whisper E url file) as [t r| |e]; [destruct (t <? ms)| |]; now split.
Qed.

Lemma keeps_tikwm_download c : keeps_cache (Tikwm.download E c).
Proof. unfold Tikwm.download, destructure_url. frame_auto. Qed.

Lemma keeps_ytdlp_download c : keeps_cache (YtDlp.download E c).
Proof. unfold YtDlp.download, destructure_url. frame_auto. Qed.

Lemma kept_of_keeps {A} (m : M World A) : keeps_cache m -> monotone cache_kept m.
Proof. intros H w. apply kept_of_same_files, (H w). Qed.

Lemma kept_tikwm_caption c : monotone cache_kept (Tikwm.caption E c).
Proof.
  unfold Tikwm.caption.
  apply (preserved_caption_handler E _ _ _ _ _ _ _ cache_kept kept_refl kept_trans).
  - intros w. now apply kept_of_same_files.
  - intros l s w. now apply kept_of_same_files.
  - intros file ms. apply kept_of_keeps, keeps_fetch_post.
  - intros url. apply kept_of_keeps, keeps_tikwm_getVideoInfo.
  - intros url audioOnly w.
    apply (kept_of_differs _ _ _ (differs_tikwm_downloadMedia E url audioOnly w)).
Qed.

Lemma kept_ytdlp_caption c : monotone cache_kept (YtDlp.caption E c).
Proof.
  unfold YtDlp.caption.
  apply (preserved_caption_handler E _ _ _ _ _ _ _ cache_kept kept_refl kept_trans).
  - intros w. now apply kept_of_same_files.
  - intros l s w. now apply kept_of_same_files.
  - intros file ms. apply kept_of_keeps, keeps_fetch_post.
  - intros url. apply kept_of_keeps, keeps_ytdlp_getVideoInfo.
  - intros url audioOnly w.
    apply (kept_of_differs _ _ _ (differs_ytdlp_downloadMedia E url audioOnly w)).
Qed.

End NoEviction.

(** X10.  No request evicts anything: whatever the variant, the endpoint
    and the request, every file that is in the cache before is in it
    afterwards, and [/download] leaves the cache exactly as it was. *)
Theorem no_request_removes_a_cached_file
    (E : Env) (v : Variant) (p : Endpoint) (c : Request) (w : World) :
  (forall n, is_Some (cache w !! n) -> is_Some (cache (snd (handler E v p c w)) !! n))
  /\ (p = PostDownload -> cache (snd (handler E v p c w)) = cache w).
Proof.
  split.
  - destruct v, p; simpl.
    + apply (kept_tikwm_caption E c w).
    + apply (kept_of_keeps _ (keeps_tikwm_download E c) w).
    + apply (kept_ytdlp_caption E c w).
    + apply (kept_of_keeps _ (keeps_ytdlp_download E c) w).
  - intros ->. destruct v; simpl.
    + apply (keeps_tikwm_download E c w).
    + apply (keeps_ytdlp_download E c w).
Qed.

(** *** What a download throws *)

Section WhatIsThrown.

Variable E : Env.
Hypothesis mkdir_ok : mkdir_does_not_time_out E.

Lemma never_throws_console_log line : never_throws (console_log line).
Proof. intros w. now exists tt. Qed.

Lemma never_throws_spawn command args : never_throws (spawn E command args).
Proof.
  intros w. unfold spawn. destruct (yt_dlp E args); simpl; eauto.
Qed.

Lemma never_throws_cache_get url audioOnly : never_throws (cache_get E url audioOnly).
Proof.
  intros w.
  unfold cache_get, try_catch, access, bind, console_log, readFile, ret, exists_at.
  cbv zeta.
  destruct (fs_fault E OpAccess _); [simpl; eauto|].
  destruct (bool_decide _); [|simpl; eauto]. simpl.
  destruct (fs_fault E OpReadFile _); [simpl; eauto|].
  destruct (cache w !! _); simpl; eauto.
Qed.

Lemma never_throws_cache_put p content : never_throws (cache_put E p content).
Proof.
  intros w. destruct (cache_put_runs E p content w) as (w' & H & _). rewrite H. eauto.
Qed.

Lemma initCacheDir_throws : throws_only no_timeout (initCacheDir E).
Proof.
  intros w.
  unfold initCacheDir, try_catch, access, bind, mkdir_recursive, console_log, exists_at.
  destruct (fs_fault E OpAccess CacheDirPath).
  - destruct (fs_fault E OpMkdir CacheDirPath) eqn:Hm; simpl; [|exact I].
    now apply mkdir_ok.
  - destruct (cache_dir w); simpl; [exact I|].
    destruct (fs_fault E OpMkdir CacheDirPath) eqn:Hm; simpl; [|exact I].
    now apply mkdir_ok.
Qed.

Lemma tikwm_getVideoInfo_throws url : throws_only no_timeout (Tikwm.getVideoInfo E url).
Proof. unfold Tikwm.getVideoInfo. repeat throws_step. Qed.

Lemma ytdlp_getVideoInfo_throws url : throws_only no_timeout (YtDlp.getVideoInfo E url).
Proof.
  unfold YtDlp.getVideoInfo.
  apply throws_only_bind; [apply throws_only_of_never, never_throws_spawn|].
  intros run. repeat throws_step.
Qed.

Lemma tikwm_downloadMedia_throws url audioOnly :
  throws_only no_timeout (Tikwm.downloadMedia E url audioOnly).
Proof.
  unfold Tikwm.downloadMedia. cbv zeta.
  apply throws_only_bind; [apply initCacheDir_throws|]. intros _.
  apply throws_only_bind; [apply throws_only_of_never, never_throws_cache_get|].
  intros hit. repeat throws_step.
Qed.

Lemma ytdlp_downloadMedia_throws url audioOnly :
  throws_only no_timeout (YtDlp.downloadMedia E url audioOnly).
Proof.
  unfold YtDlp.downloadMedia. cbv zeta.
  apply throws_only_bind; [apply initCacheDir_throws|]. intros _.
  apply throws_only_bind; [apply throws_only_of_never, never_throws_cache_get|].
  intros [media|]; [apply throws_only_ret|].
  apply throws_only_bind; [apply throws_only_of_never, never_throws_Date_now|].
  intros timestamp.
  apply throws_only_bind; [apply throws_only_of_never, never_throws_spawn|].
  intros run. repeat throws_step.
Qed.

End WhatIsThrown.

Section DownloadErrors.

Variable E : Env.

Lemma initCacheDir_throws_mkdir v : throws_only (download_error E v) (initCacheDir E).
Proof.
  intros w.
  unfold initCacheDir, try_catch, access, bind, mkdir_recursive, console_log, exists_at.
  destruct (fs_fault E OpAccess CacheDirPath).
  - destruct (fs_fault E OpMkdir CacheDirPath) eqn:Hm; simpl; [now left | exact I].
  - destruct (cache_dir w); simpl; [exact I|].
    destruct (fs_fault E OpMkdir CacheDirPath) eqn:Hm; simpl; [now left | exact I].
Qed.

Lemma tikwm_downloadMedia_errors url audioOnly :
  throws_only (download_error E TikwmApi) (Tikwm.downloadMedia E url audioOnly).
Proof.
  unfold Tikwm.downloadMedia. cbv zeta.
  apply throws_only_bind; [apply initCacheDir_throws_mkdir|]. intros _.
  apply throws_only_bind; [apply throws_only_of_never, never_throws_cache_get|].
  intros [media|]; [apply throws_only_ret|].
  apply throws_only_try_catch. intros e. apply throws_only_throw.
  right. exists "Failed to download media: ", (message_or_unknown e).
  split; [now left | reflexivity].
Qed.

Lemma ytdlp_downloadMedia_errors url audioOnly :
  throws_only (download_error E YtDlpTool) (YtDlp.downloadMedia E url audioOnly).
Proof.
  unfold YtDlp.downloadMedia. cbv zeta.
  apply throws_only_bind; [apply initCacheDir_throws_mkdir|]. intros _.
  apply throws_only_bind; [apply throws_only_of_never, never_throws_cache_get|].
  intros [media|]; [apply throws_only_ret|].
  apply throws_only_bind; [apply throws_only_of_never, never_throws_Date_now|].
  intros timestamp.
  apply throws_only_bind; [apply throws_only_of_never, never_throws_spawn|].
  intros [message|exit_code out err written].
  - apply throws_only_throw. right.
    exists "Failed to spawn yt-dlp: ", message. split; [simpl; tauto | reflexivity].
  - destruct (exit_code =? 0).
    + apply throws_only_try_catch. intros e. apply throws_only_throw. right.
      exists "Failed to read downloaded file: ", (thrown_to_string e).
      split; [simpl; tauto | reflexivity].
    + apply throws_only_throw. right.
      exists "yt-dlp download failed: ", err. split; [simpl; tauto | reflexivity].
Qed.

End DownloadErrors.

(** X11.  Every error [downloadMedia] throws is either the error raised
    when the cache directory could not be made, or an [Error] whose
    message begins with one of the prefixes of the variant: "Failed to
    download media: " for tikwm; "Failed to spawn yt-dlp: ", "yt-dlp
    download failed: " or "Failed to read downloaded file: " for yt-dlp. *)
Theorem every_download_error_is_of_a_known_kind
    (E : Env) (v : Variant) (url : string) (audioOnly : bool) (w w' : World) (e : thrown) :
  downloadMedia E v url audioOnly w = (Throw e, w') ->
  fs_fault E OpMkdir CacheDirPath = Some e
  \/ exists prefix m, In prefix (download_error_prefixes v)
                      /\ e = new_Error (prefix +:+ m).
Proof.
  intros H. destruct v; simpl in H.
  - exact (throws_run _ _ _ _ _ (tikwm_downloadMedia_errors E url audioOnly) H).
  - exact (throws_run _ _ _ _ _ (ytdlp_downloadMedia_errors E url audioOnly) H).
Qed.

(** *** The temporary file of the yt-dlp variant *)

(** X12.  A successful download of the yt-dlp variant returns exactly
    the bytes of the file [tiktok_<timestamp>.<ext>] that the tool left in
    the temporary directory after exiting with code 0, and, unless
    removing it fails, that file is gone when the call returns. *)
Theorem ytdlp_download_returns_the_tool_output_and_removes_it
    (E : Env) (url : string) (audioOnly : bool) (w w' : World) (media : Media) :
  YtDlp.downloadMedia E url audioOnly w = (Ok media, w') ->
  cached media = false ->
  exists out err written,
    yt_dlp E (YtDlp.download_args (outputTemplate_at E (ticks w)) audioOnly url)
    = Closed 0 out err written
    /\ leave_files written (tmp w) !! expectedFile_at E (ticks w) audioOnly
       = Some (buffer media)
    /\ (fs_fault E OpUnlink (InTmp (expectedFile_at E (ticks w) audioOnly)) = None ->
        tmp w' !! expectedFile_at E (ticks w) audioOnly = None).
Proof.
  intros H Hc. unfold YtDlp.downloadMedia in H.
  apply bind_inv_ok in H as (u & wa & Hinit & H). cbv zeta in H.
  apply bind_inv_ok in H as (hit & wb & Hget & H).
  pose proof (lookup_quiet E _ _ _ _ _ _ _ Hinit Hget) as (_ & Htmp & Hticks & _).
  destruct hit as [m0|].
  { injection H as <- <-. apply cache_get_some in Hget as (Hcached & _). congruence. }
  apply bind_inv_ok in H as (timestamp & wc & Hnow & H).
  injection Hnow as <- <-.
  apply bind_inv_ok in H as (run & wd & Hspawn & H).
  destruct run as [message | exit_code out err written];
    [now apply throw_is_not_ok in H|].
  destruct (Z.eqb_spec exit_code 0) as [->|]; [|now apply throw_is_not_ok in H].
  apply try_catch_inv_ok in H as [H | (e & s1 & _ & H)];
    [|now apply throw_is_not_ok in H].
  cbv zeta in H.
  apply bind_inv_ok in H as (content & we & Hread & H).
  apply bind_inv_ok in H as (u2 & wf & Hput & H).
  apply bind_inv_ok in H as (u3 & wg & Hunlink & H). injection H as <- <-. simpl.
  rewrite Hticks in *. fold (expectedFile_at E (ticks w) audioOnly) in *.
  fold (outputTemplate_at E (ticks w)) in Hspawn.
  unfold spawn in Hspawn.
  destruct (yt_dlp E _) as [|c0 out0 err0 written0] eqn:Hrun; [discriminate|].
  injection Hspawn as -> -> -> -> <-.
  exists out, err, written. split; [reflexivity|].
  unfold readFile in Hread. simpl in Hread.
  destruct (fs_fault E OpReadFile _); [discriminate|].
  rewrite Htmp in Hread.
  destruct (leave_files written (tmp w) !! _) as [bytes|] eqn:Hfile; [|discriminate].
  injection Hread as <- <-. split; [reflexivity|].
  intros Hno.
  pose proof (cache_put_quiet E (getCacheKey E url +:+ "." +:+ extension_of audioOnly)
                bytes
                (set_tmp (leave_files written (tmp w))
                   (record_call (Spawn "yt-dlp"
                      (YtDlp.download_args (outputTemplate_at E (ticks w)) audioOnly url))
                      (next_tick wb)))) as (Hp & _).
  rewrite Hput in Hp. simpl in Hp.
  unfold try_catch, unlink in Hunlink. rewrite Hno, Hp, Hfile in Hunlink.
  injection Hunlink as _ <-. simpl. apply lookup_delete_eq.
Qed.

Lemma thrown_to_string_ENOENT syscall path :
  thrown_to_string (ENOENT syscall path)
  = "Error: ENOENT: no such file or directory, " +:+ syscall +:+ " '" +:+ path +:+ "'".
Proof. reflexivity. Qed.

(** X13.  If the tool exits with code 0 but has not left the file
    [tiktok_<timestamp>.<ext>] (it wrote a file of another type, say),
    [downloadMedia] of the yt-dlp variant throws "Failed to read
    downloaded file: Error: ENOENT ..."; nothing is cached, and what the
    tool wrote stays in the temporary directory. *)
Theorem ytdlp_download_fails_when_the_expected_file_is_missing
    (E : Env) (url : string) (audioOnly : bool) (w wa wb : World)
    (out err : string) (written : list (string * list byte)) :
  initCacheDir E w = (Ok tt, wa) ->
  cache_get E url audioOnly wa = (Ok None, wb) ->
  yt_dlp E (YtDlp.download_args (outputTemplate_at E (ticks w)) audioOnly url)
  = Closed 0 out err written ->
  fs_fault E OpReadFile (InTmp (expectedFile_at E (ticks w) audioOnly)) = None ->
  leave_files written (tmp w) !! expectedFile_at E (ticks w) audioOnly = None ->
  exists w',
    YtDlp.downloadMedia E url audioOnly w
    = (Throw (new_Error
                ("Failed to read downloaded file: "
                 +:+ "Error: ENOENT: no such file or directory, open '/tmp/"
                 +:+ expectedFile_at E (ticks w) audioOnly +:+ "'")), w')
    /\ cache w' = cache w
    /\ tmp w' = leave_files written (tmp w).
Proof.
  intros Hinit Hget Hrun Hread Hfile.
  pose proof (lookup_quiet E _ _ _ _ _ _ _ Hinit Hget) as (Hc & Htmp & Hticks & _).
  unfold YtDlp.downloadMedia.
  rewrite (bind_ok _ _ _ _ _ Hinit). cbv zeta.
  rewrite (bind_ok _ _ _ _ _ Hget).
  unfold bind at 1, Date_now. rewrite Hticks.
  fold (outputTemplate_at E (ticks w)). fold (expectedFile_at E (ticks w) audioOnly).
  unfold bind at 1, spawn. rewrite Hrun. simpl.
  unfold try_catch, bind at 1, readFile. rewrite Hread. simpl.
  rewrite Htmp, Hfile. unfold throw. rewrite thrown_to_string_ENOENT.
  eexists. split; [reflexivity|]. simpl. split; [exact Hc | reflexivity].
Qed.

(** ** The [/download] endpoint *)

(** X15.  When the provider fails, [/download] replies 500 with the
    error "Failed to get download URL" and, as [details], the message of
    the provider failure in full; the provider call is the only outbound
    call, the cache is untouched and the error is logged. *)
Theorem download_reports_a_provider_failure_with_its_message
    (E : Env) (v : Variant) (c : Request) (parsed url : jsval) (m : string) (w : World) :
  req_json c = Ok parsed ->
  url_member parsed = Some url ->
  accepted_url (text_of url) ->
  provider_failure E v (text_of url) = Some m ->
  exists w',
    handler E v PostDownload c w = (Ok (JsonError 500 (download_failed_body m)), w')
    /\ calls w' = calls w ++ [provider_call v (text_of url)]
    /\ same_cache w w'
    /\ last (console w')
       = Some (LogError, "Download error: " +:+ thrown_to_string (new_Error m)).
Proof.
  intros Hj Hu Hacc Hf. apply rejects_false_iff in Hacc.
  destruct v; simpl.
  - rewrite (tikwm_download_run E c parsed url w Hj Hu Hacc).
    unfold try_catch.
    rewrite (bind_throw _ _ _ _ _ (tikwm_getVideoInfo_fails E _ m w Hf)).
    eexists. split; [reflexivity|]. simpl. split; [reflexivity|].
    split; [now split|]. apply last_snoc.
  - rewrite (ytdlp_download_run E c parsed url w Hj Hu Hacc).
    destruct (ytdlp_getVideoInfo_fails E _ m w Hf) as (w1 & Hr & Hc & Hs1 & Hs2).
    unfold try_catch. rewrite (bind_throw _ _ _ _ _ Hr).
    eexists. split; [reflexivity|]. simpl. split; [exact Hc|].
    split; [now split|]. apply last_snoc.
Qed.

Lemma js_or_first_truthy (a b c : option string) :
  truthy_str (js_or (js_or a b) c) = true ->
  first_truthy [a; b; c] = js_or (js_or a b) c.
Proof.
  unfold js_or. simpl.
  destruct (truthy_str a) eqn:Ha; simpl.
  - now rewrite Ha.
  - destruct (truthy_str b) eqn:Hb; simpl.
    + now rewrite Hb.
    + intros H. now rewrite H.
Qed.

Lemma js_or_none_truthy (a b c : option string) :
  truthy_str (js_or (js_or a b) c) = false ->
  first_truthy [a; b; c] = None.
Proof.
  unfold js_or. simpl.
  destruct (truthy_str a) eqn:Ha; simpl.
  - rewrite Ha. congruence.
  - destruct (truthy_str b) eqn:Hb; simpl.
    + rewrite Hb. congruence.
    + intros H. now rewrite H.
Qed.

(** X14.  When the API delivers the metadata, [/download] of the tikwm
    variant takes the first non-empty URL among [hdplay], [play] and
    [wmplay] as the target of its redirect.  Where the [Location] header
    takes the target, the reply is the redirect, to the value the header
    holds; where setting the header throws (a target with a line feed,
    say), the error is caught, logged and answered with 500 and its
    message as details.  When there is no URL the reply is 500 with the
    details "No download URL available".  In every case the API call is
    the only outbound call: the media itself is not fetched. *)
Theorem tikwm_download_redirects_to_the_first_url_on_offer
    (E : Env) (c : Request) (parsed url : jsval) (info : TikwmVideoInfo) (w w1 : World) :
  req_json c = Ok parsed ->
  url_member parsed = Some url ->
  accepted_url (text_of url) ->
  Tikwm.getVideoInfo E (text_of url) w = (Ok info, w1) ->
  handler E TikwmApi PostDownload c w
  = match first_truthy [hdplay info; play info; wmplay info] with
    | Some target =>
        match location_header E target with
        | Ok location => (Ok (Redirect location), w1)
        | Throw e =>
            (Ok (JsonError 500 (download_failed_body (message_or_unknown e))),
             record_line LogError ("Download error: " +:+ thrown_to_string e) w1)
        end
    | None =>
        (Ok (JsonError 500 (download_failed_body "No download URL available")),
         record_line LogError "Download error: Error: No download URL available" w1)
    end
  /\ calls (snd (handler E TikwmApi PostDownload c w))
     = calls w ++ [provider_call TikwmApi (text_of url)].
Proof.
  intros Hj Hu Hacc Hinfo. apply rejects_false_iff in Hacc.
  assert (Hw1 : w1 = record_call (Fetch (tikwmApiUrl (text_of url))) w).
  { now apply tikwm_getVideoInfo_returned in Hinfo as [_ ->]. }
  cbn [handler].
  rewrite (tikwm_download_run E c parsed url w Hj Hu Hacc).
  unfold try_catch. rewrite (bind_ok _ _ _ _ _ Hinfo). cbv zeta.
  rewrite hq_assignment_is_idle.
  destruct (truthy_str (js_or (js_or (hdplay info) (play info)) (wmplay info))) eqn:Ht.
  - rewrite (js_or_first_truthy _ _ _ Ht).
    destruct (js_or (js_or (hdplay info) (play info)) (wmplay info)) as [s|];
      [|discriminate].
    simpl. unfold settle, redirect.
    destruct (location_header E s) as [location|e]; simpl;
      (split; [reflexivity|]); now rewrite Hw1.
  - rewrite (js_or_none_truthy _ _ _ Ht). simpl.
    split; [reflexivity|]. now rewrite Hw1.
Qed.

(** ** Replies and outbound calls of every request *)

Section Statuses.

Variable E : Env.

Lemma caption_statuses Md getVideoInfo downloadMedia md_title md_author md_duration
    response_metadata c :
  returns (fun r => In (reply_status r) (statuses PostCaption))
    (caption_handler E Md getVideoInfo downloadMedia md_title md_author md_duration
       response_metadata c).
Proof.
  unfold caption_handler, caption_pipeline, caption_try, caption_transcribe,
    caption_catch, destructure_url.
  returns_with ltac:(simpl; tauto).
Qed.

Lemma redirect_statuses location :
  returns (S := World) (fun r => In (reply_status r) (statuses PostDownload))
    (settle (redirect E location)).
Proof.
  intros w. unfold settle, redirect. simpl.
  destruct (location_header E location); simpl; tauto.
Qed.

Lemma tikwm_download_statuses c :
  returns (fun r => In (reply_status r) (statuses PostDownload)) (Tikwm.download E c).
Proof.
  unfold Tikwm.download, destructure_url. returns_with ltac:(simpl; tauto).
  all: apply redirect_statuses.
Qed.

Lemma ytdlp_download_statuses c :
  returns (fun r => In (reply_status r) (statuses PostDownload)) (YtDlp.download E c).
Proof.
  unfold YtDlp.download, destructure_url. returns_with ltac:(simpl; tauto).
  all: apply redirect_statuses.
Qed.

End Statuses.

(** X20.  Once the body has parsed to something a [url] can be read
    from, one thing only escapes a handler: the [TypeError] of a [url]
    that cannot be turned into text for the pattern test (an object with
    a member [toString] of its own), thrown before the [try] block and
    before anything else is done.  For every other [url] the request is
    answered, [/caption] with 200, 400, 408 or 500 and [/download] with
    302, 400 or 500. *)
Theorem a_parsed_request_always_gets_a_reply
    (E : Env) (v : Variant) (p : Endpoint) (c : Request) (parsed url : jsval) (w : World) :
  req_json c = Ok parsed ->
  url_member parsed = Some url ->
  match ToString url with
  | Ok _ =>
      exists r w',
        handler E v p c w = (Ok r, w') /\ In (reply_status r) (statuses p)
  | Throw e => handler E v p c w = (Throw e, w)
  end.
Proof.
  intros Hj Hu.
  destruct (ToString url) as [s|e] eqn:Hs.
  2:{ apply (handler_coercion_throws E v p c parsed url e w Hj Hu).
      apply rejects_throws_iff. split; [|exact Hs].
      destruct url; simpl in *; try discriminate; reflexivity. }
  assert (Hreply : exists r w', handler E v p c w = (Ok r, w')).
  { destruct (rejects url) as [[|]|e] eqn:Hr.
    - exists invalid_url_reply, w. now apply (handler_rejected E v p c parsed url).
    - destruct (handler_accepted E v p c parsed url w Hj Hu Hr) as (r & w' & H & _).
      eauto.
    - apply rejects_throws_iff in Hr as [_ Hr]. congruence. }
  destruct Hreply as (r & w' & Hrun). exists r, w'. split; [exact Hrun|].
  destruct v, p; cbn [handler] in Hrun.
  - exact (returns_run _ _ _ _ _ (caption_statuses E _ _ _ _ _ _ _ c) Hrun).
  - exact (returns_run _ _ _ _ _ (tikwm_download_statuses E c) Hrun).
  - exact (returns_run _ _ _ _ _ (caption_statuses E _ _ _ _ _ _ _ c) Hrun).
  - exact (returns_run _ _ _ _ _ (ytdlp_download_statuses E c) Hrun).
Qed.

Section Adds.

Variable P : Call -> Prop.

Lemma adds_refl w : adds P w w.
Proof. exists []. split; [now rewrite app_nil_r | constructor]. Qed.

Lemma adds_trans w1 w2 w3 : adds P w1 w2 -> adds P w2 w3 -> adds P w1 w3.
Proof.
  intros (a & Ha & Pa) (b & Hb & Pb). exists (a ++ b). split.
  - now rewrite Hb, Ha, app_assoc.
  - now apply Forall_app.
Qed.

Lemma adds_same_calls w w' : calls w' = calls w -> adds P w w'.
Proof. intros H. exists []. split; [now rewrite app_nil_r | constructor]. Qed.

Lemma adds_one c w w' : calls w' = calls w ++ [c] -> P c -> adds P w w'.
Proof. intros H Hc. exists [c]. split; [exact H | now constructor]. Qed.

Lemma adds_of_silent {A} (m : M World A) : silent calls m -> monotone (adds P) m.
Proof. intros H w. apply adds_same_calls, H. Qed.

End Adds.

Section ProviderSide.

Variable E : Env.

Lemma silent_initCacheDir : silent calls (initCacheDir E).
Proof. intros w. apply (initCacheDir_quiet E w). Qed.

Lemma silent_cache_put p content : silent calls (cache_put E p content).
Proof.
  intros w. destruct (cache_put_runs E p content w) as (w' & H & Hc). now rewrite H.
Qed.

Lemma silent_readFile p : silent calls (readFile E p).
Proof.
  intros w. unfold readFile. destruct (fs_fault E OpReadFile p); [reflexivity|].
  destruct p; simpl.
  - destruct (cache_dir w); reflexivity.
  - destruct (cache w !! name); reflexivity.
  - destruct (tmp w !! name); reflexivity.
Qed.

Lemma silent_ignore_unlink name :
  silent calls (try_catch (unlink E (InTmp name)) (fun _ => ret tt)).
Proof.
  intros w. destruct (ignore_unlink_runs E name w) as (w' & H & _ & Hc & _).
  now rewrite H.
Qed.

Lemma tikwm_getVideoInfo_offers url :
  returns (fun info => exists r d, http_get E (tikwmApiUrl url) = Responded r
                                   /\ json r = Ok d /\ info = data d)
    (Tikwm.getVideoInfo E url).
Proof.
  intros w. destruct (isWellFormed url) eqn:Hwf;
    [|now rewrite (tikwm_getVideoInfo_unencodable E url w Hwf)].
  unfold Tikwm.getVideoInfo, encodeURIComponent, try_catch, bind, fetch, settle,
    throw, ret.
  rewrite Hwf. cbv zeta. fold (tikwmApiUrl url).
  destruct (http_get E _) as [e|r] eqn:Hg; simpl; [exact I|].
  destruct (ok r); simpl; [|exact I].
  destruct (json r) as [d|e] eqn:Hj; simpl; [|exact I].
  destruct (code d =? 0); simpl; [|exact I]. eauto.
Qed.

Lemma adds_tikwm_getVideoInfo url :
  monotone (adds (provider_side E TikwmApi url)) (Tikwm.getVideoInfo E url).
Proof.
  intros w. destruct (isWellFormed url) eqn:Hwf.
  - rewrite (tikwm_getVideoInfo_world E url w Hwf).
    apply (adds_one _ (Fetch (tikwmApiUrl url))); [reflexivity | now left].
  - rewrite (tikwm_getVideoInfo_unencodable E url w Hwf). apply adds_refl.
Qed.

Lemma choose_url_is_offered (info : TikwmVideoInfo) audioOnly :
  In (Tikwm.choose_url info audioOnly)
     [music info; hdplay info; play info; wmplay info].
Proof.
  unfold Tikwm.choose_url, js_or. destruct audioOnly; [now left|].
  destruct (truthy_str (hdplay info)) eqn:H1.
  - rewrite H1. right. now left.
  - destruct (truthy_str (play info)).
    + right. right. now left.
    + right. right. right. now left.
Qed.

Lemma adds_fetch_offered url target :
  offered_by_api E url target ->
  monotone (adds (provider_side E TikwmApi url)) (fetch E target).
Proof.
  intros H w. apply (adds_one _ (Fetch target)); [|now right].
  unfold fetch. destruct (http_get E target); reflexivity.
Qed.

Lemma adds_tikwm_downloadMedia url audioOnly :
  monotone (adds (provider_side E TikwmApi url)) (Tikwm.downloadMedia E url audioOnly).
Proof.
  set (P := provider_side E TikwmApi url).
  unfold Tikwm.downloadMedia. cbv zeta.
  apply (monotone_bind _ (adds_trans P)); [apply adds_of_silent, silent_initCacheDir|].
  intros _.
  apply (monotone_bind _ (adds_trans P)); [apply adds_of_silent, silent_cache_get|].
  intros [media|]; [apply (monotone_ret _ (adds_refl P))|].
  apply (monotone_try_catch _ (adds_trans P));
    [|intros e; apply (monotone_throw _ (adds_refl P))].
  apply (monotone_bind_returns _ _ _ _ (adds_trans P) (tikwm_getVideoInfo_offers url));
    [apply adds_tikwm_getVideoInfo|].
  intros info (r & d & Hg & Hj & ->).
  pose proof (choose_url_is_offered (data d) audioOnly) as Hin.
  destruct (Tikwm.choose_url (data d) audioOnly) as [target|] eqn:Hc; simpl.
  - destruct (negb _); [apply (monotone_throw _ (adds_refl P))|].
    apply (monotone_bind _ (adds_trans P)).
    + apply adds_fetch_offered. exists r, d. auto.
    + intros resp. destruct (negb (ok resp)); [apply (monotone_throw _ (adds_refl P))|].
      apply (monotone_bind _ (adds_trans P));
        [apply adds_of_silent, silent_cache_put|].
      intros _. apply (monotone_ret _ (adds_refl P)).
  - apply (monotone_throw _ (adds_refl P)).
Qed.

Lemma adds_spawn_for url args :
  last args = Some url ->
  monotone (adds (provider_side E YtDlpTool url)) (spawn E "yt-dlp" args).
Proof.
  intros H w. apply (adds_one _ (Spawn "yt-dlp" args)); [|now split].
  unfold spawn. destruct (yt_dlp E args); reflexivity.
Qed.

Lemma adds_ytdlp_getVideoInfo url :
  monotone (adds (provider_side E YtDlpTool url)) (YtDlp.getVideoInfo E url).
Proof.
  set (P := provider_side E YtDlpTool url).
  unfold YtDlp.getVideoInfo.
  apply (monotone_bind _ (adds_trans P)); [now apply adds_spawn_for|].
  intros run. repeat preserved_step (adds_refl P) (adds_trans P).
Qed.

Lemma last_download_args template audioOnly url :
  last (YtDlp.download_args template audioOnly url) = Some url.
Proof. unfold YtDlp.download_args. destruct audioOnly; reflexivity. Qed.

Lemma adds_ytdlp_downloadMedia url audioOnly :
  monotone (adds (provider_side E YtDlpTool url)) (YtDlp.downloadMedia E url audioOnly).
Proof.
  set (P := provider_side E YtDlpTool url).
  unfold YtDlp.downloadMedia. cbv zeta.
  repeat first
    [ apply adds_of_silent, silent_initCacheDir
    | apply adds_of_silent, silent_cache_get
    | apply adds_of_silent, silent_Date_now
    | apply adds_of_silent, silent_readFile
    | apply adds_of_silent, silent_cache_put
    | apply adds_of_silent, silent_ignore_unlink
    | apply adds_spawn_for, last_download_args
    | preserved_step (adds_refl P) (adds_trans P) ].
Qed.

End ProviderSide.

Section CaptionCalls.

Variable E : Env.
Variable Md : Type.
Variable getVideoInfo : string -> M World Md.
Variable downloadMedia : string -> bool -> M World Media.
Variable md_title : Md -> string.
Variable md_author : Md -> string.
Variable md_duration : Md -> float.
Variable response_metadata : Md -> string -> Z -> bool -> ResponseMetadata.

Variable P : Call -> Prop.
Variable url : string.
Variable audioOnly : bool.
Hypothesis info_adds : monotone (adds P) (getVideoInfo url).
Hypothesis media_adds : monotone (adds P) (downloadMedia url audioOnly).
Hypothesis media_named : returns (named_for E url audioOnly) (downloadMedia url audioOnly).

Lemma acquire_adds :
  monotone (lifted (adds P))
    (caption_acquire E Md getVideoInfo downloadMedia md_title md_author url audioOnly).
Proof.
  apply (preserved_caption_acquire E Md getVideoInfo downloadMedia md_title md_author
           (adds P) (adds_refl P) (adds_trans P)).
  - intros w. now apply adds_same_calls.
  - intros l s w. now apply adds_same_calls.
  - exact info_adds.
  - exact media_adds.
Qed.

Lemma acquire_named :
  returns (fun a => named_for E url audioOnly (snd a))
    (caption_acquire E Md getVideoInfo downloadMedia md_title md_author url audioOnly).
Proof.
  unfold caption_acquire.
  do 8 (apply returns_bind; intros ?).
  apply (returns_bind_with (named_for E url audioOnly));
    [apply returns_io, media_named|].
  intros media Hm.
  do 3 (apply returns_bind; intros ?).
  now apply returns_ret.
Qed.

Lemma transcribe_calls debug metadata media s :
  calls (snd (snd (caption_transcribe E Md md_duration response_metadata
                     url audioOnly debug metadata media s)))
  = calls (snd s) ++ [FetchPost (WHISPER_API_URL E) (upload_of media)].
Proof.
  destruct s as [t w]. unfold caption_transcribe. cbv zeta.
  unfold bind at 1, io at 1, Date_now. simpl.
  unfold bind at 1, update at 1. simpl.
  unfold bind at 1, io at 1. simpl. fold (upload_of media).
  unfold fetch_post.
  destruct (whisper E _ _) as [ms r| |e]; [destruct (ms <? 120000)| |];
    try reflexivity.
  simpl. destruct (ok r); simpl; [|reflexivity].
  unfold bind at 1, settle. destruct (json r) as [result|e]; [|reflexivity].
  unfold bind at 1, io at 1, Date_now. simpl.
  unfold bind at 1, update at 1. simpl.
  unfold bind at 1, update at 1. simpl.
  unfold bind at 1, read_timing. simpl.
  destruct debug.
  - unfold bind at 1. unfold bind at 1. unfold settle.
    rewrite debug_block_defined. reflexivity.
  - reflexivity.
Qed.

Lemma catch_calls debug e s :
  calls (snd (snd (caption_catch E debug e s))) = calls (snd s).
Proof.
  destruct s as [t w]. unfold caption_catch.
  unfold bind at 1, io at 1, console_error. simpl.
  unfold bind at 1, io at 1, Date_now. simpl.
  unfold bind at 1, read_timing. simpl.
  destruct (instanceof_Error e); [|reflexivity].
  destruct (String.eqb _ _); [reflexivity|].
  destruct (String.eqb _ _); reflexivity.
Qed.

Lemma pipeline_calls debug w :
  exists pre post,
    calls (snd (caption_pipeline E Md getVideoInfo downloadMedia md_title md_author
                  md_duration response_metadata url audioOnly debug w))
    = calls w ++ pre ++ post
    /\ Forall P pre
    /\ (post = []
        \/ exists media, named_for E url audioOnly media
                         /\ post = [FetchPost (WHISPER_API_URL E) (upload_of media)]).
Proof.
  pose proof (acquire_adds (entry_state E w)) as Hadds.
  pose proof (acquire_named (entry_state E w)) as Hnamed.
  destruct (caption_acquire E Md getVideoInfo downloadMedia md_title md_author
              url audioOnly (entry_state E w)) as [[[metadata media]|e] s1] eqn:Hacq;
    simpl in Hadds, Hnamed; destruct Hadds as (pre & Hpre & HP); simpl in Hpre.
  - rewrite (pipeline_after_acquire _ _ _ _ _ _ _ _ _ _ _ _ _ _ _ Hacq).
    exists pre, [FetchPost (WHISPER_API_URL E) (upload_of media)].
    split; [|split; [exact HP | right; eauto]].
    pose proof (transcribe_calls debug metadata media s1) as Ht.
    unfold try_catch.
    destruct (caption_transcribe _ _ _ _ _ _ _ _ _ s1) as [[r|e] s2]; simpl in *.
    + now rewrite Ht, Hpre, app_assoc.
    + pose proof (catch_calls debug e s2) as Hc.
      destruct (caption_catch E debug e s2) as [r s3]. simpl in *.
      now rewrite Hc, Ht, Hpre, app_assoc.
  - rewrite (pipeline_acquire_fails _ _ _ _ _ _ _ _ _ _ _ _ _ _ Hacq).
    exists pre, []. split; [|split; [exact HP | now left]].
    pose proof (catch_calls debug e s1) as Hc.
    destruct (caption_catch E debug e s1) as [r s3]. simpl in *.
    now rewrite Hc, Hpre, app_nil_r.
Qed.

End CaptionCalls.

(** X21.  The outbound calls of a [/caption] request are calls to the
    provider of the variant (for tikwm: the API URL of the clip and URLs
    the API offered; for yt-dlp: runs of [yt-dlp] with the clip URL as
    last argument), followed by at most one upload, which goes to the
    configured worker URL and carries a file named and typed after the
    URL and the mode. *)
Theorem caption_calls_its_provider_then_the_worker_at_most_once
    (E : Env) (v : Variant) (c : Request) (parsed url : jsval) (w : World) :
  req_json c = Ok parsed ->
  url_member parsed = Some url ->
  exists pre post,
    calls (snd (handler E v PostCaption c w)) = calls w ++ pre ++ post
    /\ Forall (provider_side E v (text_of url)) pre
    /\ (post = []
        \/ exists bytes,
             post = [FetchPost (WHISPER_API_URL E)
                       {| file_bytes := bytes;
                          file_name := "tiktok_" +:+ getCacheKey E (text_of url) +:+ "."
                                       +:+ extension_of (query_is_true c "audio_only");
                          file_type := contentType_of (query_is_true c "audio_only") |}]).
Proof.
  intros Hj Hu. destruct (rejects url) as [[|]|e] eqn:Hr.
  { rewrite (handler_rejected E v PostCaption c parsed url w Hj Hu Hr).
    exists [], []. simpl. rewrite app_nil_r. auto. }
  2:{ rewrite (handler_coercion_throws E v PostCaption c parsed url e w Hj Hu Hr).
      exists [], []. simpl. rewrite app_nil_r. auto. }
  assert (Hshape : forall post,
            (post = []
             \/ exists media,
                  named_for E (text_of url) (query_is_true c "audio_only") media
                  /\ post = [FetchPost (WHISPER_API_URL E) (upload_of media)]) ->
            post = []
            \/ exists bytes,
                 post = [FetchPost (WHISPER_API_URL E)
                           {| file_bytes := bytes;
                              file_name := "tiktok_" +:+ getCacheKey E (text_of url)
                                           +:+ "." +:+ extension_of
                                                         (query_is_true c "audio_only");
                              file_type := contentType_of
                                             (query_is_true c "audio_only") |}]).
  { intros post [->|(media & [Hn Ht] & ->)]; [now left|right].
    exists (buffer media). unfold upload_of. now rewrite Hn, Ht. }
  destruct v; simpl.
  - unfold Tikwm.caption.
    rewrite (caption_handler_accepted _ _ _ _ _ _ _ _ c parsed url) by assumption.
    destruct (pipeline_calls E TikwmVideoInfo (Tikwm.getVideoInfo E)
                (Tikwm.downloadMedia E) tk_title (fun m => nickname (tk_author m))
                tk_duration Tikwm.response_metadata
                (provider_side E TikwmApi (text_of url))
                (text_of url) (query_is_true c "audio_only")
                (adds_tikwm_getVideoInfo E (text_of url))
                (adds_tikwm_downloadMedia E (text_of url) _)
                (tikwm_downloadMedia_named E _ _)
                (query_is_true c "debug") w)
      as (pre & post & H1 & H2 & H3).
    exists pre, post. auto.
  - unfold YtDlp.caption.
    rewrite (caption_handler_accepted _ _ _ _ _ _ _ _ c parsed url) by assumption.
    destruct (pipeline_calls E YtDlpInfo (YtDlp.getVideoInfo E)
                (YtDlp.downloadMedia E) yt_title uploader yt_duration
                YtDlp.response_metadata
                (provider_side E YtDlpTool (text_of url))
                (text_of url) (query_is_true c "audio_only")
                (adds_ytdlp_getVideoInfo E (text_of url))
                (adds_ytdlp_downloadMedia E (text_of url) _)
                (ytdlp_downloadMedia_named E _ _)
                (query_is_true c "debug") w)
      as (pre & post & H1 & H2 & H3).
    exists pre, post. auto.
Qed.

(** ** The [debug] parameter *)

Lemma agree_bind {S A} (m : M S A) (k k' : A -> M S Reply) s :
  (forall a s1, agree_up_to_debug (k a s1) (k' a s1)) ->
  agree_up_to_debug (bind m k s) (bind m k' s).
Proof.
  intros H. unfold bind. destruct (m s) as [[a|e] s1]; [apply H | now split].
Qed.

Section DebugFlag.

Variable E : Env.
Variable Md : Type.
Variable getVideoInfo : string -> M World Md.
Variable downloadMedia : string -> bool -> M World Media.
Variable md_title : Md -> string.
Variable md_author : Md -> string.
Variable md_duration : Md -> float.
Variable response_metadata : Md -> string -> Z -> bool -> ResponseMetadata.

Lemma transcribe_agrees url audioOnly metadata media s :
  agree_up_to_debug
    (caption_transcribe E Md md_duration response_metadata url audioOnly true
       metadata media s)
    (caption_transcribe E Md md_duration response_metadata url audioOnly false
       metadata media s).
Proof.
  unfold caption_transcribe. cbv zeta.
  do 3 (apply agree_bind; intros ? ?).
  destruct (negb (ok _)).
  - apply agree_bind; intros ? ?. now split.
  - do 5 (apply agree_bind; intros ? ?).
    unfold bind, settle, ret. rewrite debug_block_defined. now split.
Qed.

Lemma catch_agrees e s :
  agree_up_to_debug (caption_catch E true e s) (caption_catch E false e s).
Proof.
  unfold caption_catch.
  do 3 (apply agree_bind; intros ? ?).
  destruct (instanceof_Error e); [|now split].
  destruct (String.eqb _ _); [now split|].
  destruct (String.eqb _ _); now split.
Qed.

Lemma pipeline_agrees url audioOnly w :
  agree_up_to_debug
    (caption_pipeline E Md getVideoInfo downloadMedia md_title md_author md_duration
       response_metadata url audioOnly true w)
    (caption_pipeline E Md getVideoInfo downloadMedia md_title md_author md_duration
       response_metadata url audioOnly false w).
Proof.
  destruct (caption_acquire E Md getVideoInfo downloadMedia md_title md_author
              url audioOnly (entry_state E w)) as [[[metadata media]|e] s1] eqn:Hacq.
  - rewrite !(pipeline_after_acquire _ _ _ _ _ _ _ _ _ _ _ _ _ _ _ Hacq).
    destruct (transcribe_agrees url audioOnly metadata media s1) as [Hs Hr].
    unfold try_catch.
    destruct (caption_transcribe _ _ _ _ _ _ true _ _ s1) as [[r|e] s2];
      destruct (caption_transcribe _ _ _ _ _ _ false _ _ s1) as [[r'|e'] s2'];
      simpl in Hs, Hr; subst; try discriminate.
    + injection Hr as ->. now split.
    + injection Hr as ->.
      destruct (catch_agrees e s2) as [Hs Hr].
      destruct (caption_catch E true e s2) as [o1 s3];
        destruct (caption_catch E false e s2) as [o2 s3'].
      simpl in *. subst. now split.
  - rewrite !(pipeline_acquire_fails _ _ _ _ _ _ _ _ _ _ _ _ _ _ Hacq).
    destruct (catch_agrees e s1) as [Hs Hr].
    destruct (caption_catch E true e s1) as [o1 s3];
      destruct (caption_catch E false e s1) as [o2 s3'].
    simpl in *. subst. now split.
Qed.

Lemma caption_handler_agrees c c' w :
  req_json c = req_json c' ->
  query_is_true c "audio_only" = query_is_true c' "audio_only" ->
  query_is_true c "debug" = true ->
  query_is_true c' "debug" = false ->
  agree_up_to_debug
    (caption_handler E Md getVideoInfo downloadMedia md_title md_author md_duration
       response_metadata c w)
    (caption_handler E Md getVideoInfo downloadMedia md_title md_author md_duration
       response_metadata c' w).
Proof.
  intros Hj Ha Hd Hd'. unfold caption_handler.
  rewrite <- Hj, <- Ha, Hd, Hd'.
  unfold bind at 1 3, settle. destruct (req_json c) as [parsed|e]; [|now split].
  unfold bind, destructure_url.
  destruct (url_member parsed) as [url|]; [|now split].
  unfold ret at 1 3. destruct (rejects url) as [[|]|e]; [now split | | now split].
  apply pipeline_agrees.
Qed.

End DebugFlag.

(** X22.  The [debug] parameter changes nothing but the reply: the same
    request without [debug=true] ends in the same world (same outbound
    calls, files, log and clock readings) and gets the same reply less
    its [debug] member. *)
Theorem debug_only_adds_the_debug_member
    (E : Env) (v : Variant) (c c' : Request) (w : World) :
  req_json c = req_json c' ->
  query_is_true c "audio_only" = query_is_true c' "audio_only" ->
  query_is_true c "debug" = true ->
  query_is_true c' "debug" = false ->
  snd (handler E v PostCaption c' w) = snd (handler E v PostCaption c w)
  /\ match fst (handler E v PostCaption c w) with
     | Ok r => fst (handler E v PostCaption c' w) = Ok (without_debug r)
     | Throw e => fst (handler E v PostCaption c' w) = Throw e
     end.
Proof.
  intros Hj Ha Hd Hd'. destruct v; cbn [handler].
  - unfold Tikwm.caption. now apply caption_handler_agrees.
  - unfold YtDlp.caption. now apply caption_handler_agrees.
Qed.

(** ** Failures of the [/caption] pipeline *)

(** X16.  When the provider fails, [/caption] replies with the bare 500
    "An internal server error occurred.", without details and without
    debug information whatever the [debug] parameter, even when the media
    is in the cache; the provider call is the only outbound call, and
    the message is found in the log only. *)
Theorem caption_reports_a_provider_failure_as_a_bare_500
    (E : Env) (v : Variant) (c : Request) (parsed url : jsval) (m : string) (w : World) :
  req_json c = Ok parsed ->
  url_member parsed = Some url ->
  accepted_url (text_of url) ->
  provider_failure E v (text_of url) = Some m ->
  exists w',
    handler E v PostCaption c w = (Ok (JsonError 500 internal_error_body), w')
    /\ calls w' = calls w ++ [provider_call v (text_of url)]
    /\ same_cache w w'
    /\ last (console w') = Some (LogError, thrown_to_string (new_Error m)).
Proof.
  intros Hj Hu Hacc Hf. apply rejects_false_iff in Hacc.
  destruct v; simpl.
  - unfold Tikwm.caption.
    rewrite (caption_handler_accepted _ _ _ _ _ _ _ _ c parsed url) by assumption.
    rewrite (pipeline_metadata_fails E _ _ _ _ _ _ _ _ _ _ _ m _
               (tikwm_getVideoInfo_fails E _ m _ Hf)).
    eexists. split; [reflexivity|]. simpl. split; [reflexivity|].
    split; [now split|]. apply last_snoc.
  - unfold YtDlp.caption.
    rewrite (caption_handler_accepted _ _ _ _ _ _ _ _ c parsed url) by assumption.
    destruct (ytdlp_getVideoInfo_fails E _ m (next_tick (next_tick w)) Hf)
      as (w1 & Hr & Hc & Hs1 & Hs2).
    rewrite (pipeline_metadata_fails E _ _ _ _ _ _ _ _ _ _ _ m _ Hr).
    eexists. split; [reflexivity|]. simpl. split; [exact Hc|].
    split; [now split|]. apply last_snoc.
Qed.

Section WorkerFailures.

Variable E : Env.
Variable Md : Type.
Variable md_duration : Md -> float.
Variable response_metadata : Md -> string -> Z -> bool -> ResponseMetadata.

Lemma transcribe_unreachable url audioOnly debug metadata media s1 e :
  whisper E (WHISPER_API_URL E) (upload_of media) = Unreachable e ->
  caption_transcribe E Md md_duration response_metadata url audioOnly debug
    metadata media s1
  = (Throw e, dispatch_state E media s1).
Proof.
  intros H. destruct s1 as [t1 w1].
  unfold caption_transcribe. cbv zeta.
  unfold bind at 1, io at 1, Date_now. simpl.
  unfold bind at 1, update at 1. simpl.
  unfold bind at 1, io at 1. simpl.
  fold (upload_of media). unfold fetch_post. now rewrite H.
Qed.

Lemma transcribe_unreadable url audioOnly debug metadata media s1 ms r e :
  whisper E (WHISPER_API_URL E) (upload_of media) = RespondsAfter ms r ->
  ms < 120000 -> ok r = true -> json r = Throw e ->
  caption_transcribe E Md md_duration response_metadata url audioOnly debug
    metadata media s1
  = (Throw e, dispatch_state E media s1).
Proof.
  intros H Hms Hok Hj. destruct s1 as [t1 w1].
  unfold caption_transcribe. cbv zeta.
  unfold bind at 1, io at 1, Date_now. simpl.
  unfold bind at 1, update at 1. simpl.
  unfold bind at 1, io at 1. simpl.
  fold (upload_of media). rewrite (fetch_post_in_time E _ _ ms r H Hms).
  rewrite Hok. simpl. unfold bind at 1, settle. now rewrite Hj.
Qed.

End WorkerFailures.

(** X17.  When the worker cannot be reached, or answers in time with a
    success status and a body that is not JSON, and the error is not
    named as a timeout, [/caption] replies with the bare 500; the upload
    is the last outbound call and the error is logged. *)
Theorem a_broken_worker_is_a_bare_500
    (E : Env) (v : Variant) (c : Request) (parsed url : jsval) (w : World)
    (media : Media) (s1 : Timing * World) (e : thrown) :
  req_json c = Ok parsed ->
  url_member parsed = Some url ->
  accepted_url (text_of url) ->
  acquire E v (text_of url) (query_is_true c "audio_only") (entry_state E w)
    = (Ok media, s1) ->
  worker_breaks E (upload_of media) e ->
  error_name e <> "TimeoutError" ->
  error_name e <> "AbortError" ->
  exists w',
    handler E v PostCaption c w = (Ok (JsonError 500 internal_error_body), w')
    /\ calls w' = calls (snd s1) ++ [FetchPost (WHISPER_API_URL E) (upload_of media)]
    /\ last (console w') = Some (LogError, thrown_to_string e).
Proof.
  intros Hj Hu Hacc Hacq Hbreak Hn1 Hn2. apply rejects_false_iff in Hacc.
  assert (Ht : forall Md md_duration response_metadata debug (metadata : Md),
             caption_transcribe E Md md_duration response_metadata (text_of url)
               (query_is_true c "audio_only") debug metadata media s1
             = (Throw e, dispatch_state E media s1)).
  { intros. destruct Hbreak as [H | (ms & r & H & Hms & Hok & Hjs)].
    - now apply transcribe_unreachable.
    - now apply (transcribe_unreadable _ _ _ _ _ _ _ _ _ _ ms r). }
  destruct v; simpl in *.
  - unfold Tikwm.caption.
    rewrite (caption_handler_accepted _ _ _ _ _ _ _ _ c parsed url) by assumption.
    apply bind_ret_inv in Hacq as ([md m] & Ha & ->). simpl in *.
    rewrite (pipeline_after_acquire _ _ _ _ _ _ _ _ _ _ _ _ _ _ s1 Ha).
    unfold try_catch. rewrite Ht. unfold dispatch_state.
    rewrite (catch_other E _ e _ _ Hn1 Hn2). simpl.
    eexists. split; [reflexivity|]. split; [reflexivity|]. apply last_snoc.
  - unfold YtDlp.caption.
    rewrite (caption_handler_accepted _ _ _ _ _ _ _ _ c parsed url) by assumption.
    apply bind_ret_inv in Hacq as ([md m] & Ha & ->). simpl in *.
    rewrite (pipeline_after_acquire _ _ _ _ _ _ _ _ _ _ _ _ _ _ s1 Ha).
    unfold try_catch. rewrite Ht. unfold dispatch_state.
    rewrite (catch_other E _ e _ _ Hn1 Hn2). simpl.
    eexists. split; [reflexivity|]. split; [reflexivity|]. apply last_snoc.
Qed.

Section TimeoutStage.

Variable E : Env.
Variable Md : Type.
Variable getVideoInfo : string -> M World Md.
Variable downloadMedia : string -> bool -> M World Media.
Variable md_title : Md -> string.
Variable md_author : Md -> string.
Variable md_duration : Md -> float.
Variable response_metadata : Md -> string -> Z -> bool -> ResponseMetadata.

Hypothesis info_throws : forall url, throws_only no_timeout (getVideoInfo url).
Hypothesis media_throws :
  forall url audioOnly, throws_only no_timeout (downloadMedia url audioOnly).

Lemma caption_handler_inv c w r w' :
  caption_handler E Md getVideoInfo downloadMedia md_title md_author md_duration
    response_metadata c w = (Ok r, w') ->
  reply_status r <> 400 ->
  exists parsed url,
    req_json c = Ok parsed /\ url_member parsed = Some url /\ rejects url = Ok false
    /\ caption_pipeline E Md getVideoInfo downloadMedia md_title md_author md_duration
         response_metadata (text_of url) (query_is_true c "audio_only")
         (query_is_true c "debug") w = (Ok r, w').
Proof.
  unfold caption_handler. unfold bind at 1, settle at 1.
  destruct (req_json c) as [parsed|e] eqn:Hj; [|discriminate].
  unfold bind at 1, destructure_url.
  destruct (url_member parsed) as [url|] eqn:Hu; [|discriminate].
  unfold ret at 1. unfold bind at 1, settle at 1.
  destruct (rejects url) as [[|]|e] eqn:Hr; [| |discriminate].
  - intros [= <- <-] H. exfalso. now apply H.
  - intros H _. exists parsed, url. auto.
Qed.

Lemma acquire_throws url audioOnly :
  throws_only no_timeout
    (caption_acquire E Md getVideoInfo downloadMedia md_title md_author url audioOnly).
Proof.
  unfold caption_acquire.
  repeat first
    [ throws_step
    | apply throws_only_of_never, never_throws_Date_now
    | apply throws_only_of_never, never_throws_update
    | apply throws_only_of_never, never_throws_console_log
    | apply info_throws | apply media_throws ].
Qed.

Lemma transcribe_outcome url audioOnly debug metadata media s :
  match caption_transcribe E Md md_duration response_metadata url audioOnly debug
          metadata media s with
  | (Ok r, _) => reply_status r <> 408
  | (Throw e, s') => transcribeStart (fst s') = clock E (ticks (snd s))
  end.
Proof.
  destruct s as [t w]. unfold caption_transcribe. cbv zeta.
  unfold bind at 1, io at 1, Date_now. simpl.
  unfold bind at 1, update at 1. simpl.
  unfold bind at 1, io at 1. simpl.
  destruct (fetch_post E _ _ _ _) as [[r|e] w1]; [|reflexivity].
  destruct (ok r); simpl; [|discriminate].
  unfold bind at 1, settle. destruct (json r) as [result|e]; [|reflexivity].
  unfold bind at 1, io at 1, Date_now. simpl.
  unfold bind at 1, update at 1. simpl.
  unfold bind at 1, update at 1. simpl.
  unfold bind at 1, read_timing. simpl.
  destruct debug.
  - unfold bind, settle. rewrite debug_block_defined. simpl. discriminate.
  - simpl. discriminate.
Qed.

Lemma catch_408 debug e t w b s' :
  caption_catch E debug e (t, w) = (Ok (JsonError 408 b), s') ->
  ~ no_timeout e
  /\ calls (snd s') = calls w
  /\ forall d, error_debug b = Some d -> failedAt d = failed_stage t.
Proof.
  unfold caption_catch.
  unfold bind at 1, io at 1, console_error. simpl.
  unfold bind at 1, io at 1, Date_now. simpl.
  unfold bind at 1, read_timing. simpl.
  destruct (instanceof_Error e) eqn:Hi; [|discriminate].
  destruct (String.eqb_spec (error_name e) "TimeoutError") as [Hn|Hn].
  - intros [= <- <-]. split; [intros [H _]; contradiction|]. split; [reflexivity|].
    simpl. destruct debug; [|discriminate]. now intros d [= <-].
  - destruct (String.eqb_spec (error_name e) "AbortError") as [Hn'|Hn']; [|discriminate].
    intros [= <- <-]. split; [intros [_ H]; contradiction|]. split; [reflexivity|].
    simpl. destruct debug; [|discriminate]. now intros d [= <-].
Qed.

Lemma pipeline_408 url audioOnly debug w b w' :
  (forall n, 0 < clock E n) ->
  caption_pipeline E Md getVideoInfo downloadMedia md_title md_author md_duration
    response_metadata url audioOnly debug w = (Ok (JsonError 408 b), w') ->
  (exists file, last (calls w') = Some (FetchPost (WHISPER_API_URL E) file))
  /\ forall d, error_debug b = Some d -> failedAt d = "transcription".
Proof.
  intros Hclock.
  destruct (caption_acquire E Md getVideoInfo downloadMedia md_title md_author
              url audioOnly (entry_state E w)) as [[[metadata media]|e] s1] eqn:Hacq.
  - rewrite (pipeline_after_acquire _ _ _ _ _ _ _ _ _ _ _ _ _ _ _ Hacq).
    pose proof (transcribe_outcome url audioOnly debug metadata media s1) as Hout.
    pose proof (transcribe_calls E Md md_duration response_metadata
                  url audioOnly debug metadata media s1) as Hcalls.
    unfold try_catch.
    destruct (caption_transcribe _ _ _ _ _ _ _ _ _ s1) as [[r|e] [t2 w2]].
    + intros [= -> <-]. exfalso. now apply Hout.
    + destruct (caption_catch E debug e (t2, w2)) as [o s3] eqn:Hcatch.
      intros [= -> <-]. apply catch_408 in Hcatch as (_ & Hc & Hstage).
      simpl in *. split.
      * exists (upload_of media). rewrite Hc, Hcalls. apply last_snoc.
      * intros d Hd. rewrite (Hstage d Hd). unfold failed_stage.
        rewrite Hout. specialize (Hclock (ticks (snd s1))).
        destruct (Z.gtb_spec (clock E (ticks (snd s1))) 0); [reflexivity | lia].
  - rewrite (pipeline_acquire_fails _ _ _ _ _ _ _ _ _ _ _ _ _ _ Hacq).
    pose proof (throws_run _ _ _ _ _ (acquire_throws url audioOnly) Hacq) as Hno.
    destruct s1 as [t1 w1].
    rewrite (catch_other E debug e t1 w1 (proj1 Hno) (proj2 Hno)). discriminate.
Qed.

End TimeoutStage.

(** X18.  Provided clock readings are positive and making the cache
    directory raises no error named as a timeout, a 408 reply of
    [/caption] comes after the upload to the worker, which is the last
    outbound call, and its [failedAt], when present, is
    ["transcription"]: the provider stages wrap their errors, so their
    failures never give 408. *)
Theorem a_timeout_reply_always_blames_the_transcription
    (E : Env) (v : Variant) (c : Request) (w w' : World) (b : ErrorBody) :
  (forall n, 0 < clock E n) ->
  mkdir_does_not_time_out E ->
  handler E v PostCaption c w = (Ok (JsonError 408 b), w') ->
  (exists file, last (calls w') = Some (FetchPost (WHISPER_API_URL E) file))
  /\ forall d, error_debug b = Some d -> failedAt d = "transcription".
Proof.
  intros Hclock Hmk Hrun. destruct v; simpl in Hrun.
  - unfold Tikwm.caption in Hrun.
    apply caption_handler_inv in Hrun as (parsed & url & _ & _ & _ & Hrun);
      [|discriminate].
    exact (pipeline_408 E _ _ _ _ _ _ _
             (tikwm_getVideoInfo_throws E) (tikwm_downloadMedia_throws E Hmk)
             _ _ _ _ _ _ Hclock Hrun).
  - unfold YtDlp.caption in Hrun.
    apply caption_handler_inv in Hrun as (parsed & url & _ & _ & _ & Hrun);
      [|discriminate].
    exact (pipeline_408 E _ _ _ _ _ _ _
             (ytdlp_getVideoInfo_throws E) (ytdlp_downloadMedia_throws E Hmk)
             _ _ _ _ _ _ Hclock Hrun).
Qed.

(** ** The successful caption *)

Section CaptionReply.

Variable E : Env.
Variable Md : Type.
Variable getVideoInfo : string -> M World Md.
Variable downloadMedia : string -> bool -> M World Media.
Variable md_title : Md -> string.
Variable md_author : Md -> string.
Variable md_duration : Md -> float.
Variable response_metadata : Md -> string -> Z -> bool -> ResponseMetadata.

Hypothesis metadata_literal :
  forall m processing size was_cached,
    processingType (response_metadata m processing size was_cached) = processing
    /\ fileSize (response_metadata m processing size was_cached) = size.

Lemma transcribe_caption_inv url audioOnly dbg md media s body s' :
  caption_transcribe E Md md_duration response_metadata url audioOnly dbg
    md media s = (Ok (JsonCaption body), s') ->
  exists ms r result,
    whisper E (WHISPER_API_URL E) (upload_of media) = RespondsAfter ms r
    /\ ms < 120000 /\ ok r = true /\ json r = Ok result
    /\ cb_url body = url
    /\ cb_caption body = caption result
    /\ processingType (metadata body) = (if audioOnly then "audio-only" else "video")
    /\ fileSize (metadata body) = Z.of_nat (length (buffer media))
    /\ downloadUrl body = "/download"
    /\ (is_Some (debug body) <-> dbg = true).
Proof.
  destruct s as [t w]. unfold caption_transcribe. cbv zeta.
  unfold bind at 1, io at 1, Date_now. simpl.
  unfold bind at 1, update at 1. simpl.
  unfold bind at 1, io at 1. simpl. fold (upload_of media).
  unfold fetch_post.
  destruct (whisper E _ _) as [ms r| |e] eqn:Hw; try discriminate.
  destruct (Z.ltb_spec ms 120000) as [Hms|]; [|discriminate]. simpl.
  destruct (ok r) eqn:Hok; simpl; [|discriminate].
  unfold bind at 1, settle at 1. destruct (json r) as [result|e] eqn:Hj; [|discriminate].
  unfold bind at 1, io at 1, Date_now. simpl.
  unfold bind at 1, update at 1. simpl.
  unfold bind at 1, update at 1. simpl.
  unfold bind at 1, read_timing. simpl.
  intros H. exists ms, r, result.
  do 4 (split; [assumption || reflexivity|]).
  destruct dbg.
  - unfold bind, settle in H. rewrite debug_block_defined in H.
    injection H as <- <-. simpl.
    destruct (metadata_literal md
                (if audioOnly then "audio-only" else "video")
                (Z.of_nat (length (buffer media))) (cached media)) as [-> ->].
    repeat split; eauto.
  - injection H as <- <-. simpl.
    destruct (metadata_literal md
                (if audioOnly then "audio-only" else "video")
                (Z.of_nat (length (buffer media))) (cached media)) as [-> ->].
    repeat split; try reflexivity; [intros [x Hx]; discriminate | discriminate].
Qed.

Lemma catch_is_an_error dbg e :
  returns (fun r => forall body, r <> JsonCaption body) (caption_catch E dbg e).
Proof.
  unfold caption_catch. returns_with ltac:(intros ?; discriminate).
Qed.

Lemma pipeline_caption_inv url audioOnly dbg w body w' :
  caption_pipeline E Md getVideoInfo downloadMedia md_title md_author md_duration
    response_metadata url audioOnly dbg w = (Ok (JsonCaption body), w') ->
  exists media ms r result,
    last (calls w') = Some (FetchPost (WHISPER_API_URL E) (upload_of media))
    /\ whisper E (WHISPER_API_URL E) (upload_of media) = RespondsAfter ms r
    /\ ms < 120000 /\ ok r = true /\ json r = Ok result
    /\ cb_url body = url
    /\ cb_caption body = caption result
    /\ processingType (metadata body) = (if audioOnly then "audio-only" else "video")
    /\ fileSize (metadata body) = Z.of_nat (length (buffer media))
    /\ downloadUrl body = "/download"
    /\ (is_Some (debug body) <-> dbg = true).
Proof.
  destruct (caption_acquire E Md getVideoInfo downloadMedia md_title md_author
              url audioOnly (entry_state E w)) as [[[md media]|e] s1] eqn:Hacq.
  - rewrite (pipeline_after_acquire _ _ _ _ _ _ _ _ _ _ _ _ _ _ _ Hacq).
    pose proof (transcribe_calls E Md md_duration response_metadata
                  url audioOnly dbg md media s1) as Hcalls.
    unfold try_catch.
    destruct (caption_transcribe _ _ _ _ _ _ _ _ _ s1) as [[r|e] s2] eqn:Ht.
    + intros [= -> <-].
      apply transcribe_caption_inv in Ht as (ms & r & result & H).
      exists media, ms, r, result. split; [|exact H].
      simpl in Hcalls. rewrite Hcalls. apply last_snoc.
    + pose proof (catch_is_an_error dbg e s2) as Hc.
      destruct (caption_catch E dbg e s2) as [[r|e'] s3]; [|discriminate].
      intros [= -> <-]. now contradiction (Hc body).
  - rewrite (pipeline_acquire_fails _ _ _ _ _ _ _ _ _ _ _ _ _ _ Hacq).
    pose proof (catch_is_an_error dbg e s1) as Hc.
    destruct (caption_catch E dbg e s1) as [[r|e'] s3]; [|discriminate].
    intros [= -> <-]. now contradiction (Hc body).
Qed.

End CaptionReply.

(** X19.  A 200 reply of [/caption] is grounded: its URL passed the
    validation, the last outbound call is the upload to the worker, the
    worker answered it within 120000 ms with a success status and
    readable JSON, the caption is the one of that answer, the reported
    file size is the size of the uploaded bytes, the processing type is
    the one of the [audio_only] parameter, and the [debug] member is
    there exactly when [debug=true]. *)
Theorem a_caption_is_what_the_worker_answered_in_time
    (E : Env) (v : Variant) (c : Request) (w w' : World) (body : CaptionBody) :
  handler E v PostCaption c w = (Ok (JsonCaption body), w') ->
  exists file ms r result,
    last (calls w') = Some (FetchPost (WHISPER_API_URL E) file)
    /\ whisper E (WHISPER_API_URL E) file = RespondsAfter ms r
    /\ ms < 120000 /\ ok r = true /\ json r = Ok result
    /\ cb_caption body = caption result
    /\ accepted_url (cb_url body)
    /\ processingType (metadata body)
       = (if query_is_true c "audio_only" then "audio-only" else "video")
    /\ fileSize (metadata body) = Z.of_nat (length (file_bytes file))
    /\ downloadUrl body = "/download"
    /\ (is_Some (debug body) <-> query_is_true c "debug" = true).
Proof.
  intros Hrun. destruct v; simpl in Hrun.
  - unfold Tikwm.caption in Hrun.
    apply caption_handler_inv in Hrun as (parsed & url & _ & _ & Hacc & Hrun);
      [|discriminate].
    apply pipeline_caption_inv in Hrun
      as (media & ms & r & result & H1 & H2 & H3 & H4 & H5 & H6 & H7 & H8 & H9 & H10);
      [|intros; split; reflexivity].
    exists (upload_of media), ms, r, result.
    rewrite H6. apply rejects_false_iff in Hacc.
    repeat split; try assumption; apply H10.
  - unfold YtDlp.caption in Hrun.
    apply caption_handler_inv in Hrun as (parsed & url & _ & _ & Hacc & Hrun);
      [|discriminate].
    apply pipeline_caption_inv in Hrun
      as (media & ms & r & result & H1 & H2 & H3 & H4 & H5 & H6 & H7 & H8 & H9 & H10);
      [|intros; split; reflexivity].
    exists (upload_of media), ms, r, result.
    rewrite H6. apply rejects_false_iff in Hacc.
    repeat split; try assumption; apply H10.
Qed.

(** *** Phase times *)

Lemma later_refl w : later w w.
Proof. unfold later. lia. Qed.

Lemma later_trans w1 w2 w3 : later w1 w2 -> later w2 w3 -> later w1 w3.
Proof. unfold later. lia. Qed.

Section Later.

Variable E : Env.

Lemma later_Date_now : monotone later (Date_now E).
Proof. intros w. unfold later. simpl. lia. Qed.

Lemma later_console_log line : monotone later (console_log line).
Proof. intros w. (unfold later; simpl; lia). Qed.

Lemma later_console_warn line : monotone later (console_warn line).
Proof. intros w. (unfold later; simpl; lia). Qed.

Lemma later_access p : monotone later (access E p).
Proof.
  intros w. unfold access. destruct (fs_fault E OpAccess p); [(unfold later; simpl; lia)|].
  destruct (exists_at p w); (unfold later; simpl; lia).
Qed.

Lemma later_mkdir p : monotone later (mkdir_recursive E p).
Proof.
  intros w. unfold mkdir_recursive. destruct (fs_fault E OpMkdir p); [(unfold later; simpl; lia)|].
  destruct p; (unfold later; simpl; lia).
Qed.

Lemma later_readFile p : monotone later (readFile E p).
Proof.
  intros w. unfold readFile. destruct (fs_fault E OpReadFile p); [(unfold later; simpl; lia)|].
  destruct p; simpl.
  - destruct (cache_dir w); (unfold later; simpl; lia).
  - destruct (cache w !! name); (unfold later; simpl; lia).
  - destruct (tmp w !! name); (unfold later; simpl; lia).
Qed.

Lemma later_writeFile p content : monotone later (writeFile E p content).
Proof.
  intros w. unfold writeFile. destruct (fs_fault E OpWriteFile p); [(unfold later; simpl; lia)|].
  destruct p; simpl; try (unfold later; simpl; lia).
  destruct (cache_dir w); (unfold later; simpl; lia).
Qed.

Lemma later_unlink p : monotone later (unlink E p).
Proof.
  intros w. unfold unlink. destruct (fs_fault E OpUnlink p); [(unfold later; simpl; lia)|].
  destruct p; simpl.
  - (unfold later; simpl; lia).
  - destruct (cache w !! name); (unfold later; simpl; lia).
  - destruct (tmp w !! name); (unfold later; simpl; lia).
Qed.

Lemma later_fetch url : monotone later (fetch E url).
Proof. intros w. unfold fetch. destruct (http_get E url); (unfold later; simpl; lia). Qed.

Lemma later_spawn command args : monotone later (spawn E command args).
Proof. intros w. unfold spawn. destruct (yt_dlp E args); (unfold later; simpl; lia). Qed.

Ltac later_step :=
  first
    [ preserved_step later_refl later_trans
    | apply later_Date_now | apply later_console_log | apply later_console_warn
    | apply later_access | apply later_mkdir | apply later_readFile
    | apply later_writeFile | apply later_unlink | apply later_fetch
    | apply later_spawn ].

Lemma later_tikwm_getVideoInfo url : monotone later (Tikwm.getVideoInfo E url).
Proof. unfold Tikwm.getVideoInfo. cbv zeta. repeat later_step. Qed.

Lemma later_ytdlp_getVideoInfo url : monotone later (YtDlp.getVideoInfo E url).
Proof. unfold YtDlp.getVideoInfo. repeat later_step. Qed.

Lemma later_tikwm_downloadMedia url audioOnly :
  monotone later (Tikwm.downloadMedia E url audioOnly).
Proof.
  unfold Tikwm.downloadMedia, initCacheDir, cache_get, cache_put. cbv zeta.
  repeat first [later_step | apply later_tikwm_getVideoInfo].
Qed.

Lemma later_ytdlp_downloadMedia url audioOnly :
  monotone later (YtDlp.downloadMedia E url audioOnly).
Proof.
  unfold YtDlp.downloadMedia, initCacheDir, cache_get, cache_put. cbv zeta.
  repeat later_step.
Qed.

End Later.

Section PhaseTimes.

Variable E : Env.
Variable Md : Type.
Variable getVideoInfo : string -> M World Md.
Variable downloadMedia : string -> bool -> M World Media.
Variable md_title : Md -> string.
Variable md_author : Md -> string.
Variable md_duration : Md -> float.
Variable response_metadata : Md -> string -> Z -> bool -> ResponseMetadata.

Hypothesis info_later : forall url, monotone later (getVideoInfo url).
Hypothesis media_later : forall url audioOnly, monotone later (downloadMedia url audioOnly).

Lemma run_later {A} (m : M World A) w r w' :
  monotone later m -> m w = (r, w') -> (ticks w <= ticks w')%nat.
Proof. intros H Hr. specialize (H w). now rewrite Hr in H. Qed.

Lemma acquire_stamps url audioOnly w a s1 :
  caption_acquire E Md getVideoInfo downloadMedia md_title md_author url audioOnly
    (entry_state E w) = (Ok a, s1) ->
  exists k2 k4 : nat,
    (S (ticks w) < k2)%nat /\ (S k2 < k4)%nat /\ ticks (snd s1) = S k4
    /\ fst s1 = mkTiming (clock E (ticks w)) (clock E (S (ticks w))) (clock E k2)
                  (clock E (S k2)) (clock E k4) 0 0 0.
Proof.
  unfold caption_acquire, entry_state. intros H.
  apply bind_inv_ok in H as (t1 & [ta wa] & H1 & H).
  unfold io, Date_now in H1. simpl in H1. injection H1 as <- <- <-.
  apply bind_inv_ok in H as (u1 & [tb wb] & H1 & H).
  unfold update in H1. simpl in H1. injection H1 as _ <- <-.
  apply bind_inv_ok in H as (metadata & [tc wc] & H1 & H).
  unfold io in H1. simpl in H1.
  destruct (getVideoInfo url _) as [o wi] eqn:Hinfo. injection H1 as -> <- <-.
  apply (run_later _ _ _ _ (info_later url)) in Hinfo. simpl in Hinfo.
  apply bind_inv_ok in H as (t2 & [td wd] & H1 & H).
  unfold io, Date_now in H1. simpl in H1. injection H1 as <- <- <-.
  apply bind_inv_ok in H as (u2 & [te we] & H1 & H).
  unfold update in H1. simpl in H1. injection H1 as _ <- <-.
  apply bind_inv_ok in H as (u3 & [tf wf] & H1 & H).
  unfold io, console_log in H1. simpl in H1. injection H1 as _ <- <-.
  apply bind_inv_ok in H as (t3 & [tg wg] & H1 & H).
  unfold io, Date_now in H1. simpl in H1. injection H1 as <- <- <-.
  apply bind_inv_ok in H as (u4 & [th wh] & H1 & H).
  unfold update in H1. simpl in H1. injection H1 as _ <- <-.
  apply bind_inv_ok in H as (media & [ti wi'] & H1 & H).
  unfold io in H1. simpl in H1.
  destruct (downloadMedia url audioOnly _) as [o wm] eqn:Hmedia. injection H1 as -> <- <-.
  apply (run_later _ _ _ _ (media_later url audioOnly)) in Hmedia. simpl in Hmedia.
  apply bind_inv_ok in H as (t4 & [tj wj] & H1 & H).
  unfold io, Date_now in H1. simpl in H1. injection H1 as <- <- <-.
  apply bind_inv_ok in H as (u5 & [tk wk] & H1 & H).
  unfold update in H1. simpl in H1. injection H1 as _ <- <-.
  apply bind_inv_ok in H as (u6 & [tl wl] & H1 & H).
  unfold io, console_log in H1. simpl in H1. injection H1 as _ <- <-.
  injection H as _ <-. simpl.
  exists (ticks wi), (ticks wm). repeat split; try lia.
Qed.

Lemma phase_times_fit url audioOnly w a s1 :
  clock_never_runs_backwards E ->
  caption_acquire E Md getVideoInfo downloadMedia md_title md_author url audioOnly
    (entry_state E w) = (Ok a, s1) ->
  let t := success_timing E s1 in
  0 <= metadataEnd t - metadataStart t
  /\ 0 <= downloadEnd t - downloadStart t
  /\ 0 <= transcribeEnd t - transcribeStart t
  /\ (metadataEnd t - metadataStart t) + (downloadEnd t - downloadStart t)
     + (transcribeEnd t - transcribeStart t) <= total t.
Proof.
  intros Hclock Hacq.
  destruct (acquire_stamps _ _ _ _ _ Hacq) as (k2 & k4 & H1 & H2 & H3 & H4).
  unfold success_timing. rewrite H4, H3. simpl.
  pose proof (Hclock (ticks w) (S (ticks w))) as A1.
  pose proof (Hclock (S (ticks w)) k2) as A2.
  pose proof (Hclock k2 (S k2)) as A3.
  pose proof (Hclock (S k2) k4) as A4.
  pose proof (Hclock k4 (S k4)) as A5.
  pose proof (Hclock (S k4) (S (S k4))) as A6.
  lia.
Qed.

End PhaseTimes.

Section ReportedTimes.

Variable E : Env.
Variable Md : Type.
Variable getVideoInfo : string -> M World Md.
Variable downloadMedia : string -> bool -> M World Media.
Variable md_title : Md -> string.
Variable md_author : Md -> string.
Variable md_duration : Md -> float.
Variable response_metadata : Md -> string -> Z -> bool -> ResponseMetadata.

Hypothesis info_later : forall url, monotone later (getVideoInfo url).
Hypothesis media_later : forall url audioOnly, monotone later (downloadMedia url audioOnly).
Hypothesis metadata_literal :
  forall m processing size was_cached,
    processingType (response_metadata m processing size was_cached) = processing
    /\ fileSize (response_metadata m processing size was_cached) = size.

Lemma transcribe_debug_inv url audioOnly dbg md media s1 body s2 block :
  caption_transcribe E Md md_duration response_metadata url audioOnly dbg
    md media s1 = (Ok (JsonCaption body), s2) ->
  debug body = Some block ->
  timing block
  = {| dt_total := pretty (total (success_timing E s1)) +:+ "ms";
       dt_metadata := pretty (metadataEnd (success_timing E s1)
                              - metadataStart (success_timing E s1)) +:+ "ms";
       dt_download := pretty (downloadEnd (success_timing E s1)
                              - downloadStart (success_timing E s1)) +:+ "ms";
       dt_transcription := pretty (transcribeEnd (success_timing E s1)
                                   - transcribeStart (success_timing E s1)) +:+ "ms" |}.
Proof.
  intros H Hd.
  destruct (transcribe_caption_inv E Md md_duration response_metadata metadata_literal
              _ _ _ _ _ _ _ _ H) as (ms & r & result & Hw & Hms & Hok & Hj & _).
  rewrite (transcribe_success E Md md_duration response_metadata
             url audioOnly dbg md media s1 ms r result Hw Hms Hok Hj) in H.
  injection H as <- _. simpl in Hd. destruct dbg; [|discriminate].
  injection Hd as <-. reflexivity.
Qed.

Lemma pipeline_reported_times url audioOnly dbg w body w' block :
  clock_never_runs_backwards E ->
  caption_pipeline E Md getVideoInfo downloadMedia md_title md_author md_duration
    response_metadata url audioOnly dbg w = (Ok (JsonCaption body), w') ->
  debug body = Some block ->
  exists m d t tot : Z,
    dt_metadata (timing block) = pretty m +:+ "ms"
    /\ dt_download (timing block) = pretty d +:+ "ms"
    /\ dt_transcription (timing block) = pretty t +:+ "ms"
    /\ dt_total (timing block) = pretty tot +:+ "ms"
    /\ 0 <= m /\ 0 <= d /\ 0 <= t /\ m + d + t <= tot.
Proof.
  intros Hclock.
  destruct (caption_acquire E Md getVideoInfo downloadMedia md_title md_author
              url audioOnly (entry_state E w)) as [[[md media]|e] s1] eqn:Hacq.
  - rewrite (pipeline_after_acquire _ _ _ _ _ _ _ _ _ _ _ _ _ _ _ Hacq).
    unfold try_catch.
    destruct (caption_transcribe _ _ _ _ _ _ _ _ _ s1) as [[r|e] s2] eqn:Ht.
    + intros [= -> <-] Hd.
      rewrite (transcribe_debug_inv _ _ _ _ _ _ _ _ _ Ht Hd). simpl.
      destruct (phase_times_fit E Md getVideoInfo downloadMedia md_title md_author
                  info_later media_later url audioOnly w _ s1 Hclock Hacq)
        as (H1 & H2 & H3 & H4).
      do 4 eexists. repeat split; eassumption.
    + pose proof (catch_is_an_error E dbg e s2) as Hc.
      destruct (caption_catch E dbg e s2) as [[r|e'] s3]; [|discriminate].
      intros [= -> <-]. now contradiction (Hc body).
  - rewrite (pipeline_acquire_fails _ _ _ _ _ _ _ _ _ _ _ _ _ _ Hacq).
    pose proof (catch_is_an_error E dbg e s1) as Hc.
    destruct (caption_catch E dbg e s1) as [[r|e'] s3]; [|discriminate].
    intros [= -> <-]. now contradiction (Hc body).
Qed.

End ReportedTimes.

(** X23.  With a clock that never runs backwards, the times reported in
    the [debug] member of a 200 reply are consistent: the metadata,
    download and transcription times are non-negative and add up to at
    most the total. *)
Theorem reported_phase_times_fit_in_the_total
    (E : Env) (v : Variant) (c : Request) (w w' : World)
    (body : CaptionBody) (block : DebugBlock) :
  clock_never_runs_backwards E ->
  handler E v PostCaption c w = (Ok (JsonCaption body), w') ->
  debug body = Some block ->
  exists m d t tot : Z,
    dt_metadata (timing block) = pretty m +:+ "ms"
    /\ dt_download (timing block) = pretty d +:+ "ms"
    /\ dt_transcription (timing block) = pretty t +:+ "ms"
    /\ dt_total (timing block) = pretty tot +:+ "ms"
    /\ 0 <= m /\ 0 <= d /\ 0 <= t /\ m + d + t <= tot.
Proof.
  intros Hclock Hrun Hd. destruct v; simpl in Hrun.
  - unfold Tikwm.caption in Hrun.
    apply caption_handler_inv in Hrun as (parsed & url & _ & _ & _ & Hrun);
      [|discriminate].
    apply (pipeline_reported_times E TikwmVideoInfo (Tikwm.getVideoInfo E)
             (Tikwm.downloadMedia E) tk_title (fun m => nickname (tk_author m))
             tk_duration Tikwm.response_metadata
             (later_tikwm_getVideoInfo E) (later_tikwm_downloadMedia E)
             (fun _ _ _ _ => conj eq_refl eq_refl)
             _ _ _ _ _ _ _ Hclock Hrun Hd).
  - unfold YtDlp.caption in Hrun.
    apply caption_handler_inv in Hrun as (parsed & url & _ & _ & _ & Hrun);
      [|discriminate].
    apply (pipeline_reported_times E YtDlpInfo (YtDlp.getVideoInfo E)
             (YtDlp.downloadMedia E) yt_title uploader yt_duration
             YtDlp.response_metadata
             (later_ytdlp_getVideoInfo E) (later_ytdlp_downloadMedia E)
             (fun _ _ _ _ => conj eq_refl eq_refl)
             _ _ _ _ _ _ _ Hclock Hrun Hd).
Qed.

(** ** The repeated caption request *)

Section ServedAgain.

Variable E : Env.

Lemma tikwm_getVideoInfo_steady url w w' info wa :
  Tikwm.getVideoInfo E url w = (Ok info, wa) ->
  exists wb, Tikwm.getVideoInfo E url w' = (Ok info, wb)
             /\ calls wb = calls w' ++ [provider_call TikwmApi url]
             /\ same_cache w' wb.
Proof.
  unfold Tikwm.getVideoInfo, encodeURIComponent, try_catch, bind, fetch, settle,
    throw, ret.
  destruct (isWellFormed url); [|discriminate]. cbv zeta.
  destruct (http_get E _) as [e|r]; simpl; [discriminate|].
  destruct (ok r); simpl; [|discriminate].
  destruct (json r) as [d|e]; simpl; [|discriminate].
  destruct (code d =? 0); simpl; [|discriminate].
  intros [= <- _]. eexists. split; [reflexivity|]. split; [reflexivity | now split].
Qed.

Lemma ytdlp_getVideoInfo_steady url w w' info wa :
  YtDlp.getVideoInfo E url w = (Ok info, wa) ->
  exists wb, YtDlp.getVideoInfo E url w' = (Ok info, wb)
             /\ calls wb = calls w' ++ [provider_call YtDlpTool url]
             /\ same_cache w' wb.
Proof.
  unfold YtDlp.getVideoInfo, bind, spawn, throw, ret.
  destruct (yt_dlp E _) as [message|exit_code out err written]; simpl; [discriminate|].
  destruct (exit_code =? 0); [|discriminate].
  destruct (parse_info E out) as [i|]; [|discriminate].
  intros [= <- _]. eexists. split; [reflexivity|]. split; [reflexivity | now split].
Qed.

Lemma download_serves_again v url audioOnly w media w1 :
  cache_file_is_sound E url audioOnly ->
  downloadMedia E v url audioOnly w = (Ok media, w1) ->
  serves_again E (downloadMedia E v url audioOnly) (cache_name E url audioOnly) media w1.
Proof.
  intros Hsound Hrun.
  assert (Hleft : cache_dir w1 = true
                  /\ cache w1 !! cache_name E url audioOnly = Some (buffer media)).
  { destruct v; simpl in Hrun.
    - now apply (tikwm_download_leaves_the_file E url audioOnly w).
    - now apply (ytdlp_download_leaves_the_file E url audioOnly w). }
  assert (Hnamed : named_for E url audioOnly media).
  { destruct v; simpl in Hrun.
    - exact (returns_run _ _ _ _ _ (tikwm_downloadMedia_named E url audioOnly) Hrun).
    - exact (returns_run _ _ _ _ _ (ytdlp_downloadMedia_named E url audioOnly) Hrun). }
  assert (Hinit : forall w2, cache_dir w2 = true ->
                    exists w2', initCacheDir E w2 = (Ok tt, w2')
                                /\ same_cache w2 w2' /\ calls w2' = calls w2).
  { destruct v; simpl in Hrun.
    - unfold Tikwm.downloadMedia in Hrun.
      apply bind_inv_ok in Hrun as ([] & wa & Hi & _).
      now apply initCacheDir_post in Hi as (_ & _ & Hagain).
    - unfold YtDlp.downloadMedia in Hrun.
      apply bind_inv_ok in Hrun as ([] & wa & Hi & _).
      now apply initCacheDir_post in Hi as (_ & _ & Hagain). }
  destruct Hleft as [Hdir Hfile]. split; [exact Hdir|]. split; [exact Hfile|].
  intros w2 Hdir2 Hfile2.
  destruct (download_is_a_hit E v url audioOnly w2 (buffer media) Hsound
              (Hinit w2 Hdir2) Hfile2) as (media' & w3 & Hrun' & Hb & Hc & Hcalls).
  exists media', w3. split; [exact Hrun'|]. split; [|auto].
  assert (Hnamed' : named_for E url audioOnly media').
  { destruct v; simpl in Hrun'.
    - exact (returns_run _ _ _ _ _ (tikwm_downloadMedia_named E url audioOnly) Hrun').
    - exact (returns_run _ _ _ _ _ (ytdlp_downloadMedia_named E url audioOnly) Hrun'). }
  destruct Hnamed as [N1 N2], Hnamed' as [N1' N2'].
  unfold upload_of. now rewrite Hb, N1, N2, N1', N2'.
Qed.

End ServedAgain.

Section RepeatedCaption.

Variable E : Env.
Variable Md : Type.
Variable getVideoInfo : string -> M World Md.
Variable downloadMedia : string -> bool -> M World Media.
Variable md_title : Md -> string.
Variable md_author : Md -> string.
Variable md_duration : Md -> float.
Variable response_metadata : Md -> string -> Z -> bool -> ResponseMetadata.
Variable first_call : string -> Call.

Variable url : string.
Variable audioOnly : bool.

Hypothesis metadata_literal :
  forall m processing size was_cached,
    processingType (response_metadata m processing size was_cached) = processing
    /\ fileSize (response_metadata m processing size was_cached) = size.
Hypothesis metadata_cached :
  forall m processing size was_cached,
    md_cached (response_metadata m processing size was_cached) = was_cached.
Hypothesis info_steady :
  forall w w' info wa,
    getVideoInfo url w = (Ok info, wa) ->
    exists wb, getVideoInfo url w' = (Ok info, wb)
               /\ calls wb = calls w' ++ [first_call url]
               /\ same_cache w' wb.
Hypothesis media_serves_again :
  forall w media w1,
    downloadMedia url audioOnly w = (Ok media, w1) ->
    serves_again E (downloadMedia url audioOnly) (cache_name E url audioOnly) media w1.

Lemma acquire_inv w md media s1 :
  caption_acquire E Md getVideoInfo downloadMedia md_title md_author url audioOnly
    (entry_state E w) = (Ok (md, media), s1) ->
  exists wi wi' wm wm',
    getVideoInfo url wi = (Ok md, wi')
    /\ downloadMedia url audioOnly wm = (Ok media, wm')
    /\ same_cache wm' (snd s1).
Proof.
  unfold caption_acquire, entry_state. intros H.
  apply bind_inv_ok in H as (t1 & [ta wa] & H1 & H).
  unfold io, Date_now in H1. simpl in H1. injection H1 as <- <- <-.
  apply bind_inv_ok in H as (u1 & [tb wb] & H1 & H).
  unfold update in H1. simpl in H1. injection H1 as _ <- <-.
  apply bind_inv_ok in H as (metadata & [tc wc] & H1 & H).
  unfold io in H1. simpl in H1.
  destruct (getVideoInfo url _) as [o wi] eqn:Hinfo. injection H1 as -> <- <-.
  apply bind_inv_ok in H as (t2 & [td wd] & H1 & H).
  unfold io, Date_now in H1. simpl in H1. injection H1 as <- <- <-.
  apply bind_inv_ok in H as (u2 & [te we] & H1 & H).
  unfold update in H1. simpl in H1. injection H1 as _ <- <-.
  apply bind_inv_ok in H as (u3 & [tf wf] & H1 & H).
  unfold io, console_log in H1. simpl in H1. injection H1 as _ <- <-.
  apply bind_inv_ok in H as (t3 & [tg wg] & H1 & H).
  unfold io, Date_now in H1. simpl in H1. injection H1 as <- <- <-.
  apply bind_inv_ok in H as (u4 & [th wh] & H1 & H).
  unfold update in H1. simpl in H1. injection H1 as _ <- <-.
  apply bind_inv_ok in H as (media0 & [ti wi'] & H1 & H).
  unfold io in H1. simpl in H1.
  destruct (downloadMedia url audioOnly _) as [o wm] eqn:Hmedia. injection H1 as -> <- <-.
  apply bind_inv_ok in H as (t4 & [tj wj] & H1 & H).
  unfold io, Date_now in H1. simpl in H1. injection H1 as <- <- <-.
  apply bind_inv_ok in H as (u5 & [tk wk] & H1 & H).
  unfold update in H1. simpl in H1. injection H1 as _ <- <-.
  apply bind_inv_ok in H as (u6 & [tl wl] & H1 & H).
  unfold io, console_log in H1. simpl in H1. injection H1 as _ <- <-.
  injection H as <- <- <-. simpl.
  do 4 eexists. split; [exact Hinfo|]. split; [exact Hmedia|]. now split.
Qed.

Lemma acquire_forward w md wb media wc :
  getVideoInfo url (next_tick (next_tick w)) = (Ok md, wb) ->
  downloadMedia url audioOnly
    (next_tick
       (record_line LogInfo
          ("Got metadata for " +:+ url +:+ ": " +:+ md_title md +:+ " by "
           +:+ md_author md) (next_tick wb))) = (Ok media, wc) ->
  exists s1,
    caption_acquire E Md getVideoInfo downloadMedia md_title md_author url audioOnly
      (entry_state E w) = (Ok (md, media), s1)
    /\ calls (snd s1) = calls wc.
Proof.
  intros Hinfo Hmedia.
  unfold next_tick, record_line in Hinfo, Hmedia. simpl in Hinfo, Hmedia.
  unfold caption_acquire, entry_state, bind, io, update, Date_now, console_log, ret,
    next_tick, record_line.
  simpl. rewrite Hinfo. simpl. rewrite Hmedia. simpl.
  eexists. split; reflexivity.
Qed.

Lemma keeps_caption_transcribe dbg md media :
  monotone (lifted same_cache)
    (caption_transcribe E Md md_duration response_metadata url audioOnly dbg md media).
Proof.
  apply (preserved_caption_transcribe E Md md_duration response_metadata same_cache
           same_cache_refl same_cache_trans).
  - intros w. now split.
  - intros l s w. now split.
  - intros file ms. apply keeps_fetch_post.
Qed.

Lemma pipeline_again dbg w body w1 :
  caption_pipeline E Md getVideoInfo downloadMedia md_title md_author md_duration
    response_metadata url audioOnly dbg w = (Ok (JsonCaption body), w1) ->
  exists body' w2 file,
    caption_pipeline E Md getVideoInfo downloadMedia md_title md_author md_duration
      response_metadata url audioOnly dbg w1 = (Ok (JsonCaption body'), w2)
    /\ md_cached (metadata body') = true
    /\ cb_caption body' = cb_caption body
    /\ fileSize (metadata body') = fileSize (metadata body)
    /\ calls w2 = calls w1 ++ [first_call url; FetchPost (WHISPER_API_URL E) file].
Proof.
  destruct (caption_acquire E Md getVideoInfo downloadMedia md_title md_author
              url audioOnly (entry_state E w)) as [[[md media]|e] s1] eqn:Hacq.
  2:{ rewrite (pipeline_acquire_fails _ _ _ _ _ _ _ _ _ _ _ _ _ _ Hacq).
      pose proof (catch_is_an_error E dbg e s1) as Hc.
      destruct (caption_catch E dbg e s1) as [[r|e'] s3]; [|discriminate].
      intros [= -> <-]. now contradiction (Hc body). }
  rewrite (pipeline_after_acquire _ _ _ _ _ _ _ _ _ _ _ _ _ _ _ Hacq).
  unfold try_catch.
  pose proof (keeps_caption_transcribe dbg md media s1) as Hkeep.
  destruct (caption_transcribe _ _ _ _ _ _ _ _ _ s1) as [[r|e] s2] eqn:Ht.
  2:{ pose proof (catch_is_an_error E dbg e s2) as Hc.
      destruct (caption_catch E dbg e s2) as [[r|e'] s3]; [|discriminate].
      intros [= -> <-]. now contradiction (Hc body). }
  intros [= -> <-]. simpl in Hkeep.
  destruct (transcribe_caption_inv E Md md_duration response_metadata metadata_literal
              _ _ _ _ _ _ _ _ Ht)
    as (ms & r & result & Hw & Hms & Hok & Hj & _ & Hcap & _ & Hsize & _).
  destruct (acquire_inv _ _ _ _ Hacq) as (wi & wi' & wm & wm' & Hinfo & Hmedia & Hsame).
  destruct (media_serves_again _ _ _ Hmedia) as (Hdir & Hfile & Hagain).
  destruct Hsame as [Hd1 Hc1]. destruct Hkeep as [Hd2 Hc2].
  destruct (info_steady wi (next_tick (next_tick (snd s2))) md wi' Hinfo)
    as (wb & Hinfo' & Hcallsb & [Hdb Hcb]).
  destruct (Hagain (next_tick
                      (record_line LogInfo
                         ("Got metadata for " +:+ url +:+ ": " +:+ md_title md +:+ " by "
                          +:+ md_author md) (next_tick wb))))
    as (media' & wc & Hrun' & Hup & Hcached & Hcallsc).
  { simpl in *. congruence. }
  { simpl in *. rewrite Hcb, Hc2, Hc1. exact Hfile. }
  destruct (acquire_forward (snd s2) md wb media' wc Hinfo' Hrun')
    as (s1' & Hacq' & Hcalls1).
  rewrite (pipeline_after_acquire _ _ _ _ _ _ _ _ _ _ _ _ _ _ _ Hacq').
  unfold try_catch.
  rewrite <- Hup in Hw.
  rewrite (transcribe_success E Md md_duration response_metadata
             url audioOnly dbg md media' s1' ms r result Hw Hms Hok Hj).
  do 3 eexists. split; [reflexivity|]. simpl.
  rewrite metadata_cached.
  destruct (metadata_literal md (if audioOnly then "audio-only" else "video")
              (Z.of_nat (length (buffer media'))) (cached media')) as [_ ->].
  split; [exact Hcached|]. split; [now rewrite Hcap|]. split.
  - rewrite Hsize. apply (f_equal file_bytes) in Hup. simpl in Hup. now rewrite Hup.
  - rewrite Hcalls1, Hcallsc. simpl. rewrite Hcallsb. simpl.
    now rewrite <- app_assoc.
Qed.

End RepeatedCaption.

(** X24. A [/caption] request that is answered with a caption, in a
    deployment with no I/O fault on the cache file of its URL and mode,
    can be repeated: with the provider and the worker answering as they
    did, the second request is answered with the same caption and file
    size, its metadata say [cached], and it makes exactly two outbound
    calls, the provider's and the worker's.  The cache saves the media
    download, not the metadata call. *)
Theorem a_repeated_caption_request_is_served_from_the_cache
    (E : Env) (v : Variant) (c : Request) (parsed url : jsval) (w w1 : World)
    (body : CaptionBody) :
  req_json c = Ok parsed ->
  url_member parsed = Some url ->
  cache_file_is_sound E (text_of url) (query_is_true c "audio_only") ->
  handler E v PostCaption c w = (Ok (JsonCaption body), w1) ->
  exists body' w2 file,
    handler E v PostCaption c w1 = (Ok (JsonCaption body'), w2)
    /\ md_cached (metadata body') = true
    /\ cb_caption body' = cb_caption body
    /\ fileSize (metadata body') = fileSize (metadata body)
    /\ calls w2 = calls w1 ++ [provider_call v (text_of url);
                               FetchPost (WHISPER_API_URL E) file].
Proof.
  intros Hj Hu Hsound Hrun. destruct v; simpl in Hrun |- *.
  - unfold Tikwm.caption in Hrun.
    apply caption_handler_inv in Hrun as (parsed' & url' & Hj' & Hu' & Hacc & Hrun);
      [|discriminate].
    assert (url' = url) as -> by congruence.
    unfold Tikwm.caption.
    rewrite (caption_handler_accepted _ _ _ _ _ _ _ _ c parsed url) by assumption.
    apply (pipeline_again E TikwmVideoInfo (Tikwm.getVideoInfo E) (Tikwm.downloadMedia E)
             tk_title (fun m => nickname (tk_author m)) tk_duration
             Tikwm.response_metadata (provider_call TikwmApi)
             (text_of url) (query_is_true c "audio_only")
             (fun _ _ _ _ => conj eq_refl eq_refl) (fun _ _ _ _ => eq_refl)
             (tikwm_getVideoInfo_steady E (text_of url))
             (fun w0 media w2 H =>
                download_serves_again E TikwmApi _ _ w0 media w2 Hsound H)
             _ _ _ _ Hrun).
  - unfold YtDlp.caption in Hrun.
    apply caption_handler_inv in Hrun as (parsed' & url' & Hj' & Hu' & Hacc & Hrun);
      [|discriminate].
    assert (url' = url) as -> by congruence.
    unfold YtDlp.caption.
    rewrite (caption_handler_accepted _ _ _ _ _ _ _ _ c parsed url) by assumption.
    apply (pipeline_again E YtDlpInfo (YtDlp.getVideoInfo E) (YtDlp.downloadMedia E)
             yt_title uploader yt_duration
             YtDlp.response_metadata (provider_call YtDlpTool)
             (text_of url) (query_is_true c "audio_only")
             (fun _ _ _ _ => conj eq_refl eq_refl) (fun _ _ _ _ => eq_refl)
             (ytdlp_getVideoInfo_steady E (text_of url))
             (fun w0 media w2 H =>
                download_serves_again E YtDlpTool _ _ w0 media w2 Hsound H)
             _ _ _ _ Hrun).
Qed.

(** * Instances *)

(** Evaluate a closed run and keep its result as an equation. *)
Ltac run_as H t :=
  let r := eval vm_compute in t in
  assert (H : t = r) by (vm_compute; reflexivity).

Lemma sample_url_is_accepted : accepted_url sample_url.
Proof. apply test_accepted. reflexivity. Qed.




(** C10 at a request whose body does not parse. *)
Lemma unparsable_body_escapes_the_handler_witness :
  handler sample_env TikwmApi PostCaption unparsable_request empty_world
  = (Throw (ErrorObj "SyntaxError" "JSON Parse error: Unexpected identifier"),
     empty_world)
  /\ answer_status (fst (app_fetch sample_env TikwmApi PostCaption unparsable_request
                           empty_world)) = 500.
Proof.
  destruct (unparsable_body_escapes_the_handler sample_env TikwmApi PostCaption
              unparsable_request
              (ErrorObj "SyntaxError" "JSON Parse error: Unexpected identifier")
              empty_world eq_refl) as (H1 & _ & _ & _ & H5 & _).
  split; assumption.
Defined.

(** C9 at the sample URL, with [hq=true] against [hq=false]. *)
Lemma hq_does_not_interfere_witness :
  handler sample_env TikwmApi PostDownload
    (request_for (JStr sample_url) [("hq", "true")]) empty_world
  = handler sample_env TikwmApi PostDownload
      (request_for (JStr sample_url) [("hq", "false")]) empty_world.
Proof.
  apply (hq_does_not_interfere sample_env TikwmApi
           (request_for (JStr sample_url) [("hq", "true")])
           (request_for (JStr sample_url) [("hq", "false")]) empty_world eq_refl).
  intros k Hk. simpl.
  destruct (String.eqb_spec k "hq"); [contradiction | reflexivity].
Defined.

(** C2 at the sample request, once with a worker that never answers and
    once with a worker that answers 503. *)
Lemma transcription_timeout_is_408_and_worker_failure_is_500_witness :
  (exists b w',
     handler silent_worker_env YtDlpTool PostCaption debug_request empty_world
     = (Ok (JsonError 408 b), w'))
  /\ (exists w',
        handler failing_worker_env TikwmApi PostCaption debug_request empty_world
        = (Ok (JsonError 500 {| error := "Transcription service failed.";
                                details := Some "busy";
                                error_debug := None |}), w')).
Proof.
  split.
  - run_as Hacq (acquire silent_worker_env YtDlpTool (text_of (JStr sample_url))
                   (query_is_true debug_request "audio_only")
                   (entry_state silent_worker_env empty_world)).
    match type of Hacq with
    | _ = (Ok ?media, ?s1) =>
        destruct (transcription_timeout_is_408_and_worker_failure_is_500
                    silent_worker_env YtDlpTool debug_request
                    (JObj [("url", JStr sample_url)]) (JStr sample_url) empty_world
                    media s1 eq_refl eq_refl sample_url_is_accepted Hacq) as [H _];
        destruct (H (or_introl eq_refl)) as (b & w' & Hrun & _)
    end.
    exists b, w'. exact Hrun.
  - run_as Hacq (acquire failing_worker_env TikwmApi (text_of (JStr sample_url))
                   (query_is_true debug_request "audio_only")
                   (entry_state failing_worker_env empty_world)).
    match type of Hacq with
    | _ = (Ok ?media, ?s1) =>
        destruct (transcription_timeout_is_408_and_worker_failure_is_500
                    failing_worker_env TikwmApi debug_request
                    (JObj [("url", JStr sample_url)]) (JStr sample_url) empty_world
                    media s1 eq_refl eq_refl sample_url_is_accepted Hacq) as [_ H];
        destruct (H 300 _ eq_refl eq_refl eq_refl) as (w' & Hrun)
    end.
    exists w'. exact Hrun.
Defined.

(** C3, as stated, fails where the cache cannot be written: the first call
    downloads and returns, and so does the second. *)
Lemma failed_cache_write_makes_the_second_call_download_again :
  ~ second_call_is_a_hit read_only_env TikwmApi sample_url true empty_world.
Proof.
  vm_compute. intros (_ & H & _). discriminate H.
Qed.

(** C3 as amended, at the sample deployment. *)
Lemma second_download_is_served_from_the_cache_witness :
  cache_file_is_sound sample_env sample_url true
  /\ second_call_is_a_hit sample_env YtDlpTool sample_url true empty_world.
Proof.
  assert (Hsound : cache_file_is_sound sample_env sample_url true)
    by (intros op; reflexivity).
  split; [exact Hsound|].
  apply (second_download_is_served_from_the_cache sample_env YtDlpTool sample_url true
           empty_world Hsound).
Defined.

(** C4 at the sample clip (video mode: the high-definition URL is
    fetched) and at a clip for which the API knows no usable URL. *)
Lemma media_url_is_chosen_by_priority_witness :
  (Tikwm.choose_url sample_info false = Some "https://cdn.example/hd.mp4"
   /\ last (calls (snd (Tikwm.downloadMedia sample_env sample_url false empty_world)))
      = Some (Fetch "https://cdn.example/hd.mp4"))
  /\ fst (Tikwm.downloadMedia bare_provider_env sample_url false empty_world)
     = Throw NoDownloadUrl.
Proof.
  split.
  - run_as Hinit (initCacheDir sample_env empty_world).
    match type of Hinit with
    | _ = (_, ?w1) =>
        run_as Hget (cache_get sample_env sample_url false w1);
        match type of Hget with
        | _ = (_, ?w2) =>
            run_as Hinfo (Tikwm.getVideoInfo sample_env sample_url w2);
            match type of Hinfo with
            | _ = (Ok ?info, ?w3) =>
                destruct (media_url_is_chosen_by_priority sample_env sample_url false
                            empty_world w1 w2 w3 info Hinit Hget Hinfo)
                  as (_ & Hhd & _ & _ & _ & Hfetch)
            end
        end
    end.
    split.
    + exact (Hhd eq_refl eq_refl).
    + destruct (Hfetch eq_refl) as (Hcalls & _). rewrite Hcalls. reflexivity.
  - run_as Hinit (initCacheDir bare_provider_env empty_world).
    match type of Hinit with
    | _ = (_, ?w1) =>
        run_as Hget (cache_get bare_provider_env sample_url false w1);
        match type of Hget with
        | _ = (_, ?w2) =>
            run_as Hinfo (Tikwm.getVideoInfo bare_provider_env sample_url w2);
            match type of Hinfo with
            | _ = (Ok ?info, ?w3) =>
                destruct (media_url_is_chosen_by_priority bare_provider_env sample_url
                            false empty_world w1 w2 w3 info Hinit Hget Hinfo)
                  as (_ & _ & _ & _ & Hnone & _)
            end
        end
    end.
    rewrite (Hnone eq_refl). reflexivity.
Defined.



(** C6, as stated, fails at a clock that stands still: the request is
    answered, and the throughput reads "Infinity MB/s". *)
Lemma zero_download_time_shows_no_number :
  ~ every_metric_shows_a_number frozen_clock_env TikwmApi debug_request empty_world.
Proof.
  intros H.
  run_as Hrun (fst (handler frozen_clock_env TikwmApi PostCaption debug_request
                      empty_world)).
  match type of Hrun with
  | _ = Ok (JsonCaption ?body) =>
      match eval vm_compute in (debug body) with
      | Some ?block =>
          destruct (H body block Hrun eq_refl "Infinity") as [H1 _];
            [right; now left|]
      end
  end.
  apply H1. vm_compute. reflexivity.
Qed.

(** C6 as amended, at a clock that stands still: every duration, the
    total included, is zero. *)
Lemma debug_metrics_are_defined_on_zero_durations_witness :
  exists body block,
    fst (handler frozen_clock_env TikwmApi PostCaption debug_request empty_world)
    = Ok (JsonCaption body)
    /\ debug body = Some block
    /\ (exists d, not_finite_text d
                  /\ downloadSpeed (performance block) = d +:+ " MB/s")
    /\ (exists d, not_finite_text d
                  /\ transcriptionSpeed (performance block) = d +:+ "x realtime")
    /\ (exists d, not_finite_text d
                  /\ metadataFetch (breakdown block) = d +:+ "%").
Proof.
  run_as Hacq (acquire frozen_clock_env TikwmApi (text_of (JStr sample_url))
                 (query_is_true debug_request "audio_only")
                 (entry_state frozen_clock_env empty_world)).
  match type of Hacq with
  | _ = (Ok ?media, ?s1) =>
      destruct (debug_metrics_are_defined_on_zero_durations
                  frozen_clock_env TikwmApi debug_request
                  (JObj [("url", JStr sample_url)]) (JStr sample_url) empty_world
                  media s1 2500
                  {| status := 200; statusText := "OK"; body := [];
                     json := Ok {| caption := "hello world" |} |}
                  {| caption := "hello world" |}
                  eq_refl eq_refl sample_url_is_accepted eq_refl Hacq
                  eq_refl eq_refl eq_refl eq_refl)
        as (body & block & w' & Hrun & _ & Hdbg & _ & Hdl & Htr & Htot)
  end.
  exists body, block. rewrite Hrun.
  split; [reflexivity|]. split; [exact Hdbg|].
  split; [apply Hdl; vm_compute; reflexivity|].
  split; [apply Htr; vm_compute; reflexivity|].
  destruct Htot as (d1 & d2 & d3 & H1 & _ & _ & Hm & _); [vm_compute; reflexivity|].
  exists d1. auto.
Defined.

(** The same run, evaluated: the texts are those of an infinity and of a
    NaN. *)
Example zero_durations_show_as_infinity_and_nan :
  match fst (handler frozen_clock_env TikwmApi PostCaption debug_request empty_world) with
  | Ok (JsonCaption body) =>
      match debug body with
      | Some block =>
          downloadSpeed (performance block) = "Infinity MB/s"
          /\ transcriptionSpeed (performance block) = "Infinityx realtime"
          /\ metadataFetch (breakdown block) = "NaN%"
          /\ mediaDownload (breakdown block) = "NaN%"
          /\ bd_transcription (breakdown block) = "NaN%"
      | None => False
      end
  | _ => False
  end.
Proof. vm_compute. repeat split. Qed.

(** C7, as stated, fails on a cached file that cannot be read: the
    look-up reports a miss although the file exists, and [downloadMedia]
    goes on to download instead of failing. *)
Lemma unreadable_cache_file_counts_as_a_miss :
  ~ cache_read_errors_surface unreadable_env TikwmApi sample_url true stocked_world.
Proof.
  intros [[Hmiss _] _].
  assert (fst (cache_get unreadable_env sample_url true stocked_world) = Ok None) as H
    by (vm_compute; reflexivity).
  apply Hmiss in H. vm_compute in H. discriminate H.
Qed.

(** C7 as amended, at the same input: the look-up reports the miss and
    the download proceeds to the API. *)
Lemma cache_lookup_degrades_every_error_to_a_miss_witness :
  fst (cache_get unreadable_env sample_url true stocked_world) = Ok None
  /\ exists rest,
       calls (snd (downloadMedia unreadable_env TikwmApi sample_url true stocked_world))
       = calls stocked_world ++ Fetch (tikwmApiUrl sample_url) :: rest.
Proof.
  destruct (cache_lookup_degrades_every_error_to_a_miss unreadable_env sample_url true
              stocked_world) as (o & w' & Hget & _ & Hmiss & _ & Hdl).
  assert (Ho : o = None).
  { apply Hmiss. right. right. discriminate. }
  subst o. split; [now rewrite Hget|].
  destruct (Hdl TikwmApi stocked_world eq_refl) as [H _].
  apply H. reflexivity.
Defined.

(** The same run, evaluated: the download happens and succeeds. *)
Example unreadable_cache_file_is_downloaded_again :
  fst (cache_get unreadable_env sample_url true stocked_world) = Ok None
  /\ fst (downloadMedia unreadable_env TikwmApi sample_url true stocked_world)
     = Ok {| buffer := sample_bytes;
             filename := "tiktok_" +:+ hex_of_string sample_url +:+ ".mp3";
             contentType := "audio/mp3";
             cached := false |}
  /\ last (calls (snd (downloadMedia unreadable_env TikwmApi sample_url true
                         stocked_world)))
     = Some (Fetch "https://cdn.example/music.mp3").
Proof. vm_compute. repeat split. Qed.

(** C8 at the sample deployment, against the same deployment with a
    read-only file system. *)
Lemma cache_write_failure_never_fails_the_request_witness :
  exists media w1 w2,
    downloadMedia sample_env YtDlpTool sample_url false empty_world = (Ok media, w1)
    /\ cached media = false
    /\ downloadMedia read_only_env YtDlpTool sample_url false empty_world = (Ok media, w2)
    /\ calls w2 = calls w1
    /\ In (LogWarn, "Failed to save to cache: Error: EROFS: read-only file system, open")
          (console w2).
Proof.
  run_as Hrun (downloadMedia sample_env YtDlpTool sample_url false empty_world).
  match type of Hrun with
  | _ = (Ok ?media, ?w1) =>
      destruct (cache_write_failure_never_fails_the_request sample_env YtDlpTool
                  (fun _ => Some (new_Error "EROFS: read-only file system, open"))
                  sample_url false empty_world w1 media Hrun eq_refl)
        as (w2 & Hrun2 & Hcalls & Hwarn);
      exists media, w1, w2
  end.
  split; [exact Hrun|]. split; [reflexivity|]. split; [exact Hrun2|].
  split; [exact Hcalls|]. exact (Hwarn _ eq_refl).
Defined.

(** ** The model on the scenarios of the specification *)

(** The URL formats the service documents are accepted; other texts, and
    a URL that only contains an accepted one, are not. *)
Example documented_urls_pass_the_pattern :
  test TIKTOK_URL_PATTERN "https://www.tiktok.com/@username/video/1234567890123456789" = true
  /\ test TIKTOK_URL_PATTERN "https://tiktok.com/@username/video/1234567890123456789" = true
  /\ test TIKTOK_URL_PATTERN "https://vm.tiktok.com/ZMhvw8kQG/" = true
  /\ test TIKTOK_URL_PATTERN "http://www.vm.tiktok.com/x" = true
  /\ test TIKTOK_URL_PATTERN "not-a-url" = false
  /\ test TIKTOK_URL_PATTERN "ftp://tiktok.com/x" = false
  /\ test TIKTOK_URL_PATTERN " https://tiktok.com/x" = false
  /\ test TIKTOK_URL_PATTERN "https://example.com/?u=https://tiktok.com/x" = false.
Proof. repeat split; reflexivity. Qed.

Example encodeURIComponent_of_the_sample_url :
  encodeURIComponent sample_env sample_url
  = Ok "https%3A%2F%2Fwww.tiktok.com%2F%40user%2Fvideo%2F123"
  /\ encodeURIComponent sample_env lone_surrogate_url
     = Throw (ErrorObj "URIError" "URI malformed").
Proof. split; reflexivity. Qed.

Example toFixed_rounds_as_the_runtime_does :
  toFixed sample_env 1.375 2 = Ok "1.38"
  /\ toFixed sample_env 0.5 0 = Ok "1"
  /\ toFixed sample_env 2.5 0 = Ok "3"
  /\ toFixed sample_env (-1.5) 0 = Ok "-2"
  /\ toFixed sample_env 0 2 = Ok "0.00"
  /\ toFixed sample_env (1 / 0) 2 = Ok "Infinity"
  /\ toFixed sample_env (0 / 0) 1 = Ok "NaN".
Proof. vm_compute. repeat split. Qed.

(** Audio-only request, worker answers: 200, [processingType] is
    [audio-only], the caption is the worker's, and the calls made are the
    two provider calls of this variant, the audio download and the upload. *)
Example audio_only_request_succeeds :
  match handler sample_env TikwmApi PostCaption
          (request_for (JStr sample_url) [("audio_only", "true")]) empty_world with
  | (Ok (JsonCaption body), w') =>
      cb_caption body = "hello world"
      /\ processingType (metadata body) = "audio-only"
      /\ md_cached (metadata body) = false
      /\ debug body = None
      /\ calls w'
         = [provider_call TikwmApi sample_url;
            provider_call TikwmApi sample_url;
            Fetch "https://cdn.example/music.mp3";
            FetchPost "http://localhost:8000/transcribe"
              {| file_bytes := sample_bytes;
                 file_name := "tiktok_" +:+ hex_of_string sample_url +:+ ".mp3";
                 file_type := "audio/mp3" |}]
  | _ => False
  end.
Proof. vm_compute. repeat split. Qed.

(** With [debug=true] the three percentages are shares of the total. *)
Example debug_request_reports_timing :
  match fst (handler sample_env YtDlpTool PostCaption debug_request empty_world) with
  | Ok (JsonCaption body) =>
      match debug body with
      | Some block =>
          dt_total (timing block) = "280ms"
          /\ dt_download (timing block) = "80ms"
          /\ mediaDownload (breakdown block) = "28.6%"
          /\ transcriptionSpeed (performance block) = "750.00x realtime"
      | None => False
      end
  | _ => False
  end.
Proof. vm_compute. repeat split. Qed.

(** A second request for the same clip is served from the cache and the
    tool is spawned for the metadata only. *)
Example second_request_hits_the_cache :
  match handler sample_env YtDlpTool PostCaption debug_request empty_world with
  | (_, w1) =>
      match handler sample_env YtDlpTool PostCaption debug_request w1 with
      | (Ok (JsonCaption body), w2) =>
          md_cached (metadata body) = true
          /\ length (calls w2) = (length (calls w1) + 2)%nat
      | _ => False
      end
  end.
Proof. vm_compute. repeat split. Qed.

(** ** Instances of the further properties *)

(** X1 at a host name that only begins like an accepted one. *)
Lemma accepted_url_stays_accepted_when_extended_witness :
  rejects (JStr "https://tiktok.com") = Ok false
  /\ rejects (JStr ("https://tiktok.com" +:+ ".example.org/clip")) = Ok false.
Proof.
  split; [reflexivity|].
  apply (accepted_url_stays_accepted_when_extended
           "https://tiktok.com" ".example.org/clip").
  reflexivity.
Defined.

(** X6 where the cache directory cannot be made. *)
Lemma a_cache_directory_that_cannot_be_made_fails_the_download_witness :
  downloadMedia no_cache_dir_env TikwmApi sample_url true empty_world
  = (Throw (new_Error "EACCES: permission denied, mkdir '/app/cache'"), empty_world).
Proof.
  apply (a_cache_directory_that_cannot_be_made_fails_the_download
           no_cache_dir_env TikwmApi sample_url true empty_world).
  - left. reflexivity.
  - reflexivity.
Defined.

(** X7 at a first download of the audio of the sample clip. *)
Lemma media_is_named_after_the_url_and_the_mode_witness :
  exists media w',
    downloadMedia sample_env YtDlpTool sample_url true empty_world = (Ok media, w')
    /\ filename media = "tiktok_" +:+ hex_of_string sample_url +:+ ".mp3"
    /\ contentType media = "audio/mp3".
Proof.
  run_as Hrun (downloadMedia sample_env YtDlpTool sample_url true empty_world).
  match type of Hrun with
  | _ = (Ok ?media, ?w') =>
      exists media, w'; split; [exact Hrun|];
      exact (media_is_named_after_the_url_and_the_mode
               sample_env YtDlpTool sample_url true empty_world w' media Hrun)
  end.
Defined.

(** X8 at a cache that holds the audio, and at an empty one. *)
Lemma cached_flag_tells_what_a_download_cost_witness :
  calls (snd (downloadMedia sample_env TikwmApi sample_url true stocked_world))
  = calls stocked_world
  /\ exists target,
       calls (snd (downloadMedia sample_env TikwmApi sample_url true empty_world))
       = calls empty_world ++ [Fetch (tikwmApiUrl sample_url); Fetch target].
Proof.
  split.
  - run_as Hrun (downloadMedia sample_env TikwmApi sample_url true stocked_world).
    match type of Hrun with
    | _ = (Ok ?media, ?w') =>
        pose proof (cached_flag_tells_what_a_download_cost
                      sample_env TikwmApi sample_url true stocked_world w' media Hrun)
          as H
    end.
    rewrite Hrun. exact (proj1 H).
  - run_as Hrun (downloadMedia sample_env TikwmApi sample_url true empty_world).
    match type of Hrun with
    | _ = (Ok ?media, ?w') =>
        pose proof (cached_flag_tells_what_a_download_cost
                      sample_env TikwmApi sample_url true empty_world w' media Hrun)
          as H
    end.
    rewrite Hrun. exact H.
Defined.

(** X11 at a clip for which the API knows no usable URL. *)
Lemma every_download_error_is_of_a_known_kind_witness :
  fs_fault bare_provider_env OpMkdir CacheDirPath = Some NoDownloadUrl
  \/ exists prefix m, In prefix (download_error_prefixes TikwmApi)
                      /\ NoDownloadUrl = new_Error (prefix +:+ m).
Proof.
  run_as Hrun (downloadMedia bare_provider_env TikwmApi sample_url false empty_world).
  match type of Hrun with
  | _ = (Throw ?e, ?w') =>
      exact (every_download_error_is_of_a_known_kind
               bare_provider_env TikwmApi sample_url false empty_world w' e Hrun)
  end.
Defined.

(** X12 at a first download of the audio of the sample clip. *)
Lemma ytdlp_download_returns_the_tool_output_and_removes_it_witness :
  tmp (snd (YtDlp.downloadMedia sample_env sample_url true empty_world))
    !! expectedFile_at sample_env 0 true = None.
Proof.
  run_as Hrun (YtDlp.downloadMedia sample_env sample_url true empty_world).
  match type of Hrun with
  | _ = (Ok ?media, ?w') =>
      destruct (ytdlp_download_returns_the_tool_output_and_removes_it
                  sample_env sample_url true empty_world w' media Hrun eq_refl)
        as (out & err & written & _ & _ & Hgone)
  end.
  rewrite Hrun. exact (Hgone eq_refl).
Defined.

(** X13 where the tool leaves a [.webm] file. *)
Lemma ytdlp_download_fails_when_the_expected_file_is_missing_witness :
  exists e w',
    YtDlp.downloadMedia other_container_env sample_url false empty_world = (Throw e, w')
    /\ cache w' = cache empty_world.
Proof.
  run_as Hinit (initCacheDir other_container_env empty_world).
  match type of Hinit with
  | _ = (_, ?wa) =>
      run_as Hget (cache_get other_container_env sample_url false wa);
      match type of Hget with
      | _ = (_, ?wb) =>
          destruct (ytdlp_download_fails_when_the_expected_file_is_missing
                      other_container_env sample_url false empty_world wa wb
                      "" "" [("tiktok_1700000000000.webm", sample_bytes)]
                      Hinit Hget eq_refl eq_refl eq_refl)
            as (w' & Hrun & Hcache & _)
      end
  end.
  eexists. exists w'. split; [exact Hrun | exact Hcache].
Defined.

(** X14 at the sample clip, where the high-definition URL is the
    target, and at an API that offers a URL with a line feed in it. *)
Lemma tikwm_download_redirects_to_the_first_url_on_offer_witness :
  fst (handler sample_env TikwmApi PostDownload (request_for (JStr sample_url) [])
         empty_world)
  = Ok (Redirect "https://cdn.example/hd.mp4")
  /\ fst (handler split_header_env TikwmApi PostDownload
            (request_for (JStr sample_url) []) empty_world)
     = Ok (JsonError 500 (download_failed_body "Header 'Location' has invalid value")).
Proof.
  split.
  - run_as Hinfo (Tikwm.getVideoInfo sample_env (text_of (JStr sample_url)) empty_world).
    match type of Hinfo with
    | _ = (Ok ?info, ?w1) =>
        destruct (tikwm_download_redirects_to_the_first_url_on_offer
                    sample_env (request_for (JStr sample_url) [])
                    (JObj [("url", JStr sample_url)]) (JStr sample_url) info
                    empty_world w1 eq_refl eq_refl sample_url_is_accepted Hinfo)
          as [H _]
    end.
    rewrite H. reflexivity.
  - run_as Hinfo (Tikwm.getVideoInfo split_header_env (text_of (JStr sample_url))
                    empty_world).
    match type of Hinfo with
    | _ = (Ok ?info, ?w1) =>
        destruct (tikwm_download_redirects_to_the_first_url_on_offer
                    split_header_env (request_for (JStr sample_url) [])
                    (JObj [("url", JStr sample_url)]) (JStr sample_url) info
                    empty_world w1 eq_refl eq_refl sample_url_is_accepted Hinfo)
          as [H _]
    end.
    rewrite H. reflexivity.
Defined.

(** X15 where the tool refuses the URL. *)
Lemma download_reports_a_provider_failure_with_its_message_witness :
  exists w',
    handler failing_tool_env YtDlpTool PostDownload (request_for (JStr sample_url) [])
      empty_world
    = (Ok (JsonError 500 (download_failed_body "yt-dlp failed: ERROR: Unsupported URL")),
       w').
Proof.
  destruct (download_reports_a_provider_failure_with_its_message
              failing_tool_env YtDlpTool (request_for (JStr sample_url) [])
              (JObj [("url", JStr sample_url)]) (JStr sample_url)
              "yt-dlp failed: ERROR: Unsupported URL" empty_world
              eq_refl eq_refl sample_url_is_accepted eq_refl)
    as (w' & H & _).
  exists w'. exact H.
Defined.

(** X16 where the API answers with an error code, the media being in the
    cache and [debug=true] being asked for. *)
Lemma caption_reports_a_provider_failure_as_a_bare_500_witness :
  exists w',
    handler failing_provider_env TikwmApi PostCaption debug_request stocked_world
    = (Ok (JsonError 500 internal_error_body), w').
Proof.
  destruct (caption_reports_a_provider_failure_as_a_bare_500
              failing_provider_env TikwmApi debug_request
              (JObj [("url", JStr sample_url)]) (JStr sample_url)
              "Failed to get video info from tikwm: tikwm API error: Url parsing is failed!"
              stocked_world eq_refl eq_refl sample_url_is_accepted eq_refl)
    as (w' & H & _).
  exists w'. exact H.
Defined.

(** X17 where the worker cannot be reached. *)
Lemma a_broken_worker_is_a_bare_500_witness :
  exists w',
    handler unreachable_worker_env TikwmApi PostCaption debug_request empty_world
    = (Ok (JsonError 500 internal_error_body), w').
Proof.
  run_as Hacq (acquire unreachable_worker_env TikwmApi (text_of (JStr sample_url))
                 (query_is_true debug_request "audio_only")
                 (entry_state unreachable_worker_env empty_world)).
  match type of Hacq with
  | _ = (Ok ?media, ?s1) =>
      destruct (a_broken_worker_is_a_bare_500
                  unreachable_worker_env TikwmApi debug_request
                  (JObj [("url", JStr sample_url)]) (JStr sample_url) empty_world
                  media s1 (ErrorObj "TypeError" "fetch failed")
                  eq_refl eq_refl sample_url_is_accepted Hacq (or_introl eq_refl))
        as (w' & H & _); [discriminate | discriminate |]
  end.
  exists w'. exact H.
Defined.

(** X18 at a worker that never answers. *)
Lemma a_timeout_reply_always_blames_the_transcription_witness :
  exists b w',
    handler silent_worker_env YtDlpTool PostCaption debug_request empty_world
    = (Ok (JsonError 408 b), w')
    /\ forall d, error_debug b = Some d -> failedAt d = "transcription".
Proof.
  run_as Hrun (handler silent_worker_env YtDlpTool PostCaption debug_request empty_world).
  match type of Hrun with
  | _ = (Ok (JsonError 408 ?b), ?w') =>
      exists b, w'; split; [exact Hrun|];
      refine (proj2 (a_timeout_reply_always_blames_the_transcription
                       silent_worker_env YtDlpTool debug_request empty_world w' b
                       _ _ Hrun))
  end.
  - intros n. simpl. lia.
  - intros e He. discriminate He.
Defined.

(** X19 at the sample request. *)
Lemma a_caption_is_what_the_worker_answered_in_time_witness :
  exists body w',
    handler sample_env TikwmApi PostCaption debug_request empty_world
    = (Ok (JsonCaption body), w')
    /\ accepted_url (cb_url body)
    /\ downloadUrl body = "/download".
Proof.
  run_as Hrun (handler sample_env TikwmApi PostCaption debug_request empty_world).
  match type of Hrun with
  | _ = (Ok (JsonCaption ?body), ?w') =>
      destruct (a_caption_is_what_the_worker_answered_in_time
                  sample_env TikwmApi debug_request empty_world w' body Hrun)
        as (file & ms & r & result & _ & _ & _ & _ & _ & _ & Hurl & _ & _ & Hd & _);
      exists body, w'
  end.
  split; [exact Hrun|]. split; [exact Hurl | exact Hd].
Defined.

(** X20 at a malformed URL sent to [/download], and at a [url] that
    cannot be turned into text. *)
Lemma a_parsed_request_always_gets_a_reply_witness :
  (exists r w',
     handler sample_env YtDlpTool PostDownload (request_for (JStr "not-a-url") [])
       empty_world = (Ok r, w')
     /\ In (reply_status r) (statuses PostDownload))
  /\ handler sample_env TikwmApi PostCaption object_url_request empty_world
     = (Throw (ErrorObj "TypeError" "Cannot convert object to primitive value"),
        empty_world).
Proof.
  split.
  - exact (a_parsed_request_always_gets_a_reply sample_env YtDlpTool PostDownload
             (request_for (JStr "not-a-url") [])
             (JObj [("url", JStr "not-a-url")]) (JStr "not-a-url") empty_world
             eq_refl eq_refl).
  - exact (a_parsed_request_always_gets_a_reply sample_env TikwmApi PostCaption
             object_url_request
             (JObj [("url", JObj [("toString", JNum 0)])])
             (JObj [("toString", JNum 0)]) empty_world eq_refl eq_refl).
Defined.

(** X21 at the sample request. *)
Lemma caption_calls_its_provider_then_the_worker_at_most_once_witness :
  exists pre post,
    calls (snd (handler sample_env YtDlpTool PostCaption plain_request empty_world))
    = calls empty_world ++ pre ++ post
    /\ Forall (provider_side sample_env YtDlpTool sample_url) pre
    /\ (post = []
        \/ exists bytes,
             post = [FetchPost (WHISPER_API_URL sample_env)
                       {| file_bytes := bytes;
                          file_name := "tiktok_" +:+ getCacheKey sample_env sample_url
                                       +:+ "." +:+ extension_of true;
                          file_type := contentType_of true |}]).
Proof.
  apply (caption_calls_its_provider_then_the_worker_at_most_once
           sample_env YtDlpTool plain_request
           (JObj [("url", JStr sample_url)]) (JStr sample_url) empty_world
           eq_refl eq_refl).
Defined.

(** X22 at the sample request, with and without [debug=true]. *)
Lemma debug_only_adds_the_debug_member_witness :
  snd (handler sample_env TikwmApi PostCaption plain_request empty_world)
  = snd (handler sample_env TikwmApi PostCaption debug_request empty_world)
  /\ match fst (handler sample_env TikwmApi PostCaption debug_request empty_world) with
     | Ok r =>
         fst (handler sample_env TikwmApi PostCaption plain_request empty_world)
         = Ok (without_debug r)
     | Throw e =>
         fst (handler sample_env TikwmApi PostCaption plain_request empty_world)
         = Throw e
     end.
Proof.
  apply (debug_only_adds_the_debug_member sample_env TikwmApi debug_request
           plain_request empty_world eq_refl eq_refl eq_refl eq_refl).
Defined.

(** X23 at the sample request: 80 ms, 80 ms and 40 ms out of 280 ms. *)
Lemma reported_phase_times_fit_in_the_total_witness :
  exists body w' block,
    handler sample_env YtDlpTool PostCaption debug_request empty_world
    = (Ok (JsonCaption body), w')
    /\ debug body = Some block
    /\ exists m d t tot : Z,
         dt_metadata (timing block) = pretty m +:+ "ms"
         /\ dt_download (timing block) = pretty d +:+ "ms"
         /\ dt_transcription (timing block) = pretty t +:+ "ms"
         /\ dt_total (timing block) = pretty tot +:+ "ms"
         /\ 0 <= m /\ 0 <= d /\ 0 <= t /\ m + d + t <= tot.
Proof.
  run_as Hrun (handler sample_env YtDlpTool PostCaption debug_request empty_world).
  match type of Hrun with
  | _ = (Ok (JsonCaption ?body), ?w') =>
      match eval vm_compute in (debug body) with
      | Some ?block =>
          exists body, w', block; split; [exact Hrun|]; split; [reflexivity|];
          refine (reported_phase_times_fit_in_the_total
                    sample_env YtDlpTool debug_request empty_world w' body block
                    _ Hrun eq_refl)
      end
  end.
  intros i j Hij. simpl. lia.
Defined.

(** X24 at the sample request, sent twice. *)
Lemma a_repeated_caption_request_is_served_from_the_cache_witness :
  exists body w1 body' w2,
    handler sample_env YtDlpTool PostCaption plain_request empty_world
    = (Ok (JsonCaption body), w1)
    /\ handler sample_env YtDlpTool PostCaption plain_request w1
       = (Ok (JsonCaption body'), w2)
    /\ md_cached (metadata body') = true
    /\ cb_caption body' = cb_caption body.
Proof.
  assert (Hsound : cache_file_is_sound sample_env (text_of (JStr sample_url))
                     (query_is_true plain_request "audio_only"))
    by (intros op; reflexivity).
  run_as Hrun (handler sample_env YtDlpTool PostCaption plain_request empty_world).
  match type of Hrun with
  | _ = (Ok (JsonCaption ?body), ?w1) =>
      destruct (a_repeated_caption_request_is_served_from_the_cache
                  sample_env YtDlpTool plain_request
                  (JObj [("url", JStr sample_url)]) (JStr sample_url)
                  empty_world w1 body eq_refl eq_refl Hsound Hrun)
        as (body' & w2 & file & Hagain & Hcached & Hcap & _);
      exists body, w1, body', w2
  end.
  split; [exact Hrun|]. split; [exact Hagain|]. split; [exact Hcached | exact Hcap].
Defined.
